(** * baseminiapp: portfolio registry, price proxy and portfolio view

    A shallow embedding of
      - [src/contracts/PortfolioRegistry.sol]  (module [Registry]),
      - [src/app/api/prices/route.ts]          (module [PriceProxy]),
      - the Portfolio component of [src/lib/portfolio-abi.ts]
        (modules [AssetId], [View], [Poll], [Ui] and [Chain]),
    over a model of the JavaScript numbers, strings and JSON values they
    compute with (modules [Js] and [Viem]), followed by the properties
    proved about them. *)

From Stdlib Require Import ZArith String Ascii List Lia SpecFloat HexString.
From stdpp Require Import gmap strings list.

Local Open Scope Z_scope.

(* ===================================================================== *)
(** * The registry contract                                               *)
(* ===================================================================== *)

Module Registry.

(** Solidity value types.  An [address] is a 160-bit value, a [bytes32] a
    256-bit value and a [uint128] a 128-bit unsigned integer; the contract
    performs no arithmetic on any of them, it only stores and compares
    them, so they are carried as integers.  The loop counter is a
    [uint256] that is bounded by an array length. *)
Definition address := Z.
Definition bytes32 := Z.
Definition uint128 := Z.

Inductive event :=
| AssetUpdated (owner : address) (assetId : bytes32) (amount : uint128)
| AssetsBatchUpdated (owner : address) (count : nat).

(** Contract storage: the nested mapping
    [mapping(address => mapping(bytes32 => uint128))], whose slots all
    read as zero until they are written; together with the log of the
    events emitted so far. *)
Record world := World {
  slots : gmap (address * bytes32) uint128;
  logs : list event
}.

(** The getter of the public mapping [amountOf]. *)
Definition amountOf (w : world) (owner : address) (assetId : bytes32) : uint128 :=
  default 0 (slots w !! (owner, assetId)).

(** The contract right after deployment. *)
Definition deployed : world := World ∅ [].

(** ** Execution monad

    A call either runs to completion with a result and a world, or it
    reverts.  A revert carries the world as it was at the point of the
    revert, so that one can see what the body had done by then; the
    transaction layer ([transact], below) discards that world. *)
Inductive failure :=
| Error (reason : string)      (* require(cond, reason) *)
| Panic (code : Z).            (* 0x32: array index out of bounds *)

Inductive outcome (A : Type) :=
| Done (a : A) (w : world)
| Reverted (f : failure) (w : world).
Arguments Done {A} a w.
Arguments Reverted {A} f w.

Definition M (A : Type) := world -> outcome A.

Definition ret {A} (a : A) : M A := fun w => Done a w.
Definition bind {A B} (m : M A) (k : A -> M B) : M B :=
  fun w => match m w with
           | Done a w' => k a w'
           | Reverted f w' => Reverted f w'
           end.

Notation "'let*' x := m 'in' k" := (bind m (fun x => k))
  (at level 10, x name, m at level 100, k at level 200).
Notation "m ;; k" := (bind m (fun _ => k))
  (at level 100, k at level 200, right associativity).

Definition require (cond : bool) (reason : string) : M unit :=
  fun w => if cond then Done tt w else Reverted (Error reason) w.

(** [a[i]] on an array: a checked read. *)
Definition index {A} (a : list A) (i : nat) : M A :=
  fun w => match a !! i with
           | Some x => Done x w
           | None => Reverted (Panic 50) w
           end.

(** [amountOf[owner][assetId] = amount] *)
Definition sstore (owner : address) (assetId : bytes32) (amount : uint128) : M unit :=
  fun w => Done tt (World (<[(owner, assetId) := amount]> (slots w)) (logs w)).

(** [amountOf[owner][assetId]] *)
Definition sload (owner : address) (assetId : bytes32) : M uint128 :=
  fun w => Done (amountOf w owner assetId) w.

Definition emit (e : event) : M unit :=
  fun w => Done tt (World (slots w) (logs w ++ [e])).

(** ** The three entry points; [sender] is [msg.sender]. *)

Definition set (sender : address) (assetId : bytes32) (amount : uint128) : M unit :=
  sstore sender assetId amount ;;
  emit (AssetUpdated sender assetId amount).

(** [for (uint256 i = start; i < assetIds.length; i++) { ... }], with
    [todo] the number of iterations still to run. *)
Fixpoint setMany_loop (sender : address) (assetIds : list bytes32)
    (amounts : list uint128) (todo : nat) (i : nat) : M unit :=
  match todo with
  | O => ret tt
  | S todo' =>
      let* id := index assetIds i in
      let* amount := index amounts i in
      sstore sender id amount ;;
      let* id' := index assetIds i in
      let* amount' := index amounts i in
      emit (AssetUpdated sender id' amount') ;;
      setMany_loop sender assetIds amounts todo' (S i)
  end.

Definition setMany (sender : address) (assetIds : list bytes32)
    (amounts : list uint128) : M unit :=
  require (Nat.eqb (length assetIds) (length amounts)) "Length mismatch" ;;
  setMany_loop sender assetIds amounts (length assetIds) 0 ;;
  emit (AssetsBatchUpdated sender (length assetIds)).

(** [getMany]: the result array is allocated zero-filled and then filled
    position by position. *)
Fixpoint getMany_loop (owner : address) (assetIds : list bytes32)
    (todo : nat) (i : nat) (amounts : list uint128) : M (list uint128) :=
  match todo with
  | O => ret amounts
  | S todo' =>
      let* id := index assetIds i in
      let* v := sload owner id in
      index amounts i ;;
      getMany_loop owner assetIds todo' (S i) (<[i := v]> amounts)
  end.

Definition getMany (owner : address) (assetIds : list bytes32) : M (list uint128) :=
  getMany_loop owner assetIds (length assetIds) 0
    (replicate (length assetIds) 0).

(** ** Transactions

    A state-changing call is a transaction: when the body reverts, every
    effect it had is rolled back and the world is the one before the
    call. *)
Inductive receipt := Success | Failed (f : failure).

Definition transact (body : M unit) (w : world) : receipt * world :=
  match body w with
  | Done _ w' => (Success, w')
  | Reverted f _ => (Failed f, w)
  end.

(** A view call ([eth_call]) returns a value or fails; it never changes
    the world. *)
Definition call {A} (body : M A) (w : world) : failure + A :=
  match body w with
  | Done a _ => inr a
  | Reverted f _ => inl f
  end.

(** The state-changing calls a client can send, and histories of them. *)
Inductive tx :=
| TxSet (sender : address) (assetId : bytes32) (amount : uint128)
| TxSetMany (sender : address) (assetIds : list bytes32) (amounts : list uint128).

Definition body_of (t : tx) : M unit :=
  match t with
  | TxSet s id a => set s id a
  | TxSetMany s ids amts => setMany s ids amts
  end.

Definition apply_tx (w : world) (t : tx) : world := snd (transact (body_of t) w).

Definition run (history : list tx) (w : world) : world :=
  fold_left apply_tx history w.

(** [mentions t owner assetId]: the transaction is sent by [owner] and
    names [assetId]. *)
Definition mentions (t : tx) (owner : address) (assetId : bytes32) : Prop :=
  match t with
  | TxSet s id _ => s = owner /\ id = assetId
  | TxSetMany s ids _ => s = owner /\ assetId ∈ ids
  end.

(** The amount written last for [assetId] by a batch: the amount paired
    with the last occurrence of [assetId], if there is one. *)
Fixpoint last_written (assetId : bytes32) (assetIds : list bytes32)
    (amounts : list uint128) : option uint128 :=
  match assetIds, amounts with
  | id :: ids, a :: amts =>
      match last_written assetId ids amts with
      | Some v => Some v
      | None => if decide (id = assetId) then Some a else None
      end
  | _, _ => None
  end.

(** What a batch of writes by [sender] leaves in the slots, and the
    events it emits, element by element in sequence order. *)
Fixpoint written (sender : address) (assetIds : list bytes32) (amounts : list uint128)
    (m : gmap (address * bytes32) uint128) : gmap (address * bytes32) uint128 :=
  match assetIds, amounts with
  | id :: ids, a :: amts => written sender ids amts (<[(sender, id) := a]> m)
  | _, _ => m
  end.

Fixpoint updates (sender : address) (assetIds : list bytes32) (amounts : list uint128)
    : list event :=
  match assetIds, amounts with
  | id :: ids, a :: amts => AssetUpdated sender id a :: updates sender ids amts
  | _, _ => []
  end.

End Registry.

(* ===================================================================== *)
(** * The JavaScript values the TypeScript sources compute with           *)
(* ===================================================================== *)

Module Js.

(** ** Numbers

    A JavaScript number is an IEEE 754 binary64 value: 53 bits of
    precision, infinities at exponent 1024, one NaN.  [+] and [*] round to
    nearest, ties to even. *)
Definition number := spec_float.

Definition prec : Z := 53.
Definition emax : Z := 1024.

Definition zero : number := S754_zero false.
Definition NaN : number := S754_nan.
Definition Infinity : number := S754_infinity false.

Definition add (x y : number) : number := SFadd prec emax x y.
Definition mul (x y : number) : number := SFmul prec emax x y.

(** The number nearest to the integer [z]. *)
Definition of_Z (z : Z) : number := binary_normalize prec emax z 0 false.

(** The number nearest to the quotient [n / 10^k] of a non-negative
    integer by a power of ten, negated when [neg] is set. *)
Definition of_decimal (neg : bool) (n : Z) (k : nat) : number :=
  match n with
  | Zpos m =>
      SFdiv prec emax (S754_finite neg m 0)
                      (S754_finite false (Z.to_pos (10 ^ Z.of_nat k)) 0)
  | _ => S754_zero neg
  end.

(** One half: [2^52 * 2^-53]. *)
Definition half : number := S754_finite false 4503599627370496 (-53).

(** The global [isFinite], applied to a number. *)
Definition isFinite (x : number) : bool :=
  match x with
  | S754_nan | S754_infinity _ => false
  | _ => true
  end.

Definition is_zero (x : number) : bool :=
  match x with
  | S754_zero _ => true
  | _ => false
  end.

(** ** Strings

    A string is carried as the sequence of bytes of its UTF-8 encoding, so
    that [TextEncoder.encode] is the list of its characters' codes. *)
Definition chars (s : string) : list ascii := list_ascii_of_string s.
Definition str (l : list ascii) : string := string_of_list_ascii l.

Definition TextEncoder_encode (s : string) : list Z :=
  map (fun c => Z.of_N (N_of_ascii c)) (chars s).

(** Digit [d] (below 36) as [toString(radix)] writes it. *)
Definition digit_char (d : Z) : ascii :=
  if d <? 10 then ascii_of_N (Z.to_N (48 + d))
  else ascii_of_N (Z.to_N (87 + d)).

Fixpoint digits_aux (radix : Z) (fuel : nat) (n : Z) (acc : list ascii) : list ascii :=
  match fuel with
  | O => acc
  | S fuel' =>
      let acc' := digit_char (n mod radix) :: acc in
      if n / radix =? 0 then acc' else digits_aux radix fuel' (n / radix) acc'
  end.

(** The digits of a non-negative integer in a radix between 2 and 36,
    most significant first, [0] for zero; a number has no more digits than
    bits. *)
Definition digits (radix : Z) (n : Z) : list ascii :=
  digits_aux radix (S (Z.to_nat (Z.log2 n))) n [].

(** The [width] digits of [n] in a radix, most significant first: the
    fixed-width writing of a value below [radix ^ width]. *)
Fixpoint fixed_width (radix : Z) (width : nat) (n : Z) : list ascii :=
  match width with
  | O => []
  | S width' => fixed_width radix width' (n / radix) ++ [digit_char (n mod radix)]
  end.

(** [n.toString(radix)] on an integer (a bigint, or a number that holds
    an integer below [10^21] in magnitude). *)
Definition toString (radix : Z) (n : Z) : string :=
  if n <? 0 then str ("-"%char :: digits radix (- n))
  else str (digits radix n).

(** [s.padStart(target, fill)] with a one-character [fill]; this and the
    slices below are used on strings of digits, where bytes and UTF-16
    code units coincide. *)
Definition padStart (target : nat) (fill : ascii) (s : string) : string :=
  str (replicate (target - length (chars s)) fill ++ chars s).

(** [s.slice(from)] and [s.slice(0, to)] for indices within the string. *)
Definition slice_from (from : nat) (s : string) : string := str (drop from (chars s)).
Definition slice_to (to : nat) (s : string) : string := str (take to (chars s)).

Definition is_digit (c : ascii) : bool :=
  let n := N_of_ascii c in ((48 <=? n) && (n <=? 57))%N.

Definition digit_value (c : ascii) : Z := Z.of_N (N_of_ascii c) - 48.

Definition all_digits (l : list ascii) : Prop := Forall (fun c => is_digit c = true) l.

(** [s.startsWith("-")] *)
Definition starts_with_minus (l : list ascii) : bool :=
  match l with
  | c :: _ => Ascii.eqb c "-"
  | [] => false
  end.

(** The longest prefix of decimal digits, and what follows it. *)
Fixpoint span_digits (l : list ascii) : list ascii * list ascii :=
  match l with
  | c :: l' =>
      if is_digit c
      then let '(ds, rest) := span_digits l' in (c :: ds, rest)
      else ([], l)
  | [] => ([], [])
  end.

(** The value of a sequence of decimal digits. *)
Definition decimal_value (l : list ascii) : Z :=
  fold_left (fun acc c => 10 * acc + digit_value c) l 0.

(** [Number(s)] for a string [s] that is an optionally signed sequence
    of decimal digits with an optional fractional part ([-12], [0.5],
    [3.250]): the number nearest to the value written.  Any other string
    that is not a numeric literal converts to NaN; the remaining forms of
    numeric literal (exponents, radix prefixes, [Infinity], surrounding
    white space, a missing integer part) do not occur in the sources
    modelled here and are not parsed. *)
Definition Number_of_string (s : string) : number :=
  let l := chars s in
  let neg := starts_with_minus l in
  let body := if neg then drop 1 l else l in
  let '(int_part, rest) := span_digits body in
  match int_part, rest with
  | _ :: _, [] => of_decimal neg (decimal_value int_part) 0
  | _ :: _, c :: frac =>
      if Ascii.eqb c "." && forallb is_digit frac
      then of_decimal neg (decimal_value (int_part ++ frac)) (length frac)
      else NaN
  | [], _ => NaN
  end.

(** [l.join(",")] *)
Fixpoint join (sep : string) (l : list string) : string :=
  match l with
  | [] => EmptyString
  | [x] => x
  | x :: rest => String.append x (String.append sep (join sep rest))
  end.

(** [s.split(",")]: the pieces between the separators, at least one. *)
Fixpoint split_chars (sep : ascii) (l : list ascii) : list (list ascii) :=
  match l with
  | [] => [[]]
  | c :: l' =>
      if Ascii.eqb c sep then [] :: split_chars sep l'
      else match split_chars sep l' with
           | piece :: pieces => (c :: piece) :: pieces
           | [] => [[c]]
           end
  end.

Definition split (sep : ascii) (s : string) : list string :=
  map str (split_chars sep (chars s)).

(** ** What an awaited promise does: it resolves with a value or rejects
    with what was thrown.  A handler tells an [Error] (with its message)
    from anything else. *)
Inductive thrown :=
| ThrownError (message : string)
| ThrownOther.

Inductive settled (A : Type) :=
| Resolved (a : A)
| Rejected (e : thrown).
Arguments Resolved {A} a.
Arguments Rejected {A} e.

(** [e instanceof Error ? e.message : "Unknown error"] *)
Definition message_of (e : thrown) : string :=
  match e with
  | ThrownError m => m
  | ThrownOther => "Unknown error"
  end.

(** [res.ok]: the status is in the range 200-299. *)
Definition ok (status : Z) : bool := (200 <=? status) && (status <=? 299).

(** ** JSON values, as [JSON.parse] and [res.json()] produce them *)
#[warnings="-register-all"]
Inductive json :=
| JNull
| JBool (b : bool)
| JNum (n : number)
| JStr (s : string)
| JArr (items : list json)
| JObj (fields : gmap string json).

(** Truthiness, for [json && json.coins]. *)
Definition truthy (v : json) : bool :=
  match v with
  | JNull => false
  | JBool b => b
  | JNum n => negb (is_zero n) && negb (match n with S754_nan => true | _ => false end)
  | JStr s => negb (String.eqb s "")
  | JArr _ | JObj _ => true
  end.

(** [v.key] on a truthy value and [v?.key] on any value, for a property
    name that only an object parsed from JSON can have ([coins],
    [symbol], [price]): [None] is [undefined]. *)
Definition prop (v : json) (key : string) : option json :=
  match v with
  | JObj fields => fields !! key
  | _ => None
  end.

(** Two numbers that show as the same amount: the same value, or two
    zeros, whatever their signs. *)
Definition same_number (x y : number) : Prop :=
  x = y \/ (is_zero x = true /\ is_zero y = true).

End Js.

(* ===================================================================== *)
(** * Rounding a quotient to binary64                                     *)
(* ===================================================================== *)

Module Rounding.

(** Where the quotient [N / D] lies between the integers [m] and [m + 1]:
    on [m], below the middle, on the middle, above the middle. *)
Definition inbetween (N D m : Z) (l : location) : Prop :=
  match l with
  | loc_Exact => N = m * D
  | loc_Inexact Lt => m * D < N /\ 2 * N < (2 * m + 1) * D
  | loc_Inexact Eq => 2 * N = (2 * m + 1) * D
  | loc_Inexact Gt => (2 * m + 1) * D < 2 * N /\ N < (m + 1) * D
  end.

(** The integer [m] is nearest to the quotient [N / D]: they differ by a
    half at most, and when by just a half, [m] is even. *)
Definition nearest (N D m : Z) : Prop :=
  2 * Z.abs (N - m * D) <= D /\ (2 * Z.abs (N - m * D) = D -> Z.even m = true).

(** [m * 2^e] is nearest to the quotient [a / b] among the multiples of
    [2^e], ties going to the even mantissa.  With a mantissa of 53 bits
    this makes [m * 2^e] the binary64 number nearest to [a / b]. *)
Definition nearest_quotient (a b : Z) (m : positive) (e : Z) : Prop :=
  nearest (a * 2 ^ Z.max (- e) 0) (b * 2 ^ Z.max e 0) (Zpos m).

End Rounding.

(* ===================================================================== *)
(** * Asset identifiers: [toAssetId]                                      *)
(* ===================================================================== *)

Module AssetId.
Import Js.

(** The 32-bit integer conversions behind [<<], [^] and [>>>], on
    integral numbers. *)
Definition ToUint32 (z : Z) : Z := z mod 2 ^ 32.
Definition ToInt32 (z : Z) : Z :=
  let m := z mod 2 ^ 32 in if m <? 2 ^ 31 then m else m - 2 ^ 32.

(** [x << n] *)
Definition shl (x : Z) (n : Z) : Z := ToInt32 (Z.shiftl (ToInt32 x) (n mod 32)).
(** [x ^ y] *)
Definition xor (x y : Z) : Z := ToInt32 (Z.lxor (ToInt32 x) (ToInt32 y)).
(** [x >>> n] *)
Definition ushr (x : Z) (n : Z) : Z := Z.shiftr (ToUint32 x) (n mod 32).

(** One turn of the loop: [hash = ((hash << 5) + hash) ^ enc[i]].  The
    sum of two 32-bit integers is exact in a number. *)
Definition step (hash : Z) (byte : Z) : Z := xor (shl hash 5 + hash) byte.

Definition djb2 (enc : list Z) : Z := fold_left step enc 5381.

Definition toAssetId (id : string) : string :=
  let enc := TextEncoder_encode id in
  let hash := djb2 enc in
  let hex := padStart 8 "0" (toString 16 (ushr hash 0)) in
  String.append "0x" (padStart 64 "0" hex).

(** The hash in words, to compare [toAssetId] with: the xor variant of
    the djb2 string hash on 32 bits.  Starting from 5381, each byte in
    turn replaces the hash [h] by [(33 * h mod 2^32) xor byte]. *)
Definition djb2_xor_32 (bytes : list Z) : Z :=
  fold_left (fun h byte => Z.lxor (33 * h mod 2 ^ 32) byte) bytes 5381.

(** The digits a hexadecimal writing in lower case is made of. *)
Definition lower_hex_digits : list ascii := chars "0123456789abcdef".

End AssetId.

(* ===================================================================== *)
(** * viem's unit formatting                                              *)
(* ===================================================================== *)

Module Viem.
Import Js.

(** [fraction.replace(/(0+)$/, '')]: the string without the zeros it
    ends with. *)
Fixpoint strip_trailing_zeros (l : list ascii) : list ascii :=
  match l with
  | [] => []
  | c :: l' =>
      match strip_trailing_zeros l' with
      | [] => if Ascii.eqb c "0" then [] else [c]
      | kept => c :: kept
      end
  end.

(** [formatUnits(value, decimals)] of the viem library, which the view
    imports: the decimal writing of [value / 10^decimals], without
    trailing zeros in the fraction and without a point when the fraction
    is empty. *)
Definition formatUnits (value : Z) (decimals : nat) : string :=
  let display := toString 10 value in
  let negative := starts_with_minus (chars display) in
  let display := if negative then slice_from 1 display else display in
  let display := padStart decimals "0" display in
  let cut := (length (chars display) - decimals)%nat in
  let integer := slice_to cut display in
  let fraction := slice_from cut display in
  let fraction := str (strip_trailing_zeros (chars fraction)) in
  String.append (if negative then "-" else "")
    (String.append (if String.eqb integer "" then "0" else integer)
       (if String.eqb fraction "" then "" else String.append "." fraction)).

End Viem.

(* ===================================================================== *)
(** * The portfolio view: holdings, valuation, reconciliation             *)
(* ===================================================================== *)

Module View.
Import Js.

Record Holding := {
  id : string;
  symbol : option string;
  name : option string;
  amount : number
}.

(** An entry of [PriceMap], as [res.json()] parses it from the answer of
    the price endpoint: the price is a number or [null] ([None]), the
    symbol the JSON value the endpoint passed on, if any. *)
Record Quote := {
  quote_symbol : option json;
  price : option number
}.

Abbreviation PriceMap := (gmap string Quote).

(** [holdings.map((h) => h.id).join(",")] *)
Definition ids (holdings : list Holding) : string := join "," (map id holdings).

(** An identifier as the picker and the default list have them: not
    empty, and without a comma. *)
Definition plain (s : string) : Prop := chars s <> [] /\ ","%char ∉ chars s.

(** [prices[key]?.price ?? 0] *)
Definition price_of (prices : PriceMap) (key : string) : number :=
  match prices !! key with
  | Some q => default zero (price q)
  | None => zero
  end.

(** The value shown in a row: [h.amount * price]. *)
Definition value (prices : PriceMap) (h : Holding) : number :=
  mul (amount h) (price_of prices (id h)).

(** [holdings.reduce((sum, h) => sum + h.amount * p, 0)] *)
Definition totalUsd (holdings : list Holding) (prices : PriceMap) : number :=
  fold_left (fun sum h => let p := price_of prices (id h) in add sum (mul (amount h) p))
            holdings zero.

Definition assetIdsBytes32 (holdings : list Holding) : list string :=
  map (fun h => AssetId.toAssetId (id h)) holdings.

(** [{ ...h, amount: a }] *)
Definition with_amount (h : Holding) (a : number) : Holding :=
  {| id := id h; symbol := symbol h; name := name h; amount := a |}.

(** [Number(formatUnits(x, 18))] *)
Definition display_amount (x : Z) : number :=
  Number_of_string (Viem.formatUnits x 18).

(** The effect that runs when [chainAmounts] changes: nothing while the
    read has no data, else every holding takes the amount at its own
    position ([chainAmounts[i] ?? 0n]). *)
Definition reconcile (chainAmounts : option (list Z)) (prev : list Holding)
    : list Holding :=
  match chainAmounts with
  | None => prev
  | Some amounts =>
      imap (fun i h => with_amount h (display_amount (default 0 (amounts !! i)))) prev
  end.

(** [updateAmount(index, nextAmount)].  The view calls it with the index
    of a row it has rendered.  On an index past the end JavaScript would
    grow the array by an object that has an amount and no id, which is
    not a [Holding]; the model has no result there. *)
Definition updateAmount (index : nat) (nextAmount : number) (prev : list Holding)
    : option (list Holding) :=
  match prev !! index with
  | Some h =>
      Some (<[index := with_amount h (if isFinite nextAmount then nextAmount else zero)]> prev)
  | None => None
  end.

(** [prev.filter((_, i) => i !== index)], with [i] the position of the
    head of [l]. *)
Fixpoint filter_index (keep : nat -> bool) (i : nat) (l : list Holding) : list Holding :=
  match l with
  | [] => []
  | h :: l' =>
      if keep i then h :: filter_index keep (S i) l' else filter_index keep (S i) l'
  end.

Definition removeRow (index : nat) (prev : list Holding) : list Holding :=
  filter_index (fun i => negb (Nat.eqb i index)) 0 prev.

(** [onPick]: [[...prev, asset]] *)
Definition addAsset (asset : Holding) (prev : list Holding) : list Holding :=
  prev ++ [asset].

End View.

(* ===================================================================== *)
(** * The price polling effect of the view                                *)
(* ===================================================================== *)

Module Poll.
Import Js View.

(** One run of the effect body.  Each run has its own [ignore] variable
    and its own interval; [fetchPrices] and the interval callback close
    over them and over the [ids] of that run. *)
Record instance := {
  captured_ids : string;
  ignore : bool;
  interval_live : bool
}.

(** A call of [fetchPrices] is suspended at [await fetch(...)], then at
    [await res.json()], then it is over. *)
Inductive phase := AwaitFetch | AwaitJson | Over.

Record poll := {
  started_by : nat;      (* the effect run whose [fetchPrices] this is *)
  at_phase : phase
}.

Record state := {
  prices : PriceMap;
  loading : bool;
  error : option string;
  mounted : bool;
  instances : list instance;   (* all effect runs so far, oldest first *)
  polls : list poll            (* all calls of fetchPrices so far *)
}.

Definition set_prices (v : PriceMap) (s : state) : state :=
  {| prices := v; loading := loading s; error := error s; mounted := mounted s;
     instances := instances s; polls := polls s |}.
Definition set_loading (v : bool) (s : state) : state :=
  {| prices := prices s; loading := v; error := error s; mounted := mounted s;
     instances := instances s; polls := polls s |}.
Definition set_error (v : option string) (s : state) : state :=
  {| prices := prices s; loading := loading s; error := v; mounted := mounted s;
     instances := instances s; polls := polls s |}.
Definition set_mounted (v : bool) (s : state) : state :=
  {| prices := prices s; loading := loading s; error := error s; mounted := v;
     instances := instances s; polls := polls s |}.
Definition set_instances (v : list instance) (s : state) : state :=
  {| prices := prices s; loading := loading s; error := error s; mounted := mounted s;
     instances := v; polls := polls s |}.
Definition set_polls (v : list poll) (s : state) : state :=
  {| prices := prices s; loading := loading s; error := error s; mounted := mounted s;
     instances := instances s; polls := v |}.

(** The effect run that is current: the last one. *)
Definition current (s : state) : nat := (length (instances s) - 1)%nat.

(** The value of the [ignore] variable of run [e]. *)
Definition ignored (s : state) (e : nat) : bool :=
  match instances s !! e with
  | Some i => ignore i
  | None => false
  end.

(** [if (!ignore) ...] inside the [fetchPrices] of run [e]. *)
Definition unless_ignored (e : nat) (f : state -> state) (s : state) : state :=
  if ignored s e then s else f s.

(** The start of [fetchPrices], up to its first [await]. *)
Definition fetchPrices_start (e : nat) (s : state) : state :=
  let s := set_loading true s in
  let s := set_error None s in
  set_polls (polls s ++ [{| started_by := e; at_phase := AwaitFetch |}]) s.

Definition set_phase (p : nat) (ph : phase) (s : state) : state :=
  match polls s !! p with
  | Some q => set_polls (<[p := {| started_by := started_by q; at_phase := ph |}]> (polls s)) s
  | None => s
  end.

(** The [catch] and [finally] blocks. *)
Definition fetchPrices_catch (p e : nat) (err : thrown) (s : state) : state :=
  let s := unless_ignored e (set_error (Some (message_of err))) s in
  let s := unless_ignored e (set_loading false) s in
  set_phase p Over s.

(** What [await res.json()] gives [fetchPrices] as [data].  It can be
    [null]: reading [data.prices] then throws a TypeError, whose message is
    the engine's own.  Of any other value [data.prices] is read; [None]
    stands for a property that is missing or falsy. *)
Inductive parsed :=
| Null (type_error : string)
| Data (data_prices : option PriceMap).

(** After [await res.json()] has produced [data]:
    [if (!ignore) setPrices(data.prices || {})], then [finally].
    [data.prices] is read only when [ignore] is false; when reading it
    throws, the [catch] block comes first. *)
Definition fetchPrices_apply (p e : nat) (data : parsed) (s : state) : state :=
  match data with
  | Null type_error =>
      if ignored s e
      then set_phase p Over (unless_ignored e (set_loading false) s)
      else fetchPrices_catch p e (ThrownError type_error) s
  | Data data_prices =>
      let s := unless_ignored e (set_prices (default ∅ data_prices)) s in
      let s := unless_ignored e (set_loading false) s in
      set_phase p Over s
  end.

(** The cleanup function of the current run:
    [ignore = true; clearInterval(t)]. *)
Definition cleanup (s : state) : state :=
  match instances s !! current s with
  | Some i =>
      set_instances
        (<[current s := {| captured_ids := captured_ids i; ignore := true;
                           interval_live := false |}]> (instances s)) s
  | None => s
  end.

(** The effect body for a given [ids]: a fresh [ignore], a poll at once
    when [ids] is not empty, and an interval. *)
Definition run_effect (ids : string) (s : state) : state :=
  let e := length (instances s) in
  let s := set_instances
             (instances s ++ [{| captured_ids := ids; ignore := false;
                                 interval_live := true |}]) s in
  if (0 <? String.length ids)%nat then fetchPrices_start e s else s.

Inductive event :=
| Render (ids : string)          (* a render in which [ids] has this value *)
| Unmount
| Tick (e : nat)                 (* the interval of run [e] fires *)
| FetchSettles (p : nat) (r : settled Z)     (* [fetch] of poll [p]: a status, or a throw *)
| JsonSettles (p : nat) (r : settled parsed).
                                 (* [res.json()] of poll [p]: [data], or a throw *)

Definition step (s : state) (ev : event) : state :=
  match ev with
  | Render ids =>
      match instances s !! current s with
      | Some i =>
          if mounted s && negb (String.eqb (captured_ids i) ids)
          then run_effect ids (cleanup s)
          else s
      | None => s
      end
  | Unmount =>
      if mounted s then set_mounted false (cleanup s) else s
  | Tick e =>
      match instances s !! e with
      | Some i =>
          if interval_live i && (0 <? String.length (captured_ids i))%nat
          then fetchPrices_start e s
          else s
      | None => s
      end
  | FetchSettles p r =>
      match polls s !! p with
      | Some {| started_by := e; at_phase := AwaitFetch |} =>
          match r with
          | Resolved status =>
              if ok status then set_phase p AwaitJson s
              else fetchPrices_catch p e
                     (ThrownError (String.append "Price API error: " (toString 10 status))) s
          | Rejected err => fetchPrices_catch p e err s
          end
      | _ => s
      end
  | JsonSettles p r =>
      match polls s !! p with
      | Some {| started_by := e; at_phase := AwaitJson |} =>
          match r with
          | Resolved data => fetchPrices_apply p e data s
          | Rejected err => fetchPrices_catch p e err s
          end
      | _ => s
      end
  end.

(** The [ids] the current effect run was started for: the dependency the
    next render is compared with. *)
Definition current_ids (s : state) : string :=
  match instances s !! current s with
  | Some i => captured_ids i
  | None => EmptyString
  end.

(** Run [e] has been cleaned up: its [ignore] variable is [true]. *)
Definition dead (s : state) (e : nat) : Prop :=
  exists i, instances s !! e = Some i /\ ignore i = true.

(** The runs that started the calls of [fetchPrices], in call order. *)
Definition starters (s : state) : list nat := map started_by (polls s).

(** What holds of the component at all times: there is a current run;
    every run before it has been cleaned up; every call of [fetchPrices]
    belongs to a run; and once the component is unmounted every run has
    been cleaned up. *)
Record wf (s : state) : Prop := {
  wf_current : (0 < length (instances s))%nat;
  wf_older : forall e, (S e < length (instances s))%nat -> dead s e;
  wf_polls : Forall (fun e => (e < length (instances s))%nat) (starters s);
  wf_unmounted : mounted s = false ->
                 forall e, (e < length (instances s))%nat -> dead s e
}.

(** What the user sees of the polling. *)
Definition shown (s : state) : PriceMap * bool * option string :=
  (prices s, loading s, error s).

(** The component right after its first render and effect run. *)
Definition mount (ids : string) : state :=
  run_effect ids
    {| prices := ∅; loading := false; error := None; mounted := true;
       instances := []; polls := [] |}.

Definition run (s : state) (evs : list event) : state := fold_left step evs s.

End Poll.

(* ===================================================================== *)
(** * The price proxy: [GET /api/prices]                                  *)
(* ===================================================================== *)

Module PriceProxy.
Import Js.

(** ** Strings of the request *)

Definition bytes (l : list N) : list ascii := map ascii_of_N l.

(** The white space and line terminators [trim] removes, as UTF-8:
    U+0009..U+000D, U+0020, U+00A0, U+1680, U+2000..U+200A, U+2028,
    U+2029, U+202F, U+205F, U+3000, U+FEFF. *)
Definition white_space : list (list ascii) :=
  map bytes
    ([[9]; [10]; [11]; [12]; [13]; [32]; [194; 160]; [225; 154; 128]]
     ++ map (fun b => [226; 128; b]) [128; 129; 130; 131; 132; 133; 134; 135; 136; 137; 138]
     ++ [[226; 128; 168]; [226; 128; 169]; [226; 128; 175]; [226; 129; 159];
         [227; 128; 128]; [239; 187; 191]])%N.

(** [l] without its prefix [p], when it has that prefix. *)
Fixpoint strip_prefix (p l : list ascii) : option (list ascii) :=
  match p, l with
  | [], _ => Some l
  | a :: p', b :: l' => if Ascii.eqb a b then strip_prefix p' l' else None
  | _ :: _, [] => None
  end.

Fixpoint strip_any (seqs : list (list ascii)) (l : list ascii) : option (list ascii) :=
  match seqs with
  | [] => None
  | p :: seqs' =>
      match strip_prefix p l with
      | Some l' => Some l'
      | None => strip_any seqs' l
      end
  end.

Fixpoint trim_start (seqs : list (list ascii)) (fuel : nat) (l : list ascii) : list ascii :=
  match fuel with
  | O => l
  | S fuel' =>
      match strip_any seqs l with
      | Some l' => trim_start seqs fuel' l'
      | None => l
      end
  end.

(** [s.trim()] *)
Definition trim (s : string) : string :=
  let l := chars s in
  let l := trim_start white_space (length l) l in
  let r := rev l in
  str (rev (trim_start (map (@rev ascii) white_space) (length r) r)).

(** The characters [encodeURIComponent] leaves as they are:
    letters, digits and [- _ . ! ~ * ' ( )]. *)
Definition unreserved (c : ascii) : bool :=
  let n := N_of_ascii c in
  ((65 <=? n) && (n <=? 90) || (97 <=? n) && (n <=? 122) || (48 <=? n) && (n <=? 57)
   || existsb (N.eqb n) [45; 95; 46; 33; 126; 42; 39; 40; 41])%N.

Definition upper_hex (d : N) : ascii :=
  if (d <? 10)%N then ascii_of_N (48 + d) else ascii_of_N (55 + d).

(** [encodeURIComponent(s)]: every other byte is written [%XX]. *)
Definition encodeURIComponent (s : string) : string :=
  str (flat_map
         (fun c =>
            if unreserved c then [c]
            else let n := N_of_ascii c in
                 ["%"%char; upper_hex (n / 16); upper_hex (n mod 16)])
         (chars s)).

Definition DEFAULT_IDS : list string :=
  ["coingecko:bitcoin"; "coingecko:ethereum"; "coingecko:solana";
   "coingecko:base-ecosystem-token"; "coingecko:chainlink"]%string.

(** [(idsParam ? idsParam.split(",") : [...DEFAULT_IDS]).map((s) => s.trim())];
    [idsParam] is [null] when the request has no [ids], and an empty
    string is falsy. *)
Definition ids_of (idsParam : option string) : list string :=
  map trim
    match idsParam with
    | Some s => if String.eqb s "" then DEFAULT_IDS else split "," s
    | None => DEFAULT_IDS
    end.

Definition url_of (ids : list string) : string :=
  String.append "https://coins.llama.fi/prices/current/"
    (String.append (encodeURIComponent (join "," ids)) "?searchWidth=8h").

(** What the receiver of the URL reads the escaped part as: every [%XX]
    is the byte its two hexadecimal digits write, every other character
    is itself. *)
Fixpoint percent_decode (l : list ascii) : list ascii :=
  match l with
  | [] => []
  | c :: rest =>
      if Ascii.eqb c "%"
      then match rest with
           | high :: low :: rest' =>
               ascii_of_N (16 * default 0 (ascii_to_digit high)
                           + default 0 (ascii_to_digit low))%N
                 :: percent_decode rest'
           | _ => l
           end
      else c :: percent_decode rest
  end.

(** ** The upstream body *)

(** The UTF-16 code units of a string, one entry per unit: a character
    outside the basic plane (four bytes of UTF-8) has two.  Each entry
    holds the character its unit belongs to. *)
Definition is_continuation (c : ascii) : bool :=
  let n := N_of_ascii c in ((128 <=? n) && (n <? 192))%N.

Fixpoint utf8_chars (l : list ascii) : list (list ascii) :=
  match l with
  | [] => []
  | c :: l' =>
      match utf8_chars l' with
      | g :: gs =>
          match g with
          | d :: _ => if is_continuation d then (c :: g) :: gs else [c] :: g :: gs
          | [] => [c] :: gs
          end
      | [] => [[c]]
      end
  end.

Definition code_units (s : string) : list string :=
  flat_map
    (fun g => match g with
              | c :: _ => if (240 <=? N_of_ascii c)%N then [str g; str g] else [str g]
              | [] => []
              end)
    (utf8_chars (chars s)).

(** [Object.keys(c)] paired with [c[key]] for each key: the fields of an
    object, the positions of an array, the code units of a string, and
    nothing for a number or a boolean. *)
Definition entries (c : json) : list (string * json) :=
  match c with
  | JObj fields => map_to_list fields
  | JArr items => imap (fun i v => (toString 10 (Z.of_nat i), v)) items
  | JStr s => imap (fun i u => (toString 10 (Z.of_nat i), JStr u)) (code_units s)
  | JNull | JBool _ | JNum _ => []
  end.

(** What the handler needs from outside: the upstream service, the
    clock, and of the engine the reading of a string as a number, the
    writing of a number as a string, and the message it gives the
    TypeError of a conversion that fails. *)
Record upstream := {
  up_status : Z;
  up_json : settled json       (* what [res.json()] settles to *)
}.

Record runtime := {
  fetch : string -> settled upstream;
  Date_now : Z;
  StringToNumber : string -> number;
  NumberToString : number -> string;
  TypeError_message : string
}.

(** [x ?? 0] *)
Definition or_zero (x : option json) : json :=
  match x with
  | None | Some JNull => JNum zero
  | Some v => v
  end.

(** [pieces.join(",")] where producing a piece can throw: the first
    throw, in order, is the outcome. *)
Fixpoint join_pieces (pieces : list (settled string)) : settled string :=
  match pieces with
  | [] => Resolved EmptyString
  | Rejected e :: _ => Rejected e
  | Resolved s :: rest =>
      match rest with
      | [] => Resolved s
      | _ :: _ =>
          match join_pieces rest with
          | Resolved t => Resolved (String.append s (String.append "," t))
          | Rejected e => Rejected e
          end
      end
  end.

(** [ToString(v)].  A value parsed from JSON has no function among its
    properties.  The conversion of an object therefore ends in
    [Object.prototype.toString], which gives ["[object Object]"], unless
    the object has a property [toString] of its own: that hides the
    method, neither [toString] nor [valueOf] then gives a primitive, and a
    TypeError is thrown.  The conversion of an array is
    [Array.prototype.join]: its elements converted in order and joined with
    commas, a [null] element giving the empty string. *)
Fixpoint ToString (rt : runtime) (v : json) : settled string :=
  match v with
  | JNull => Resolved "null"%string
  | JBool true => Resolved "true"%string
  | JBool false => Resolved "false"%string
  | JNum n => Resolved (NumberToString rt n)
  | JStr s => Resolved s
  | JArr items =>
      join_pieces
        (List.map (fun item => match item with
                               | JNull => Resolved EmptyString
                               | _ => ToString rt item
                               end) items)
  | JObj fields =>
      if bool_decide ("toString"%string ∈ dom fields)
      then Rejected (ThrownError (TypeError_message rt))
      else Resolved "[object Object]"%string
  end.

(** [Number(v)].  An array or an object is first converted to a
    primitive, which for a value parsed from JSON is the string
    [ToString] gives, or the TypeError it throws. *)
Definition Number (rt : runtime) (v : json) : settled number :=
  match v with
  | JNum n => Resolved n
  | JNull => Resolved zero
  | JBool true => Resolved (of_Z 1)
  | JBool false => Resolved zero
  | JStr s => Resolved (StringToNumber rt s)
  | JArr _ | JObj _ =>
      match ToString rt v with
      | Resolved s => Resolved (StringToNumber rt s)
      | Rejected e => Rejected e
      end
  end.

(** The values [Number] cannot convert, in words: an object that has a
    property [toString] of its own, and an array that holds such a value,
    at any depth. *)
Fixpoint unconvertible (v : json) : bool :=
  match v with
  | JObj fields => bool_decide ("toString"%string ∈ dom fields)
  | JArr items => existsb unconvertible items
  | JNull | JBool _ | JNum _ | JStr _ => false
  end.

(** An entry of the [prices] object the handler builds. *)
Record quote := {
  symbol : option json;
  price : number
}.

(** The entry written for a key:
    [{ symbol: rec?.symbol, price: Number(rec?.price ?? 0) }] with [rec]
    standing for [json.coins[key]]; [Number] can throw. *)
Definition quote_of (rt : runtime) (rec : json) : settled quote :=
  match Number rt (or_zero (prop rec "price")) with
  | Resolved n => Resolved {| symbol := prop rec "symbol"; price := n |}
  | Rejected e => Rejected e
  end.

(** [prices[key] = q] on the plain object [prices].  The key [__proto__]
    is the one string for which this assignment adds no entry: it goes to
    the setter of [Object.prototype] and replaces the prototype of
    [prices]. *)
Definition assign (key : string) (q : quote) (prices : gmap string quote)
    : gmap string quote :=
  if String.eqb key "__proto__" then prices else <[key := q]> prices.

(** One turn of the loop: [prices[key] = { ... }], unless an earlier
    turn has thrown or the entry cannot be built. *)
Definition normalize_step (rt : runtime) (acc : settled (gmap string quote))
    (entry : string * json) : settled (gmap string quote) :=
  match acc with
  | Resolved prices =>
      match quote_of rt entry.2 with
      | Resolved q => Resolved (assign entry.1 q prices)
      | Rejected e => Rejected e
      end
  | Rejected e => Rejected e
  end.

(** The block under [// Normalize output]: the [prices] object, or what
    one of the conversions has thrown. *)
Definition normalize (rt : runtime) (json_ : json) : settled (gmap string quote) :=
  if truthy json_ && match prop json_ "coins" with Some c => truthy c | None => false end
  then
    match prop json_ "coins" with
    | Some coins => fold_left (normalize_step rt) (entries coins) (Resolved ∅)
    | None => Resolved ∅
    end
  else Resolved ∅.

(** ** The body of the answer, as [NextResponse.json] serialises it

    [JSON.stringify] writes a finite number so that it reads back as
    the same number (as zero for minus zero) and writes [null] for NaN and
    the infinities; it leaves out a property whose value is [undefined].
    The model holds the body as the value its text reads back as. *)
Definition stringify_number (n : number) : option number :=
  match n with
  | S754_zero _ => Some zero
  | S754_finite _ _ _ => Some n
  | S754_infinity _ | S754_nan => None
  end.

Fixpoint stringify (v : json) : json :=
  match v with
  | JNum n => match stringify_number n with Some n' => JNum n' | None => JNull end
  | JArr items => JArr (List.map stringify items)
  | JObj fields => JObj (stringify <$> fields)
  | JNull | JBool _ | JStr _ => v
  end.

Definition serialize (q : quote) : View.Quote :=
  {| View.quote_symbol := stringify <$> symbol q;
     View.price := stringify_number (price q) |}.

(** The two shapes of body: [{ error }], and [{ prices, ts }] with the
    entries as a client reads them, which is what the view's [PriceMap]
    holds. *)
Inductive payload :=
| ErrorBody (error : string)
| PricesBody (prices : View.PriceMap) (ts : Z).

Record response := {
  status : Z;
  cache_control : option string;
  body : payload
}.

(** The [catch] block. *)
Definition internal_error (err : thrown) : response :=
  {| status := 500; cache_control := None; body := ErrorBody (message_of err) |}.

Definition GET (rt : runtime) (idsParam : option string) : response :=
  let ids := ids_of idsParam in
  let url := url_of ids in
  match fetch rt url with
  | Rejected err => internal_error err
  | Resolved res =>
      if negb (ok (up_status res))
      then {| status := 502; cache_control := None;
              body := ErrorBody (String.append "Upstream error: "
                                   (toString 10 (up_status res))) |}
      else
        match up_json res with
        | Rejected err => internal_error err
        | Resolved json_ =>
            match normalize rt json_ with
            | Rejected err => internal_error err
            | Resolved prices =>
                {| status := 200; cache_control := Some "no-store"%string;
                   body := PricesBody (serialize <$> prices) (Date_now rt) |}
            end
        end
  end.

End PriceProxy.

(* ===================================================================== *)
(** * What the user can do to the holdings                                *)
(* ===================================================================== *)

Module Ui.
Import Js View.

Definition asset (id_ symbol_ name_ : string) : Holding :=
  {| id := id_; symbol := Some symbol_; name := Some name_; amount := zero |}.

(** The [options] of [AssetPicker]. *)
Definition options : list Holding :=
  [ asset "coingecko:bitcoin" "BTC" "Bitcoin";
    asset "coingecko:ethereum" "ETH" "Ethereum";
    asset "coingecko:solana" "SOL" "Solana";
    asset "coingecko:chainlink" "LINK" "Chainlink";
    asset "coingecko:base-ecosystem-token" "BASE" "Base";
    asset "coingecko:usd-coin" "USDC" "USD Coin";
    asset "coingecko:tether" "USDT" "Tether";
    asset "coingecko:arbitrum" "ARB" "Arbitrum";
    asset "coingecko:optimism" "OP" "Optimism";
    asset "coingecko:avalanche-2" "AVAX" "Avalanche";
    asset "coingecko:polygon-ecosystem-token" "POL" "Polygon";
    asset "coingecko:ripple" "XRP" "XRP";
    asset "coingecko:cardano" "ADA" "Cardano";
    asset "coingecko:dogecoin" "DOGE" "Dogecoin" ].

(** The initial state of [holdings]. *)
Definition initial : list Holding :=
  [ asset "coingecko:bitcoin" "BTC" "Bitcoin";
    asset "coingecko:ethereum" "ETH" "Ethereum" ].

(** The lists of holdings the component can get to: from the initial
    list by picking an asset (the picker offers a filtered part of
    [options], all of it for the empty query), editing the amount of a row,
    removing a row, and taking in amounts read from the chain. *)
Inductive reachable : list Holding -> Prop :=
| reach_initial : reachable initial
| reach_pick hs o : reachable hs -> o ∈ options -> reachable (addAsset o hs)
| reach_edit hs index x hs' :
    reachable hs -> updateAmount index x hs = Some hs' -> reachable hs'
| reach_remove hs index : reachable hs -> reachable (removeRow index hs)
| reach_load hs amounts : reachable hs -> reachable (reconcile (Some amounts) hs).

(** The identifiers on offer. *)
Definition known_ids : list string := map id options.

(** A decidable form of [plain], and of being left alone by [trim]. *)
Definition plainb (s : string) : bool :=
  match chars s with
  | [] => false
  | l => negb (existsb (fun c => Ascii.eqb c ",") l)
  end.

Definition trimmedb (s : string) : bool := String.eqb (PriceProxy.trim s) s.

End Ui.

(* ===================================================================== *)
(** * The view and the registry together                                  *)
(* ===================================================================== *)

Module Chain.
Import Js View Registry.

(** The value of a hexadecimal digit, in either case. *)
Definition hex_digit_value (c : ascii) : Z :=
  let n := Z.of_N (N_of_ascii c) in
  if (48 <=? n) && (n <=? 57) then n - 48
  else if (97 <=? n) && (n <=? 102) then n - 87
  else if (65 <=? n) && (n <=? 70) then n - 55
  else 0.

Definition hex_value (l : list ascii) : Z :=
  fold_left (fun acc c => 16 * acc + hex_digit_value c) l 0.

(** The [bytes32] argument the contract receives for a string [0x...] of
    64 hexadecimal digits: the 256-bit value the digits write. *)
Definition bytes32_of_hex (s : string) : bytes32 := hex_value (drop 2 (chars s)).

(** The key under which a holding is stored. *)
Definition key (h : Holding) : bytes32 := bytes32_of_hex (AssetId.toAssetId (id h)).

(** The identifiers sent to the contract for a list of holdings. *)
Definition assetIds (holdings : list Holding) : list bytes32 :=
  map bytes32_of_hex (assetIdsBytes32 holdings).

(** [chainAmounts], the data of the [getMany] read: there is none while no
    wallet is connected ([args] is [undefined]) or when the call fails. *)
Definition chainAmounts (address_ : option address) (w : world) (holdings : list Holding)
    : option (list uint128) :=
  match address_ with
  | None => None
  | Some owner =>
      match call (getMany owner (assetIds holdings)) w with
      | inr amounts => Some amounts
      | inl _ => None
      end
  end.

(** The holdings once the read for them has come back. *)
Definition load (address_ : option address) (w : world) (holdings : list Holding)
    : list Holding :=
  reconcile (chainAmounts address_ w holdings) holdings.

(** [h.amount || 0]: zero, minus zero and NaN are falsy. *)
Definition amount_or_zero (a : number) : number :=
  match a with
  | S754_zero _ | S754_nan => zero
  | _ => a
  end.

Definition is_uint128 (a : Z) : bool := (0 <=? a) && (a <? 2 ^ 128).

(** The transaction [saveOnChain] asks the wallet to send, if it gets that
    far.  [to_units] stands for [parseUnits(String(x), 18)], which gives a
    bigint or throws; an amount that is not a [uint128] cannot be encoded
    as an argument.  In both cases the error is caught and logged and
    nothing is sent. *)
Definition saveOnChain (to_units : number -> option Z) (sender : address)
    (holdings : list Holding) : option tx :=
  match mapM (fun h => to_units (amount_or_zero (amount h))) holdings with
  | Some amounts =>
      if forallb is_uint128 amounts
      then Some (TxSetMany sender (assetIds holdings) amounts)
      else None
  | None => None
  end.

End Chain.

(* ===================================================================== *)
(** * Timers and requests of the polling effect                           *)
(* ===================================================================== *)

Module Timers.
Import Js View Poll.

(** The interval of run [e] has not been cleared. *)
Definition ticking (s : state) (e : nat) : Prop :=
  exists i, instances s !! e = Some i /\ interval_live i = true.

(** Run [e] was started for a non-empty [ids]. *)
Definition has_ids (s : state) (e : nat) : Prop :=
  exists i, instances s !! e = Some i /\ (0 <? String.length (captured_ids i))%nat = true.

(** What holds of timers and requests at all times: an interval that
    ticks belongs to the current run of a mounted component, and every call
    of [fetchPrices] belongs to a run that was started for a non-empty
    [ids]. *)
Record tidy (s : state) : Prop := {
  tidy_interval : forall e, ticking s e -> mounted s = true /\ S e = length (instances s);
  tidy_polls : Forall (has_ids s) (starters s)
}.

(** The events other than a render with holdings. *)
Definition no_holdings_event (ev : event) : Prop :=
  match ev with
  | Render ids => ids = EmptyString
  | _ => True
  end.

End Timers.

(* ===================================================================== *)
(** * Reading the registry's history                                      *)
(* ===================================================================== *)

Module Ledger.
Import Registry.

(** The amount a transaction leaves in the slot of ([owner], [assetId]),
    when it writes that slot: a [set] of that pair, or a batch of [owner]
    with arrays of equal length that names [assetId], for which the last
    occurrence counts.  A batch that reverts writes nothing. *)
Definition writes (t : tx) (owner : address) (assetId : bytes32) : option uint128 :=
  match t with
  | TxSet s id a =>
      if bool_decide (s = owner /\ id = assetId) then Some a else None
  | TxSetMany s ids amts =>
      if bool_decide (s = owner) && Nat.eqb (length ids) (length amts)
      then last_written assetId ids amts
      else None
  end.

(** The last write to a slot in a history, oldest transaction first. *)
Definition last_write (history : list tx) (owner : address) (assetId : bytes32)
    : option uint128 :=
  fold_left (fun found t => match writes t owner assetId with
                            | Some a => Some a
                            | None => found
                            end) history None.

(** What an indexer that follows the [AssetUpdated] events holds for a
    slot: the amount of the latest event for it, zero before any. *)
Definition replay_step (owner : address) (assetId : bytes32) (held : uint128) (e : event)
    : uint128 :=
  match e with
  | AssetUpdated o id a => if bool_decide (o = owner /\ id = assetId) then a else held
  | AssetsBatchUpdated _ _ => held
  end.

Definition replay (log : list event) (owner : address) (assetId : bytes32) : uint128 :=
  fold_left (replay_step owner assetId) log 0.

(** The pair ([owner], [assetId]) was never written in a history: none
    of its transactions that went through was sent by [owner] and named
    [assetId].  A transaction that reverted does not count. *)
Definition never_written (history : list tx) (owner : address) (assetId : bytes32) : Prop :=
  forall k t,
    history !! k = Some t ->
    fst (transact (body_of t) (run (take k history) deployed)) = Success ->
    ~ mentions t owner assetId.

Definition sender_of (t : tx) : address :=
  match t with
  | TxSet s _ _ => s
  | TxSetMany s _ _ => s
  end.

(** The single writes a batch amounts to, in order. *)
Fixpoint singles (sender : address) (assetIds : list bytes32) (amounts : list uint128)
    : list tx :=
  match assetIds, amounts with
  | id :: ids, a :: amts => TxSet sender id a :: singles sender ids amts
  | _, _ => []
  end.

End Ledger.

(* ===================================================================== *)
(** * Properties of the registry contract                                 *)
(* ===================================================================== *)

Section RegistryFacts.
Import Registry.

Lemma index_Some {A} (a : list A) i x w :
  a !! i = Some x -> index a i w = Done x w.
Proof. intros H. unfold index. now rewrite H. Qed.

(** The write loop, started at position [i] with the iterations that
    remain, performs the writes of the rest of the two arrays. *)
Lemma setMany_loop_spec sender ids amts :
  length ids = length amts ->
  forall todo i w,
    (i + todo)%nat = length ids ->
    setMany_loop sender ids amts todo i w =
    Done tt (World (written sender (drop i ids) (drop i amts) (slots w))
                   (logs w ++ updates sender (drop i ids) (drop i amts))).
Proof.
  intros Hlen todo. induction todo as [|todo IH]; intros i w Hi.
  - assert (i = length ids) as -> by lia.
    rewrite drop_all. rewrite Hlen at 1 2. rewrite drop_all. simpl.
    rewrite app_nil_r. unfold ret. now destruct w.
  - destruct (lookup_lt_is_Some_2 ids i) as [id Hid]; [lia|].
    destruct (lookup_lt_is_Some_2 amts i) as [a Ha]; [lia|].
    cbn [setMany_loop]. unfold bind at 1. rewrite (index_Some _ _ _ _ Hid).
    unfold bind at 1. rewrite (index_Some _ _ _ _ Ha).
    unfold bind at 1, sstore at 1.
    unfold bind at 1. rewrite (index_Some _ _ _ _ Hid).
    unfold bind at 1. rewrite (index_Some _ _ _ _ Ha).
    unfold bind at 1, emit at 1.
    rewrite IH by lia. cbn [slots logs].
    rewrite (drop_S _ _ _ Hid), (drop_S _ _ _ Ha). cbn [written updates].
    now rewrite <- app_assoc.
Qed.

Lemma setMany_ok sender ids amts w :
  length ids = length amts ->
  setMany sender ids amts w =
  Done tt (World (written sender ids amts (slots w))
                 (logs w ++ updates sender ids amts
                         ++ [AssetsBatchUpdated sender (length ids)])).
Proof.
  intros Hlen. unfold setMany, bind, require.
  rewrite (proj2 (Nat.eqb_eq _ _) Hlen).
  rewrite (setMany_loop_spec sender ids amts Hlen) by lia.
  unfold emit. cbn [slots logs]. rewrite !drop_0. now rewrite <- app_assoc.
Qed.

Lemma setMany_mismatch sender ids amts w :
  length ids <> length amts ->
  setMany sender ids amts w = Reverted (Error "Length mismatch") w.
Proof.
  intros Hlen. unfold setMany, bind, require.
  now rewrite (proj2 (Nat.eqb_neq _ _) Hlen).
Qed.

(** Reading a slot after a batch: the last amount the batch wrote for it,
    else what was there. *)
Lemma lookup_written sender ids : forall amts m owner id,
  length ids = length amts ->
  written sender ids amts m !! (owner, id) =
  if decide (owner = sender)
  then match last_written id ids amts with
       | Some v => Some v
       | None => m !! (owner, id)
       end
  else m !! (owner, id).
Proof.
  induction ids as [|x ids IH]; intros [|a amts] m owner id Hlen;
    try discriminate; cbn [written last_written].
  - now destruct (decide _).
  - rewrite IH by (simpl in Hlen; lia).
    destruct (decide (owner = sender)) as [->|Hne].
    + destruct (last_written id ids amts); [done|].
      destruct (decide (x = id)) as [->|Hx].
      * now rewrite lookup_insert_eq.
      * rewrite lookup_insert_ne; [done | congruence].
    + rewrite lookup_insert_ne; [done | congruence].
Qed.

Lemma last_written_None id ids : forall amts,
  id ∉ ids -> last_written id ids amts = None.
Proof.
  induction ids as [|x ids IH]; intros [|a amts] Hin; cbn; try done.
  rewrite IH by set_solver. destruct (decide (x = id)); [set_solver | done].
Qed.

Lemma last_written_NoDup ids : forall amts i id a,
  NoDup ids -> length ids = length amts ->
  ids !! i = Some id -> amts !! i = Some a ->
  last_written id ids amts = Some a.
Proof.
  induction ids as [|x ids IH]; intros [|b amts] i id a Hnd Hlen Hi Ha;
    try discriminate.
  apply NoDup_cons in Hnd as [Hx Hnd]. cbn [last_written].
  destruct i as [|i]; simpl in Hi, Ha.
  - injection Hi as ->. injection Ha as ->.
    rewrite last_written_None by done. now rewrite decide_True.
  - erewrite IH; eauto.
Qed.

(** The read loop, started at position [i], fills the rest of the result
    with the stored amounts and leaves the world as it is. *)
Lemma getMany_loop_spec owner ids : forall todo i acc w,
  (i + todo)%nat = length ids -> length acc = length ids ->
  getMany_loop owner ids todo i acc w =
  Done (take i acc ++ map (amountOf w owner) (drop i ids)) w.
Proof.
  induction todo as [|todo IH]; intros i acc w Hi Hacc.
  - assert (i = length ids) as -> by lia.
    rewrite drop_all, app_nil_r, <- Hacc, firstn_all. reflexivity.
  - destruct (lookup_lt_is_Some_2 ids i) as [id Hid]; [lia|].
    destruct (lookup_lt_is_Some_2 acc i) as [old Hold]; [lia|].
    cbn [getMany_loop]. unfold bind at 1. rewrite (index_Some _ _ _ _ Hid).
    unfold bind at 1, sload at 1.
    unfold bind at 1. rewrite (index_Some _ _ _ _ Hold).
    rewrite IH by (rewrite ?length_insert; lia).
    rewrite (drop_S _ _ _ Hid). cbn [map].
    rewrite (take_S_r _ _ (amountOf w owner id)).
    + rewrite take_insert_ge by lia. now rewrite <- app_assoc.
    + apply list_lookup_insert_eq. lia.
Qed.

Lemma getMany_ok owner ids w :
  getMany owner ids w = Done (map (amountOf w owner) ids) w.
Proof.
  unfold getMany. rewrite getMany_loop_spec by (rewrite ?length_replicate; lia).
  now rewrite take_0, drop_0.
Qed.

(** A transaction leaves every slot it does not mention as it was. *)
Lemma apply_tx_frame t w owner id :
  ~ mentions t owner id ->
  amountOf (apply_tx w t) owner id = amountOf w owner id.
Proof.
  intros Hm. unfold apply_tx, transact, amountOf.
  destruct t as [s x a | s ids amts]; cbn [body_of mentions] in *.
  - unfold set, bind, sstore, emit. cbn.
    rewrite lookup_insert_ne; [done | intros [= -> ->]; tauto].
  - destruct (decide (length ids = length amts)) as [Hlen|Hlen].
    + rewrite setMany_ok by done. cbn. rewrite lookup_written by done.
      destruct (decide (owner = s)) as [->|]; [|done].
      rewrite last_written_None; [done | tauto].
    + now rewrite setMany_mismatch.
Qed.

(** C1, as amended.  After a batch write of equal-length sequences by
    [sender], which always succeeds, a batch read of the same identifiers
    for [sender] succeeds and returns as many amounts as identifiers; each
    position holds the amount the batch wrote last for the identifier at
    that position, and when the identifiers are pairwise distinct the
    result is exactly the written amounts, in the same order. *)
Theorem setMany_then_getMany sender (ids : list bytes32) (amts : list uint128) w :
  length ids = length amts ->
  exists w' result,
    transact (setMany sender ids amts) w = (Success, w') /\
    call (getMany sender ids) w' = inr result /\
    length result = length ids /\
    (forall i id, ids !! i = Some id -> result !! i = last_written id ids amts) /\
    (NoDup ids -> result = amts).
Proof.
  intros Hlen. eexists _, _. unfold transact, call.
  rewrite setMany_ok by done. rewrite getMany_ok.
  split; [reflexivity|]. split; [reflexivity|].
  assert (forall i id, ids !! i = Some id ->
            map (amountOf (World (written sender ids amts (slots w))
                                 (logs w ++ updates sender ids amts
                                    ++ [AssetsBatchUpdated sender (length ids)])) sender) ids !! i
            = last_written id ids amts) as Hpos.
  { intros i id Hi. rewrite list_lookup_fmap, Hi. cbn. unfold amountOf. cbn.
    rewrite lookup_written by done. rewrite decide_True by done.
    destruct (lookup_lt_is_Some_2 amts i) as [a Ha];
      [rewrite <- Hlen; eauto using lookup_lt_Some|].
    destruct (last_written id ids amts) eqn:E; [done|].
    exfalso. clear -Hi Ha E Hlen. revert amts i Hi Ha E Hlen.
    induction ids as [|x ids IH]; intros [|b amts] i Hi Ha E Hlen; try done.
    cbn in E. destruct (last_written id ids amts) eqn:E'; [done|].
    destruct i as [|i]; simpl in Hi, Ha.
    - injection Hi as ->. now rewrite decide_True in E.
    - eapply IH; eauto. }
  split; [now rewrite length_map|]. split; [exact Hpos|].
  intros Hnd. apply list_eq. intros i.
  destruct (ids !! i) as [id|] eqn:Hi.
  - rewrite (Hpos i id Hi).
    destruct (lookup_lt_is_Some_2 amts i) as [a Ha];
      [rewrite <- Hlen; eauto using lookup_lt_Some|].
    rewrite Ha. eauto using last_written_NoDup.
  - rewrite list_lookup_fmap, Hi. cbn. symmetry. apply lookup_ge_None.
    rewrite <- Hlen. now apply lookup_ge_None.
Qed.

Lemma setMany_then_getMany_witness :
  exists w' result,
    transact (setMany 1 [11; 12] [500; 0]) deployed = (Success, w') /\
    call (getMany 1 [11; 12]) w' = inr result /\
    length result = 2%nat /\
    (forall i id, [11; 12] !! i = Some id -> result !! i = last_written id [11; 12] [500; 0]) /\
    (NoDup [11; 12] -> result = [500; 0]).
Proof. apply (setMany_then_getMany 1 [11; 12] [500; 0] deployed). reflexivity. Defined.

(** C1 as stated fails: a batch that names an identifier twice reads
    back the amount written last at both positions. *)
Lemma setMany_then_getMany_duplicates :
  ~ (forall sender (ids : list bytes32) (amts : list uint128) w,
       length ids = length amts ->
       call (getMany sender ids) (snd (transact (setMany sender ids amts) w)) = inr amts).
Proof.
  intros H. specialize (H 1 [7; 7] [1; 2] deployed eq_refl).
  vm_compute in H. discriminate H.
Qed.

(** C2.  A batch write whose two sequences differ in length reverts with
    "Length mismatch" before anything is written or emitted; the transaction
    fails and leaves the world, hence every stored amount of every owner,
    as it was. *)
Theorem setMany_length_mismatch sender (ids : list bytes32) (amts : list uint128) w :
  length ids <> length amts ->
  setMany sender ids amts w = Reverted (Error "Length mismatch") w /\
  transact (setMany sender ids amts) w = (Failed (Error "Length mismatch"), w) /\
  forall owner id,
    amountOf (snd (transact (setMany sender ids amts) w)) owner id = amountOf w owner id.
Proof.
  intros Hlen. unfold transact. rewrite setMany_mismatch by done. auto.
Qed.

Lemma setMany_length_mismatch_witness :
  let w := snd (transact (set 1 11 500) deployed) in
  setMany 1 [11; 12] [7] w = Reverted (Error "Length mismatch") w /\
  transact (setMany 1 [11; 12] [7]) w = (Failed (Error "Length mismatch"), w) /\
  forall owner id,
    amountOf (snd (transact (setMany 1 [11; 12] [7]) w)) owner id = amountOf w owner id.
Proof.
  apply (setMany_length_mismatch 1 [11; 12] [7]). simpl. lia.
Defined.

(** C10.  A successful [set] or [setMany] changes no stored amount other
    than the caller's amounts for the identifiers passed in the call: every
    pair with another owner, and every pair of the caller with an
    identifier that is not in the call, keeps its amount. *)
Theorem write_frame t w w' :
  transact (body_of t) w = (Success, w') ->
  forall owner id, ~ mentions t owner id -> amountOf w' owner id = amountOf w owner id.
Proof.
  intros Hok owner id Hm.
  rewrite <- (apply_tx_frame t w owner id Hm). unfold apply_tx. now rewrite Hok.
Qed.

Lemma write_frame_witness :
  let w := snd (transact (set 2 11 40) deployed) in
  let w' := snd (transact (setMany 1 [11; 12] [500; 7]) w) in
  amountOf w' 2 11 = 40 /\ amountOf w' 1 13 = 0.
Proof.
  intros w w'. split.
  - rewrite (write_frame (TxSetMany 1 [11; 12] [500; 7]) w w' eq_refl 2 11); [reflexivity|].
    cbn. lia.
  - rewrite (write_frame (TxSetMany 1 [11; 12] [500; 7]) w w' eq_refl 1 13); [reflexivity|].
    cbn. intros [_ Hin]. rewrite !elem_of_cons, elem_of_nil in Hin. lia.
Defined.

End RegistryFacts.

(* ===================================================================== *)
(** * Properties of the price polling effect                              *)
(* ===================================================================== *)

Section PollFacts.
Import Js View Poll.

Lemma dead_ignored s e : dead s e -> ignored s e = true.
Proof. intros (i & Hi & Hig). unfold ignored. now rewrite Hi. Qed.

Lemma unless_ignored_dead s e f : dead s e -> unless_ignored e f s = s.
Proof. intros H. unfold unless_ignored. now rewrite dead_ignored. Qed.

(** What the parts of [fetchPrices] leave alone. *)
Lemma instances_unless_ignored e f s :
  (forall s', instances (f s') = instances s') ->
  instances (unless_ignored e f s) = instances s.
Proof. intros Hf. unfold unless_ignored. destruct (ignored s e); auto. Qed.

Lemma instances_set_phase p ph s : instances (set_phase p ph s) = instances s.
Proof. unfold set_phase. now destruct (polls s !! p). Qed.

Lemma instances_catch p e err s : instances (fetchPrices_catch p e err s) = instances s.
Proof.
  unfold fetchPrices_catch. rewrite instances_set_phase.
  rewrite !instances_unless_ignored; auto.
Qed.

Lemma instances_apply p e d s : instances (fetchPrices_apply p e d s) = instances s.
Proof.
  destruct d as [type_error|data_prices]; cbn [fetchPrices_apply].
  { destruct (ignored s e); [|apply instances_catch].
    rewrite instances_set_phase. rewrite instances_unless_ignored; auto. }
  rewrite instances_set_phase.
  rewrite !instances_unless_ignored; auto.
Qed.

Lemma mounted_unless_ignored e f s :
  (forall s', mounted (f s') = mounted s') ->
  mounted (unless_ignored e f s) = mounted s.
Proof. intros Hf. unfold unless_ignored. destruct (ignored s e); auto. Qed.

Lemma mounted_set_phase p ph s : mounted (set_phase p ph s) = mounted s.
Proof. unfold set_phase. now destruct (polls s !! p). Qed.

(** A stale call changes nothing but its own phase. *)
Lemma catch_dead p e err s :
  dead s e -> fetchPrices_catch p e err s = set_phase p Over s.
Proof.
  intros H. unfold fetchPrices_catch. cbv zeta.
  rewrite (unless_ignored_dead s e _ H). now rewrite (unless_ignored_dead s e _ H).
Qed.

Lemma apply_dead p e d s :
  dead s e -> fetchPrices_apply p e d s = set_phase p Over s.
Proof.
  intros H. destruct d as [type_error|data_prices]; cbn [fetchPrices_apply].
  { destruct (ignored s e); [|now apply catch_dead].
    now rewrite (unless_ignored_dead s e _ H). }
  cbv zeta.
  rewrite (unless_ignored_dead s e _ H). now rewrite (unless_ignored_dead s e _ H).
Qed.

Lemma view_set_phase p ph s :
  prices (set_phase p ph s) = prices s /\
  loading (set_phase p ph s) = loading s /\
  error (set_phase p ph s) = error s.
Proof. unfold set_phase. now destruct (polls s !! p). Qed.

(** [cleanup] and [run_effect] on the list of runs. *)
Lemma instances_cleanup s i :
  instances s !! current s = Some i ->
  instances (cleanup s) =
  <[current s := {| captured_ids := captured_ids i; ignore := true;
                    interval_live := false |}]> (instances s).
Proof. intros H. unfold cleanup. now rewrite H. Qed.

Lemma instances_run_effect ids s :
  instances (run_effect ids s) =
  instances s ++ [{| captured_ids := ids; ignore := false; interval_live := true |}].
Proof. unfold run_effect. now destruct (0 <? String.length ids)%nat. Qed.

Lemma mounted_cleanup s : mounted (cleanup s) = mounted s.
Proof. unfold cleanup. now destruct (instances s !! current s). Qed.

Lemma mounted_run_effect ids s : mounted (run_effect ids s) = mounted s.
Proof. unfold run_effect. now destruct (0 <? String.length ids)%nat. Qed.

Lemma dead_cleanup s e : dead s e -> dead (cleanup s) e.
Proof.
  intros (i & Hi & Hig). unfold dead, cleanup.
  destruct (instances s !! current s) as [c|] eqn:Hc; [|eauto].
  cbn. destruct (decide (current s = e)) as [<-|Hne].
  - eexists. split; [apply list_lookup_insert_eq; eauto using lookup_lt_Some|done].
  - exists i. now rewrite list_lookup_insert_ne.
Qed.

(** After [cleanup], every run that was there is dead as soon as the
    earlier ones were. *)
Lemma cleanup_kills_current s i :
  instances s !! current s = Some i -> dead (cleanup s) (current s).
Proof.
  intros Hc. unfold dead. rewrite (instances_cleanup s i Hc).
  eexists. split; [apply list_lookup_insert_eq; eauto using lookup_lt_Some|done].
Qed.

Lemma dead_run_effect ids s e : dead s e -> dead (run_effect ids s) e.
Proof.
  intros (i & Hi & Hig). exists i. rewrite instances_run_effect.
  split; [|done]. apply lookup_app_l_Some. exact Hi.
Qed.

Lemma dead_same_instances s s' e :
  instances s' = instances s -> dead s e -> dead s' e.
Proof. unfold dead. now intros ->. Qed.

(** The [ignore] variable of a run is never set back to [false]. *)
Lemma dead_step s ev e : dead s e -> dead (step s ev) e.
Proof.
  intros H. destruct ev as [ids | | e' | p r | p r]; cbn [step].
  - destruct (instances s !! current s); [|done].
    destruct (mounted s && negb (String.eqb (captured_ids i) ids)); [|done].
    now apply dead_run_effect, dead_cleanup.
  - destruct (mounted s); [|done].
    apply (dead_same_instances (cleanup s)); [reflexivity|]. now apply dead_cleanup.
  - destruct (instances s !! e'); [|done].
    destruct (interval_live i && (0 <? String.length (captured_ids i))%nat); [|done].
    exact H.
  - destruct (polls s !! p) as [[e0 [| |]]|]; try done.
    destruct r as [status|err].
    + destruct (ok status).
      * eapply dead_same_instances; [apply instances_set_phase|done].
      * eapply dead_same_instances; [apply instances_catch|done].
    + eapply dead_same_instances; [apply instances_catch|done].
  - destruct (polls s !! p) as [[e0 [| |]]|]; try done.
    destruct r as [d|err].
    + eapply dead_same_instances; [apply instances_apply|done].
    + eapply dead_same_instances; [apply instances_catch|done].
Qed.

Lemma dead_run evs : forall s e, dead s e -> dead (run s evs) e.
Proof.
  induction evs as [|ev evs IH]; intros s e H; [done|].
  cbn. apply IH. now apply dead_step.
Qed.

Lemma starters_set_phase p ph s : starters (set_phase p ph s) = starters s.
Proof.
  unfold starters, set_phase. destruct (polls s !! p) as [q|] eqn:Hq; [|done].
  cbn. rewrite list_fmap_insert. cbn. apply list_insert_id.
  now rewrite list_lookup_fmap, Hq.
Qed.

Lemma polls_unless_ignored e f s :
  (forall s', polls (f s') = polls s') ->
  polls (unless_ignored e f s) = polls s.
Proof. intros Hf. unfold unless_ignored. destruct (ignored s e); auto. Qed.

Lemma starters_catch p e err s : starters (fetchPrices_catch p e err s) = starters s.
Proof.
  unfold fetchPrices_catch. cbv zeta. rewrite starters_set_phase. unfold starters.
  rewrite !polls_unless_ignored; auto.
Qed.

Lemma starters_apply p e d s : starters (fetchPrices_apply p e d s) = starters s.
Proof.
  destruct d as [type_error|data_prices]; cbn [fetchPrices_apply].
  { destruct (ignored s e); [|apply starters_catch].
    rewrite starters_set_phase. unfold starters. rewrite polls_unless_ignored; auto. }
  cbv zeta. rewrite starters_set_phase. unfold starters.
  rewrite !polls_unless_ignored; auto.
Qed.

Lemma starters_start e s : starters (fetchPrices_start e s) = starters s ++ [e].
Proof. unfold starters. cbn. now rewrite map_app. Qed.

Lemma starters_cleanup s : starters (cleanup s) = starters s.
Proof. unfold cleanup. now destruct (instances s !! current s). Qed.

Lemma starters_run_effect ids s :
  starters (run_effect ids s) = starters s
  \/ starters (run_effect ids s) = starters s ++ [length (instances s)].
Proof.
  unfold run_effect. destruct (0 <? String.length ids)%nat; [right | left; reflexivity].
  now rewrite starters_start.
Qed.

Lemma mounted_catch p e err s : mounted (fetchPrices_catch p e err s) = mounted s.
Proof.
  unfold fetchPrices_catch. rewrite mounted_set_phase.
  rewrite !mounted_unless_ignored; auto.
Qed.

Lemma mounted_apply p e d s : mounted (fetchPrices_apply p e d s) = mounted s.
Proof.
  destruct d as [type_error|data_prices]; cbn [fetchPrices_apply].
  { destruct (ignored s e); [|apply mounted_catch].
    rewrite mounted_set_phase. rewrite mounted_unless_ignored; auto. }
  rewrite mounted_set_phase.
  rewrite !mounted_unless_ignored; auto.
Qed.

(** Steps that change neither the runs nor the mounted flag, and only add
    calls that belong to a run, keep the invariant. *)
Lemma wf_same s s' extra :
  instances s' = instances s -> mounted s' = mounted s ->
  starters s' = starters s ++ extra ->
  Forall (fun e => (e < length (instances s))%nat) extra ->
  wf s -> wf s'.
Proof.
  intros Hi Hm Hs Hx [H1 H2 H3 H4]. split; rewrite ?Hi, ?Hs, ?Hm.
  - done.
  - intros e He. apply (dead_same_instances s); auto.
  - apply Forall_app; auto.
  - intros Hu e He. apply (dead_same_instances s); auto.
Qed.

Lemma length_instances_cleanup s : length (instances (cleanup s)) = length (instances s).
Proof.
  unfold cleanup. destruct (instances s !! current s); [|done].
  cbn. apply length_insert.
Qed.

(** After the cleanup of the current run every run is dead. *)
Lemma cleanup_all_dead s :
  wf s -> forall e, (e < length (instances s))%nat -> dead (cleanup s) e.
Proof.
  intros [H1 H2 _ _] e He.
  destruct (decide (S e < length (instances s))%nat) as [Hlt|Hge].
  - apply dead_cleanup. auto.
  - assert (e = current s) as -> by (unfold current; lia).
    destruct (lookup_lt_is_Some_2 (instances s) (current s)) as [i Hi]; [done|].
    eauto using cleanup_kills_current.
Qed.

Lemma wf_rerun ids s : wf s -> mounted s = true -> wf (run_effect ids (cleanup s)).
Proof.
  intros Hwf Hm. pose proof (cleanup_all_dead s Hwf) as Hdead.
  destruct Hwf as [H1 H2 H3 H4]. split.
  - rewrite instances_run_effect, length_app. cbn. lia.
  - rewrite instances_run_effect, length_app, length_instances_cleanup. cbn.
    intros e He. apply dead_run_effect, Hdead. lia.
  - rewrite instances_run_effect, length_app, length_instances_cleanup. cbn.
    destruct (starters_run_effect ids (cleanup s)) as [-> | ->];
      rewrite starters_cleanup, ?length_instances_cleanup.
    + eapply Forall_impl; [exact H3|]. cbn. intros; lia.
    + apply Forall_app. split; [|repeat constructor; lia].
      eapply Forall_impl; [exact H3|]. cbn. intros; lia.
  - rewrite mounted_run_effect, mounted_cleanup, Hm. discriminate.
Qed.

Lemma wf_step s ev : wf s -> wf (step s ev).
Proof.
  intros Hwf. destruct ev as [ids | | e' | p r | p r]; cbn [step].
  - destruct (instances s !! current s); [|done].
    destruct (mounted s) eqn:Hm; [|done]. cbn.
    destruct (negb (String.eqb (captured_ids i) ids)); [|done].
    now apply wf_rerun.
  - destruct (mounted s) eqn:Hm; [|done].
    pose proof (cleanup_all_dead s Hwf) as Hdead. destruct Hwf as [H1 H2 H3 H4].
    split; cbn; rewrite ?length_instances_cleanup.
    + exact H1.
    + intros e He. apply (dead_same_instances (cleanup s)); [done|]. apply Hdead. lia.
    + change (Forall (fun e => (e < length (instances s))%nat) (starters (cleanup s))).
      now rewrite starters_cleanup.
    + intros _ e He. apply (dead_same_instances (cleanup s)); [done|]. now apply Hdead.
  - destruct (instances s !! e') eqn:He'; [|done].
    destruct (interval_live i && (0 <? String.length (captured_ids i))%nat); [|done].
    apply (wf_same s _ [e']); auto using starters_start.
    repeat constructor. eauto using lookup_lt_Some.
  - destruct (polls s !! p) as [[e0 [| |]]|]; try done.
    destruct r as [status|err]; [destruct (ok status)|].
    + apply (wf_same s _ []); auto using instances_set_phase, mounted_set_phase.
      now rewrite starters_set_phase, app_nil_r.
    + apply (wf_same s _ []); auto using instances_catch, mounted_catch.
      now rewrite starters_catch, app_nil_r.
    + apply (wf_same s _ []); auto using instances_catch, mounted_catch.
      now rewrite starters_catch, app_nil_r.
  - destruct (polls s !! p) as [[e0 [| |]]|]; try done.
    destruct r as [d|err].
    + apply (wf_same s _ []); auto using instances_apply, mounted_apply.
      now rewrite starters_apply, app_nil_r.
    + apply (wf_same s _ []); auto using instances_catch, mounted_catch.
      now rewrite starters_catch, app_nil_r.
Qed.

Lemma wf_mount ids : wf (mount ids).
Proof.
  unfold mount. split.
  - rewrite instances_run_effect. cbn. lia.
  - rewrite instances_run_effect. cbn. intros e He. lia.
  - rewrite instances_run_effect. cbn.
    match goal with |- context [run_effect ids ?s0] =>
      destruct (starters_run_effect ids s0) as [-> | ->] end; cbn.
    + constructor.
    + repeat constructor.
  - rewrite mounted_run_effect. discriminate.
Qed.

Lemma wf_run evs : forall s, wf s -> wf (run s evs).
Proof.
  induction evs as [|ev evs IH]; intros s H; [done|].
  cbn. apply IH. now apply wf_step.
Qed.

(** Calls of [fetchPrices] keep their place and the run they belong to. *)
Lemma starters_step s ev : exists extra, starters (step s ev) = starters s ++ extra.
Proof.
  destruct ev as [ids | | e' | p r | p r]; cbn [step].
  - destruct (instances s !! current s); [|exists []; now rewrite app_nil_r].
    destruct (mounted s && negb (String.eqb (captured_ids i) ids));
      [|exists []; now rewrite app_nil_r].
    destruct (starters_run_effect ids (cleanup s)) as [-> | ->];
      rewrite starters_cleanup; [exists []; now rewrite app_nil_r | eauto].
  - destruct (mounted s); exists []; rewrite app_nil_r; [|done].
    change (starters (set_mounted false (cleanup s))) with (starters (cleanup s)).
    apply starters_cleanup.
  - destruct (instances s !! e'); [|exists []; now rewrite app_nil_r].
    destruct (interval_live i && (0 <? String.length (captured_ids i))%nat);
      [|exists []; now rewrite app_nil_r].
    rewrite starters_start. eauto.
  - exists []. rewrite app_nil_r.
    destruct (polls s !! p) as [[e0 [| |]]|]; try done.
    destruct r as [status|err]; [destruct (ok status)|];
      auto using starters_set_phase, starters_catch.
  - exists []. rewrite app_nil_r.
    destruct (polls s !! p) as [[e0 [| |]]|]; try done.
    destruct r as [d|err]; auto using starters_apply, starters_catch.
Qed.

Lemma starters_run evs : forall s, exists extra, starters (run s evs) = starters s ++ extra.
Proof.
  induction evs as [|ev evs IH]; intros s; [exists []; now rewrite app_nil_r|].
  change (run s (ev :: evs)) with (run (step s ev) evs).
  destruct (IH (step s ev)) as [x2 H2]. destruct (starters_step s ev) as [x1 H1].
  exists (x1 ++ x2). now rewrite H2, H1, app_assoc.
Qed.

(** The settling of a call whose run is dead shows nothing. *)
Lemma settle_dead s p e :
  starters s !! p = Some e -> dead s e ->
  forall rf rj,
    shown (step s (FetchSettles p rf)) = shown s /\
    shown (step s (JsonSettles p rj)) = shown s.
Proof.
  intros Hp Hdead rf rj. unfold starters in Hp. rewrite list_lookup_fmap in Hp.
  destruct (polls s !! p) as [[e0 ph]|] eqn:Hq; [|discriminate].
  cbn in Hp. injection Hp as ->.
  assert (forall ph', shown (set_phase p ph' s) = shown s) as Hph.
  { intros ph'. unfold shown. now destruct (view_set_phase p ph' s) as (-> & -> & ->). }
  split; cbn [step]; rewrite Hq.
  - destruct ph; try done. destruct rf as [status|err]; [destruct (ok status)|];
      rewrite ?catch_dead by done; apply Hph.
  - destruct ph; try done. destruct rj as [d|err];
      rewrite ?catch_dead, ?apply_dead by done; apply Hph.
Qed.

(** C9.  Take any history of the mounted component, a call [p] of
    [fetchPrices] made during it, and a render in which [ids] differs from
    the value the current effect run was started for.  From that render on,
    whatever happens in between, the settling of either await of [p], with
    any outcome, leaves the price mapping (and the loading and error
    indicators) exactly as it finds them. *)
Theorem stale_poll_not_applied ids0 evs1 ids' evs2 p q :
  let s1 := run (mount ids0) evs1 in
  polls s1 !! p = Some q ->
  current_ids s1 <> ids' ->
  let s2 := run (step s1 (Render ids')) evs2 in
  forall rf rj,
    shown (step s2 (FetchSettles p rf)) = shown s2 /\
    shown (step s2 (JsonSettles p rj)) = shown s2.
Proof.
  intros s1 Hq Hids s2.
  assert (wf s1) as Hwf by apply wf_run, wf_mount.
  assert (starters s1 !! p = Some (started_by q)) as Hp
    by (unfold starters; now rewrite list_lookup_fmap, Hq).
  assert (started_by q < length (instances s1))%nat as He.
  { destruct Hwf as [_ _ H3 _]. rewrite Forall_lookup in H3. eauto. }
  assert (dead (step s1 (Render ids')) (started_by q)) as Hdead.
  { cbn [step]. unfold current_ids in Hids.
    destruct (instances s1 !! current s1) as [i|] eqn:Hi.
    - destruct (mounted s1) eqn:Hm; cbn.
      + destruct (String.eqb_spec (captured_ids i) ids') as [Heq|Hne]; [contradiction|].
        cbn. apply dead_run_effect. now apply cleanup_all_dead.
      + now apply (wf_unmounted s1 Hwf).
    - apply lookup_ge_None in Hi. destruct Hwf as [H1 _ _ _]. unfold current in Hi. lia. }
  apply (settle_dead s2 p (started_by q)).
  - destruct (starters_run evs2 (step s1 (Render ids'))) as [x2 H2].
    destruct (starters_step s1 (Render ids')) as [x1 H1].
    fold s2 in H2. rewrite H2, H1.
    apply lookup_app_l_Some. now apply lookup_app_l_Some.
  - now apply dead_run.
Qed.

Lemma stale_poll_not_applied_witness :
  let a := {| id := "coingecko:bitcoin"; symbol := Some "BTC"%string;
              name := Some "Bitcoin"%string; amount := zero |} in
  let b := {| id := "coingecko:ethereum"; symbol := Some "ETH"%string;
              name := Some "Ethereum"%string; amount := zero |} in
  let for_a : PriceMap :=
    {[ id a := {| quote_symbol := Some (JStr "BTC"); price := Some (of_Z 1) |} ]} in
  let for_b : PriceMap :=
    {[ id b := {| quote_symbol := Some (JStr "ETH"); price := Some (of_Z 2) |} ]} in
  let s2 := run (step (run (mount (ids [a])) []) (Render (ids [b])))
                [FetchSettles 1 (Resolved 200); JsonSettles 1 (Resolved (Data (Some for_b)));
                 FetchSettles 0 (Resolved 200)] in
  prices s2 = for_b /\
  shown (step s2 (JsonSettles 0 (Resolved (Data (Some for_a))))) = shown s2.
Proof.
  intros a b for_a for_b s2. split; [vm_compute; reflexivity|].
  refine (proj2 (stale_poll_not_applied (ids [a]) [] (ids [b]) _ 0
                   {| started_by := 0; at_phase := AwaitFetch |} _ _
                   (Resolved 200) (Resolved (Data (Some for_a))))).
  - reflexivity.
  - vm_compute. discriminate.
Defined.

End PollFacts.

(* ===================================================================== *)
(** * Properties of the asset identifier                                  *)
(* ===================================================================== *)

Section AssetIdFacts.
Import Js AssetId.

Lemma chars_str l : chars (str l) = l.
Proof. apply list_ascii_of_string_of_list_ascii. Qed.

Lemma str_chars s : str (chars s) = s.
Proof. apply string_of_list_ascii_of_string. Qed.

Lemma length_str l : String.length (str l) = length l.
Proof. induction l as [|c l IH]; cbn; [done | now f_equal]. Qed.

Lemma fixed_width_0 radix width : 1 < radix ->
  fixed_width radix width 0 = replicate width "0"%char.
Proof.
  intros Hr. induction width as [|width IH]; [done|].
  cbn [fixed_width]. rewrite Z.div_0_l, Z.mod_0_l by lia. rewrite IH.
  change [digit_char 0] with (replicate 1 "0"%char).
  rewrite <- replicate_add. f_equal. lia.
Qed.

Lemma length_fixed_width radix width : forall n, length (fixed_width radix width n) = width.
Proof.
  induction width as [|width IH]; intros n; [done|].
  cbn [fixed_width]. rewrite length_app, IH. cbn. lia.
Qed.

(** The digit loop writes the shortest writing of [n]; padded with zeros
    on the left to any width that can hold [n], it is the fixed-width
    writing. *)
Lemma digits_aux_fixed radix : 1 < radix -> forall fuel n acc,
  0 <= n < radix ^ Z.of_nat fuel -> (1 <= fuel)%nat ->
  exists d, digits_aux radix fuel n acc = d ++ acc /\
    forall width, 0 <= n < radix ^ Z.of_nat width -> (1 <= width)%nat ->
      (length d <= width)%nat /\
      replicate (width - length d) "0"%char ++ d = fixed_width radix width n.
Proof.
  intros Hr. induction fuel as [|fuel IH]; intros n acc Hn Hf; [lia|].
  cbn [digits_aux]. destruct (Z.eqb_spec (n / radix) 0) as [Hq|Hq].
  - exists [digit_char (n mod radix)]. split; [done|].
    intros [|width] Hw Hw1; [lia|]. cbn [length fixed_width]. split; [lia|].
    rewrite Hq, fixed_width_0 by done.
    now replace (S width - 1)%nat with width by lia.
  - assert (radix <= n) as Hge.
    { destruct (Z.lt_ge_cases n radix) as [Hlt|]; [|done].
      rewrite Z.div_small in Hq by lia. done. }
    assert (forall k, n < radix ^ Z.of_nat (S k) -> n / radix < radix ^ Z.of_nat k) as Hdiv.
    { intros k Hk. apply Z.div_lt_upper_bound; [lia|].
      rewrite Nat2Z.inj_succ, Z.pow_succ_r in Hk by lia. exact Hk. }
    assert (forall k, n < radix ^ Z.of_nat (S k) -> (1 <= k)%nat) as Hk1.
    { intros [|k] Hk; [|lia]. cbn in Hk. rewrite Z.pow_1_r in Hk. lia. }
    destruct (IH (n / radix) (digit_char (n mod radix) :: acc)) as (d & Hd & Hfix).
    { split; [apply Z.div_pos; lia | apply Hdiv; lia]. }
    { apply Hk1. lia. }
    exists (d ++ [digit_char (n mod radix)]). split.
    { rewrite Hd. now rewrite <- app_assoc. }
    intros [|width] Hw Hw1; [lia|].
    destruct (Hfix width) as [Hlen Heq].
    { split; [apply Z.div_pos; lia | apply Hdiv; lia]. }
    { apply Hk1. lia. }
    rewrite length_app. cbn [length fixed_width]. split; [lia|].
    rewrite <- Heq, <- app_assoc.
    now replace (S width - (length d + 1))%nat with (width - length d)%nat by lia.
Qed.

Lemma digits_fixed radix n width :
  1 < radix -> 0 <= n < radix ^ Z.of_nat width -> (1 <= width)%nat ->
  (length (digits radix n) <= width)%nat /\
  replicate (width - length (digits radix n)) "0"%char ++ digits radix n
  = fixed_width radix width n.
Proof.
  intros Hr Hn Hw. unfold digits.
  destruct (digits_aux_fixed radix Hr (S (Z.to_nat (Z.log2 n))) n []) as (d & Hd & Hfix).
  - split; [lia|]. destruct (Z.eq_dec n 0) as [->|Hn0]; [apply Z.pow_pos_nonneg; lia|].
    rewrite Nat2Z.inj_succ, Z2Nat.id by apply Z.log2_nonneg.
    apply Z.lt_le_trans with (2 ^ Z.succ (Z.log2 n)).
    + apply Z.log2_spec. lia.
    + apply Z.pow_le_mono_l. lia.
  - lia.
  - rewrite Hd, app_nil_r. now apply Hfix.
Qed.

(** The identifiers of the two default holdings. *)
Example toAssetId_bitcoin :
  toAssetId "coingecko:bitcoin"
  = "0x00000000000000000000000000000000000000000000000000000000cafdf645"%string.
Proof. vm_compute. reflexivity. Qed.

Example toAssetId_ethereum :
  toAssetId "coingecko:ethereum"
  = "0x000000000000000000000000000000000000000000000000000000004ef2abe2"%string.
Proof. vm_compute. reflexivity. Qed.

End AssetIdFacts.

(* ===================================================================== *)
(** * Rounding: the binary64 division of two integers                     *)
(* ===================================================================== *)

Section RoundingFacts.
Import Rounding.

Lemma digits2_pos_bounds p :
  2 ^ (Zpos (digits2_pos p) - 1) <= Zpos p < 2 ^ Zpos (digits2_pos p).
Proof.
  induction p as [p IH|p IH|]; cbn [digits2_pos]; [| |cbn; lia].
  - rewrite Pos2Z.inj_succ.
    replace (Z.succ (Zpos (digits2_pos p)) - 1) with (Z.succ (Zpos (digits2_pos p) - 1)) by lia.
    rewrite !Z.pow_succ_r by lia. lia.
  - rewrite Pos2Z.inj_succ.
    replace (Z.succ (Zpos (digits2_pos p)) - 1) with (Z.succ (Zpos (digits2_pos p) - 1)) by lia.
    rewrite !Z.pow_succ_r by lia. lia.
Qed.

Lemma digits2_pos_unique p k :
  2 ^ (k - 1) <= Zpos p < 2 ^ k -> Zpos (digits2_pos p) = k.
Proof.
  intros [Hlo Hhi]. pose proof (digits2_pos_bounds p) as [Blo Bhi].
  set (d := Zpos (digits2_pos p)) in *.
  assert (0 < d) by (unfold d; lia).
  destruct (Z.lt_trichotomy d k) as [Hlt | [Heq | Hgt]]; [|exact Heq|].
  - assert (2 ^ d <= 2 ^ (k - 1)) by (apply Z.pow_le_mono_r; lia). lia.
  - assert (0 <= k).
    { destruct (Z.lt_ge_cases k 0) as [Hn|]; [|lia].
      rewrite (Z.pow_neg_r 2 k) in Hhi by lia. lia. }
    assert (2 ^ k <= 2 ^ (d - 1)) by (apply Z.pow_le_mono_r; lia). lia.
Qed.

Lemma loc_of_record_of_loc m l :
  shr_m (shr_record_of_loc m l) = m /\
  loc_of_shr_record (shr_record_of_loc m l) = l.
Proof. destruct l as [|[]]; split; reflexivity. Qed.

Lemma inbetween_bounds N D m l :
  0 < D -> inbetween N D m l -> m * D <= N < (m + 1) * D.
Proof. intros HD H. destruct l as [|[]]; unfold inbetween in H; nia. Qed.

Lemma shr_1_inbetween N D mrs :
  0 < D -> 0 <= shr_m mrs ->
  inbetween N D (shr_m mrs) (loc_of_shr_record mrs) ->
  inbetween N (D * 2) (shr_m (shr_1 mrs)) (loc_of_shr_record (shr_1 mrs)) /\
  0 <= shr_m (shr_1 mrs).
Proof.
  intros HD Hm H. destruct mrs as [m r s]. cbn [shr_m] in *.
  destruct m as [|[p|p|]|]; [| | | |lia];
    destruct r, s; cbn [shr_1 shr_m loc_of_shr_record inbetween orb] in *; lia.
Qed.

Lemma iter_shr_1_inbetween N p : forall D mrs,
  0 < D -> 0 <= shr_m mrs ->
  inbetween N D (shr_m mrs) (loc_of_shr_record mrs) ->
  inbetween N (D * 2 ^ Zpos p) (shr_m (SpecFloat.iter_pos shr_1 p mrs))
    (loc_of_shr_record (SpecFloat.iter_pos shr_1 p mrs)) /\
  0 <= shr_m (SpecFloat.iter_pos shr_1 p mrs).
Proof.
  induction p as [p IH|p IH|]; intros D mrs HD Hm H; cbn [SpecFloat.iter_pos].
  - destruct (shr_1_inbetween N D mrs HD Hm H) as [H1 Hm1].
    destruct (IH (D * 2) (shr_1 mrs)) as [H2 Hm2]; [lia | exact Hm1 | exact H1 |].
    assert (0 < 2 ^ Zpos p) by (apply Z.pow_pos_nonneg; lia).
    destruct (IH (D * 2 * 2 ^ Zpos p) (SpecFloat.iter_pos shr_1 p (shr_1 mrs))) as [H3 Hm3];
      [nia | exact Hm2 | exact H2 |].
    split; [|exact Hm3].
    replace (D * 2 ^ Zpos p~1) with (D * 2 * 2 ^ Zpos p * 2 ^ Zpos p); [exact H3|].
    assert (2 ^ Zpos p~1 = 2 * (2 ^ Zpos p * 2 ^ Zpos p)) as ->; [|ring].
    rewrite <- Z.pow_add_r, <- Z.pow_succ_r by lia. f_equal. lia.
  - assert (0 < 2 ^ Zpos p) by (apply Z.pow_pos_nonneg; lia).
    destruct (IH D mrs HD Hm H) as [H2 Hm2].
    destruct (IH (D * 2 ^ Zpos p) (SpecFloat.iter_pos shr_1 p mrs)) as [H3 Hm3];
      [nia | exact Hm2 | exact H2 |].
    split; [|exact Hm3].
    replace (D * 2 ^ Zpos p~0) with (D * 2 ^ Zpos p * 2 ^ Zpos p); [exact H3|].
    assert (2 ^ Zpos p~0 = 2 ^ Zpos p * 2 ^ Zpos p) as ->; [|ring].
    rewrite <- Z.pow_add_r by lia. f_equal. lia.
  - change (2 ^ 1) with 2. now apply shr_1_inbetween.
Qed.

(** Shifting a mantissa, with the location of the value it truncates,
    to [prec] bits. *)
Lemma shr_fexp_inbetween N D q e l :
  0 < D -> 2 ^ 52 <= q -> -1074 <= e ->
  inbetween N D q l ->
  exists mrs n,
    shr_fexp 53 1024 q e l = (mrs, e + n) /\ 0 <= n /\
    n = Zdigits2 q - 53 /\
    2 ^ 52 <= shr_m mrs < 2 ^ 53 /\
    inbetween N (D * 2 ^ n) (shr_m mrs) (loc_of_shr_record mrs).
Proof.
  intros HD Hq He H. destruct q as [|qp|qp]; [cbn in Hq; lia | | lia].
  pose proof (digits2_pos_bounds qp) as [Blo Bhi].
  unfold shr_fexp, fexp, emin. cbn [Zdigits2].
  set (dq := Zpos (digits2_pos qp)) in *.
  assert (53 <= dq) as Hdq.
  { destruct (Z.lt_ge_cases dq 53) as [Hlt|]; [|lia].
    assert (2 ^ dq <= 2 ^ 52) by (apply Z.pow_le_mono_r; lia). lia. }
  replace (Z.max (dq + e - 53) (3 - 1024 - 53) - e) with (dq - 53) by lia.
  destruct (loc_of_record_of_loc (Zpos qp) l) as [Em El].
  assert (exists mrs, shr (shr_record_of_loc (Zpos qp) l) e (dq - 53) = (mrs, e + (dq - 53)) /\
            0 <= shr_m mrs /\
            inbetween N (D * 2 ^ (dq - 53)) (shr_m mrs) (loc_of_shr_record mrs))
    as (mrs & Hshr & Hm & Hin).
  { unfold shr. destruct (dq - 53) as [|p|p] eqn:En; [| |lia].
    - eexists. split; [now rewrite Z.add_0_r|]. rewrite Em, El, Z.mul_1_r. split; [lia | exact H].
    - destruct (iter_shr_1_inbetween N p D (shr_record_of_loc (Zpos qp) l)) as [H1 H2];
        [exact HD | rewrite Em; lia | now rewrite Em, El |].
      eexists. split; [reflexivity|]. split; [exact H2 | exact H1]. }
  exists mrs, (dq - 53). split; [exact Hshr|]. split; [lia|]. split; [reflexivity|].
  split; [|exact Hin].
  set (t := 2 ^ (dq - 53)) in *.
  assert (0 < t) as Ht by (apply Z.pow_pos_nonneg; lia).
  assert (2 ^ dq = t * 2 ^ 53) as Ehi.
  { unfold t. rewrite <- Z.pow_add_r by lia. f_equal. lia. }
  assert (2 ^ (dq - 1) = t * 2 ^ 52) as Elo.
  { unfold t. rewrite <- Z.pow_add_r by lia. f_equal. lia. }
  pose proof (inbetween_bounds N D (Zpos qp) l HD H) as [Q1 Q2].
  assert (0 < D * t) as HDt by nia.
  pose proof (inbetween_bounds N (D * t) (shr_m mrs) _ HDt Hin) as [M1 M2].
  set (m1 := shr_m mrs) in *.
  assert (m1 * t < Zpos qp + 1) as A1.
  { apply (Zmult_lt_reg_r _ _ D); [lia|]. lia. }
  assert (Zpos qp < (m1 + 1) * t) as A2.
  { apply (Zmult_lt_reg_r _ _ D); [lia|]. lia. }
  split.
  - assert (2 ^ 52 * t < (m1 + 1) * t) as A3 by lia.
    apply Zmult_lt_reg_r in A3; lia.
  - assert (m1 * t < 2 ^ 53 * t) as A3 by lia.
    apply Zmult_lt_reg_r in A3; lia.
Qed.

Lemma round_nearest_even_nearest N D m l :
  0 < D -> inbetween N D m l ->
  nearest N D (round_nearest_even m l) /\
  m <= round_nearest_even m l <= m + 1.
Proof.
  intros HD H. unfold nearest. destruct l as [|[]]; cbn [inbetween round_nearest_even] in *.
  - split; [|lia]. subst N. rewrite Z.sub_diag. cbn. lia.
  - destruct (Z.even m) eqn:Ev.
    + split; [|lia]. split; [lia|]. intros _. exact Ev.
    + split; [|lia]. split; [lia|]. intros _.
      rewrite Z.even_add, Ev. reflexivity.
  - split; [|lia]. split; lia.
  - split; [|lia]. split; lia.
Qed.

Lemma binary_round_aux_nearest N D q e l :
  0 < D -> 2 ^ 52 <= q -> -1074 <= e -> Zdigits2 q - 53 + e < 971 ->
  inbetween N D q l ->
  exists m e',
    binary_round_aux 53 1024 false q e l = S754_finite false m e' /\
    2 ^ 52 <= Zpos m < 2 ^ 53 /\ e <= e' <= 971 /\
    e' - e <= Zdigits2 q - 52 /\
    nearest N (D * 2 ^ (e' - e)) (Zpos m).
Proof.
  intros HD Hq He Hmax H.
  destruct (shr_fexp_inbetween N D q e l HD Hq He H) as (mrs & n & E1 & Hn & En & Hm & Hin).
  unfold binary_round_aux. rewrite E1.
  assert (0 < D * 2 ^ n) as HD' by (assert (0 < 2 ^ n) by (apply Z.pow_pos_nonneg; lia); nia).
  destruct (round_nearest_even_nearest N (D * 2 ^ n) (shr_m mrs) _ HD' Hin) as [Hnear Hr].
  set (m2 := round_nearest_even (shr_m mrs) (loc_of_shr_record mrs)) in *.
  destruct m2 as [|p2|p2] eqn:Em2; [lia| |lia].
  destruct (Z.eq_dec (Zpos p2) (2 ^ 53)) as [Ecarry|Hno].
  - assert (p2 = 9007199254740992%positive) as ->
      by (apply Pos2Z.inj; rewrite Ecarry; reflexivity).
    exists (4503599627370496)%positive, (e + n + 1).
    split.
    { unfold shr_fexp, fexp, emin. cbn [Zdigits2].
      replace (Zpos (digits2_pos 9007199254740992)) with 54 by (vm_compute; reflexivity).
      replace (Z.max (54 + (e + n) - 53) (3 - 1024 - 53) - (e + n)) with 1 by lia.
      cbn [shr shr_record_of_loc SpecFloat.iter_pos shr_1 shr_m].
      replace (e + n + 1 <=? 1024 - 53) with true by (symmetry; apply Z.leb_le; lia).
      reflexivity. }
    split; [cbn; lia|]. split; [lia|]. split; [lia|].
    replace (e + n + 1 - e) with (n + 1) by lia.
    rewrite Z.pow_add_r, Z.pow_1_r by lia.
    destruct Hnear as [Hn1 Hn2]. unfold nearest.
    replace (4503599627370496 * (D * (2 ^ n * 2)))
      with (9007199254740992 * (D * 2 ^ n)) by ring.
    change (2 ^ 53) with 9007199254740992 in *.
    split; [lia|]. intros Htie. lia.
  - assert (Zpos (digits2_pos p2) = 53) as Ed by (apply digits2_pos_unique; lia).
    exists p2, (e + n). split.
    { unfold shr_fexp, fexp, emin. cbn [Zdigits2]. rewrite Ed.
      replace (Z.max (53 + (e + n) - 53) (3 - 1024 - 53) - (e + n)) with 0 by lia.
      cbn [shr shr_record_of_loc shr_m].
      replace (e + n <=? 1024 - 53) with true by (symmetry; apply Z.leb_le; lia).
      reflexivity. }
    split; [lia|]. split; [lia|]. split; [lia|].
    now replace (e + n - e) with n by lia.
Qed.

Lemma nearest_scale N D m c :
  0 < c -> nearest (N * c) (D * c) m -> nearest N D m.
Proof.
  intros Hc [H1 H2].
  assert (Z.abs (N * c - m * (D * c)) = Z.abs (N - m * D) * c) as E.
  { replace (N * c - m * (D * c)) with ((N - m * D) * c) by ring.
    rewrite Z.abs_mul, (Z.abs_eq c) by lia. reflexivity. }
  rewrite E in H1, H2. split.
  - apply (Zmult_le_reg_r _ _ c); lia.
  - intros Ht. apply H2. apply (f_equal (fun z => z * c)) in Ht. lia.
Qed.

Lemma nearest_scaled N D m c :
  0 < c -> nearest N D m -> nearest (N * c) (D * c) m.
Proof.
  intros Hc [H1 H2].
  assert (Z.abs (N * c - m * (D * c)) = Z.abs (N - m * D) * c) as E.
  { replace (N * c - m * (D * c)) with ((N - m * D) * c) by ring.
    rewrite Z.abs_mul, (Z.abs_eq c) by lia. reflexivity. }
  unfold nearest. rewrite E. split.
  - rewrite Z.mul_assoc. apply Z.mul_le_mono_nonneg_r; lia.
  - intros Ht. apply H2. apply (Z.mul_cancel_r _ _ c); lia.
Qed.

Lemma new_location_inbetween N b q r :
  0 < b -> N = b * q + r -> 0 <= r < b ->
  inbetween N b q (new_location b r).
Proof.
  intros Hb -> Hr. unfold new_location, new_location_even, new_location_odd.
  destruct (Z.even b) eqn:Ev.
  - destruct (Z.eqb_spec r 0) as [->|Hr0]; [cbn [inbetween]; ring|].
    destruct (Z.compare_spec (2 * r) b); cbn [inbetween]; lia.
  - destruct (Z.eqb_spec r 0) as [->|Hr0]; [cbn [inbetween]; ring|].
    assert (Z.odd b = true) as Hodd by (rewrite <- Z.negb_even, Ev; reflexivity).
    apply Z.odd_spec in Hodd as [k Hk].
    destruct (Z.compare_spec (2 * r + 1) b); cbn [inbetween]; lia.
Qed.

Lemma digits2_pos_le p k : Zpos p < 2 ^ k -> Zpos (digits2_pos p) <= k.
Proof.
  intros H. pose proof (digits2_pos_bounds p) as [Blo _].
  destruct (Z.le_gt_cases (Zpos (digits2_pos p)) k) as [|Hgt]; [done|].
  assert (0 <= k).
  { destruct (Z.lt_ge_cases k 0) as [Hn|]; [|lia].
    rewrite (Z.pow_neg_r 2 k) in H by lia. lia. }
  assert (2 ^ k <= 2 ^ (Zpos (digits2_pos p) - 1)) by (apply Z.pow_le_mono_r; lia). lia.
Qed.

(** The quotient of two positive integers, rounded to binary64. *)
Lemma SFdiv_nearest (a b : positive) :
  Zpos a < 2 ^ 1000 -> Zpos b < 2 ^ 1000 ->
  exists m e,
    SFdiv 53 1024 (S754_finite false a 0) (S754_finite false b 0) = S754_finite false m e /\
    2 ^ 52 <= Zpos m < 2 ^ 53 /\ -1074 <= e <= 971 /\
    nearest_quotient (Zpos a) (Zpos b) m e.
Proof.
  intros Ha Hb.
  pose proof (digits2_pos_bounds a) as [Alo Ahi].
  pose proof (digits2_pos_bounds b) as [Blo Bhi].
  pose proof (digits2_pos_le a 1000 Ha) as Hd1.
  pose proof (digits2_pos_le b 1000 Hb) as Hd2.
  unfold SFdiv, SFdiv_core_binary, fexp, emin. cbn [Zdigits2 xorb].
  set (d1 := Zpos (digits2_pos a)) in *. set (d2 := Zpos (digits2_pos b)) in *.
  assert (0 < d1 /\ 0 < d2) as [Hp1 Hp2] by (unfold d1, d2; lia).
  replace (Z.min (Z.max (d1 + 0 - (d2 + 0) - 53) (3 - 1024 - 53)) (0 - 0))
    with (Z.min (d1 - d2 - 53) 0) by lia.
  set (e' := Z.min (d1 - d2 - 53) 0).
  set (s := 0 - 0 - e').
  set (m' := match s with Zpos _ => Z.shiftl (Zpos a) s | 0 => Zpos a | Zneg _ => 0 end).
  assert (0 <= s) as Hs by (unfold s, e'; lia).
  assert (m' = Zpos a * 2 ^ s) as Em'.
  { unfold m'. destruct s as [|sp|sp] eqn:Es; [cbn; lia | | lia].
    rewrite Z.shiftl_mul_pow2 by lia. reflexivity. }
  clearbody m'. subst m'.
  pose proof (Z_div_mod (Zpos a * 2 ^ s) (Zpos b) ltac:(lia)) as Hdiv.
  destruct (Z.div_eucl (Zpos a * 2 ^ s) (Zpos b)) as [q r]. destruct Hdiv as [Eq Hr].
  assert (0 < 2 ^ s) as H2s by (apply Z.pow_pos_nonneg; lia).
  assert (2 ^ (d1 - 1) * 2 ^ s = 2 ^ 52 * 2 ^ (d1 - 1 + s - 52)) as Esplit.
  { rewrite <- !Z.pow_add_r by (unfold s, e'; lia). f_equal. lia. }
  assert (2 ^ d2 <= 2 ^ (d1 - 1 + s - 52)) as Hge
    by (apply Z.pow_le_mono_r; unfold s, e'; lia).
  assert (2 ^ 52 <= q) as Hq.
  { assert (2 ^ 52 * Zpos b < (q + 1) * Zpos b) as A; [|apply Zmult_lt_reg_r in A; lia].
    assert (2 ^ 52 * Zpos b < 2 ^ 52 * 2 ^ (d1 - 1 + s - 52)) by nia.
    assert (2 ^ (d1 - 1) * 2 ^ s <= Zpos a * 2 ^ s) by nia.
    lia. }
  assert (Zdigits2 q <= d1 + s) as Hdq.
  { destruct q as [|qp|qp]; [cbn; lia | | lia]. cbn [Zdigits2].
    apply digits2_pos_le. rewrite Z.pow_add_r by lia.
    assert (Zpos qp * 1 <= Zpos qp * Zpos b) by (apply Z.mul_le_mono_nonneg_l; lia).
    assert (Zpos a * 2 ^ s < 2 ^ d1 * 2 ^ s) by nia. lia. }
  destruct (binary_round_aux_nearest (Zpos a * 2 ^ s) (Zpos b) q e' (new_location (Zpos b) r))
    as (m & ef & E & Hm & He & _ & Hnear).
  - lia.
  - exact Hq.
  - unfold e'. lia.
  - unfold s, e' in *. lia.
  - apply new_location_inbetween; lia.
  - exists m, ef. split; [exact E|]. split; [exact Hm|]. split; [unfold e' in *; lia|].
    unfold nearest_quotient.
    destruct (Z.le_gt_cases ef 0) as [Hef|Hef].
    + rewrite Z.max_l, Z.max_r by lia. rewrite Z.mul_1_r.
      apply (nearest_scale _ _ _ (2 ^ (ef - e'))); [apply Z.pow_pos_nonneg; lia|].
      replace (Zpos a * 2 ^ (- ef) * 2 ^ (ef - e')) with (Zpos a * 2 ^ s); [exact Hnear|].
      assert (s = - ef + (ef - e')) as -> by (unfold s; lia).
      rewrite Z.pow_add_r by lia. ring.
    + rewrite Z.max_r, Z.max_l by lia. rewrite Z.mul_1_r.
      apply (nearest_scale _ _ _ (2 ^ s)); [exact H2s|].
      replace (Zpos b * 2 ^ ef * 2 ^ s) with (Zpos b * 2 ^ (ef - e')); [exact Hnear|].
      assert (ef - e' = ef + s) as -> by (unfold s; lia).
      rewrite Z.pow_add_r by lia. ring.
Qed.

End RoundingFacts.

(* ===================================================================== *)
(** * Decimal writing: [toString], [formatUnits] and [Number]             *)
(* ===================================================================== *)

Section DecimalFacts.
Import Js Viem.

Lemma digit_char_decimal v :
  0 <= v < 10 -> is_digit (digit_char v) = true /\ digit_value (digit_char v) = v.
Proof.
  intros Hv.
  assert (v = 0 \/ v = 1 \/ v = 2 \/ v = 3 \/ v = 4 \/ v = 5 \/ v = 6 \/ v = 7 \/ v = 8 \/ v = 9)
    as Hcases by lia.
  repeat (destruct Hcases as [-> | Hcases]; [split; reflexivity|]).
  subst v. split; reflexivity.
Qed.

(** The value of a digit sequence, read from any starting value. *)
Lemma decimal_value_from l : forall acc,
  fold_left (fun acc c => 10 * acc + digit_value c) l acc
  = acc * 10 ^ Z.of_nat (length l) + decimal_value l.
Proof.
  unfold decimal_value. induction l as [|c l IH]; intros acc; [cbn; lia|].
  cbn [fold_left length]. rewrite IH, (IH (10 * 0 + digit_value c)).
  rewrite Nat2Z.inj_succ, Z.pow_succ_r by lia. lia.
Qed.

Lemma decimal_value_nonneg l : all_digits l -> 0 <= decimal_value l.
Proof.
  intros Hl. unfold decimal_value.
  assert (forall acc, 0 <= acc ->
            0 <= fold_left (fun acc c => 10 * acc + digit_value c) l acc) as H; [|apply H; lia].
  induction Hl as [|c l Hc _ IH]; intros acc Hacc; [exact Hacc|].
  cbn [fold_left]. apply IH. unfold is_digit in Hc.
  apply andb_true_iff in Hc as [Hlo _]. apply N.leb_le in Hlo.
  unfold digit_value. lia.
Qed.

Lemma decimal_value_app a b :
  decimal_value (a ++ b) = decimal_value a * 10 ^ Z.of_nat (length b) + decimal_value b.
Proof. unfold decimal_value at 1. rewrite fold_left_app. apply decimal_value_from. Qed.

Lemma decimal_value_zeros k : decimal_value (replicate k "0"%char) = 0.
Proof.
  induction k as [|k IH]; [reflexivity|].
  change (replicate (S k) "0"%char) with (["0"%char] ++ replicate k "0"%char).
  rewrite decimal_value_app, IH. reflexivity.
Qed.

Lemma all_digits_zeros k : all_digits (replicate k "0"%char).
Proof. apply Forall_replicate. reflexivity. Qed.

Lemma fixed_width_decimal width : forall n,
  0 <= n ->
  all_digits (fixed_width 10 width n) /\
  decimal_value (fixed_width 10 width n) = n mod 10 ^ Z.of_nat width.
Proof.
  induction width as [|width IH]; intros n Hn.
  - split; [constructor|]. cbn. now rewrite Z.mod_1_r.
  - cbn [fixed_width]. destruct (IH (n / 10)) as [Hd Hv]; [apply Z.div_pos; lia|].
    destruct (digit_char_decimal (n mod 10)) as [Hc Hcv]; [apply Z.mod_pos_bound; lia|].
    split; [apply Forall_app; split; [exact Hd | repeat constructor; exact Hc]|].
    assert (n mod 10 ^ Z.of_nat (S width)
            = (n / 10) mod 10 ^ Z.of_nat width * 10 + n mod 10) as ->.
    { rewrite Nat2Z.inj_succ, Z.pow_succ_r by lia.
      rewrite Z.rem_mul_r by (try apply Z.pow_nonzero; lia). lia. }
    rewrite decimal_value_app, Hv. cbn [length]. unfold decimal_value at 1. cbn [fold_left].
    rewrite Hcv. change (10 ^ Z.of_nat 1) with 10. lia.
Qed.

Lemma digits_aux_nonempty radix fuel : forall n acc,
  acc <> [] -> digits_aux radix fuel n acc <> [].
Proof.
  induction fuel as [|fuel IH]; intros n acc Hacc; [exact Hacc|].
  cbn [digits_aux]. destruct (n / radix =? 0); [done|]. now apply IH.
Qed.

(** The digits [toString(10)] writes for a non-negative integer: at least
    one, all decimal, and worth the integer. *)
Lemma digits_decimal n :
  0 <= n ->
  digits 10 n <> [] /\ all_digits (digits 10 n) /\ decimal_value (digits 10 n) = n.
Proof.
  intros Hn.
  pose (width := S (Z.to_nat (Z.log2 n))).
  assert (0 <= n < 10 ^ Z.of_nat width) as Hw.
  { split; [lia|]. unfold width. destruct (Z.eq_dec n 0) as [->|Hn0]; [reflexivity|].
    rewrite Nat2Z.inj_succ, Z2Nat.id by apply Z.log2_nonneg.
    apply Z.lt_le_trans with (2 ^ Z.succ (Z.log2 n)).
    - apply Z.log2_spec. lia.
    - apply Z.pow_le_mono_l. lia. }
  destruct (digits_fixed 10 n width) as [Hlen Hfix]; [lia | exact Hw | unfold width; lia |].
  destruct (fixed_width_decimal width n Hn) as [Hd Hv].
  rewrite <- Hfix in Hd, Hv. apply Forall_app in Hd as [_ Hd].
  rewrite decimal_value_app, decimal_value_zeros in Hv.
  rewrite Z.mod_small in Hv by exact Hw.
  split; [|split; [exact Hd | lia]].
  unfold digits. cbn [digits_aux]. destruct (n / 10 =? 0); [done|].
  now apply digits_aux_nonempty.
Qed.

(** What [strip_trailing_zeros] removes is zeros at the end. *)
Lemma strip_trailing_zeros_spec l :
  exists z, l = strip_trailing_zeros l ++ replicate z "0"%char.
Proof.
  induction l as [|c l [z IH]]; [now exists 0%nat|].
  cbn [strip_trailing_zeros]. destruct (strip_trailing_zeros l) as [|k kept].
  - destruct (Ascii.eqb_spec c "0"%char) as [->|Hc].
    + exists (S z). now rewrite IH at 1.
    + exists z. now rewrite IH at 1.
  - exists z. now rewrite IH at 1.
Qed.

Lemma span_digits_end ds : all_digits ds -> span_digits ds = (ds, []).
Proof.
  induction 1 as [|c ds Hc _ IH]; [reflexivity|].
  cbn [span_digits]. now rewrite Hc, IH.
Qed.

Lemma span_digits_point ds rest :
  all_digits ds -> span_digits (ds ++ "."%char :: rest) = (ds, "."%char :: rest).
Proof.
  induction 1 as [|c ds Hc _ IH]; [reflexivity|].
  cbn [span_digits app]. now rewrite Hc, IH.
Qed.

Lemma chars_append a b : chars (String.append a b) = chars a ++ chars b.
Proof.
  unfold chars. induction a as [|c a IH]; [reflexivity|].
  simpl. now rewrite IH.
Qed.

Lemma append_empty_r s : String.append s "" = s.
Proof.
  induction s as [|c s IH]; [reflexivity|].
  change (String.append (String c s) "") with (String c (String.append s "")).
  now rewrite IH.
Qed.

Lemma str_eqb_empty l : String.eqb (str l) "" = match l with [] => true | _ => false end.
Proof. now destruct l. Qed.

Lemma all_digits_forallb l : all_digits l -> forallb is_digit l = true.
Proof. induction 1 as [|c l Hc _ IH]; [reflexivity|]. cbn. now rewrite Hc, IH. Qed.

(** A digit sequence does not start with a minus sign. *)
Lemma all_digits_unsigned l : all_digits l -> starts_with_minus l = false.
Proof.
  intros H. destruct l as [|c l]; [done|]. apply Forall_cons in H as [Hc _].
  cbn. destruct (Ascii.eqb_spec c "-"%char) as [->|]; [discriminate Hc | done].
Qed.

(** [Number] of a written decimal. *)
Lemma Number_of_digits ds :
  all_digits ds -> ds <> [] ->
  Number_of_string (str ds) = of_decimal false (decimal_value ds) 0.
Proof.
  intros Hd Hne. unfold Number_of_string. rewrite chars_str. cbv zeta.
  rewrite (all_digits_unsigned ds Hd), (span_digits_end ds Hd).
  now destruct ds.
Qed.

Lemma Number_of_digits_point ds frac :
  all_digits ds -> ds <> [] -> all_digits frac ->
  Number_of_string (str (ds ++ "."%char :: frac))
  = of_decimal false (decimal_value (ds ++ frac)) (length frac).
Proof.
  intros Hd Hne Hf. unfold Number_of_string. rewrite chars_str. cbv zeta.
  assert (starts_with_minus (ds ++ "."%char :: frac) = false) as ->.
  { pose proof (all_digits_unsigned ds Hd). now destruct ds. }
  rewrite (span_digits_point ds frac Hd).
  destruct ds; [done|]. cbn. now rewrite (all_digits_forallb frac Hf).
Qed.

(** Two roundings checked against the binary64 values: 0.1, and the
    largest [uint128] scaled by [10^18]. *)
Example of_decimal_tenth :
  of_decimal false 1 1 = S754_finite false 7205759403792794 (-56).
Proof. vm_compute. reflexivity. Qed.

Example of_decimal_max_uint128 :
  Number_of_string (formatUnits (2 ^ 128 - 1) 18) = S754_finite false 5192296858534828 16.
Proof. vm_compute. reflexivity. Qed.

(** The conversion of a stored amount: [Number(formatUnits(x, decimals))]
    is the number nearest to a decimal [n / 10^k] that equals
    [x / 10^decimals]. *)
Lemma Number_formatUnits x decimals :
  0 <= x ->
  exists n k,
    Number_of_string (formatUnits x decimals) = of_decimal false n k /\
    0 <= n /\ (k <= decimals)%nat /\
    n * 10 ^ Z.of_nat decimals = x * 10 ^ Z.of_nat k.
Proof.
  intros Hx. destruct (digits_decimal x Hx) as (Hne & Hd & Hv).
  unfold formatUnits. cbv zeta. unfold toString.
  destruct (Z.ltb_spec x 0) as [|_]; [lia|].
  rewrite chars_str.
  rewrite (all_digits_unsigned _ Hd).
  unfold padStart, slice_to, slice_from. rewrite !chars_str.
  set (padded := replicate (decimals - length (digits 10 x)) "0"%char ++ digits 10 x).
  set (cut := (length padded - decimals)%nat).
  assert (all_digits padded) as Hpd by (apply Forall_app; split; [apply all_digits_zeros | exact Hd]).
  assert (decimal_value padded = x) as Hpv.
  { unfold padded. rewrite decimal_value_app, decimal_value_zeros. lia. }
  assert (length (drop cut padded) = decimals) as Hlen.
  { rewrite length_drop. unfold cut, padded.
    rewrite length_app, length_replicate. lia. }
  destruct (strip_trailing_zeros_spec (drop cut padded)) as [z Hz].
  set (frac := strip_trailing_zeros (drop cut padded)) in *.
  assert (all_digits (take cut padded)) as Hint by now apply Forall_take.
  assert (all_digits frac) as Hfrac.
  { assert (all_digits (drop cut padded)) as H by now apply Forall_drop.
    rewrite Hz in H. now apply Forall_app in H as [H _]. }
  pose proof (f_equal decimal_value Hz) as Hzv.
  rewrite decimal_value_app, decimal_value_zeros, length_replicate in Hzv.
  pose proof (f_equal length Hz) as Hfz.
  rewrite length_app, length_replicate, Hlen in Hfz.
  assert (decimal_value (take cut padded) * 10 ^ Z.of_nat decimals
          + decimal_value frac * 10 ^ Z.of_nat z = x) as Hsplit.
  { pose proof (f_equal decimal_value (take_drop cut padded)) as Htd.
    rewrite decimal_value_app, Hlen, Hpv in Htd. lia. }
  set (int := if String.eqb (str (take cut padded)) "" then "0"%string
              else str (take cut padded)).
  assert (exists ds, int = str ds /\ ds <> [] /\ all_digits ds /\
                     decimal_value ds = decimal_value (take cut padded))
    as (ds & -> & Hds & Hdd & Hdv).
  { unfold int. rewrite str_eqb_empty. destruct (take cut padded) as [|c l] eqn:E.
    - exists ["0"%char]. repeat split; [done | repeat constructor].
    - exists (c :: l). repeat split; [done | exact Hint]. }
  change (String.append "" ?s) with s.
  rewrite str_eqb_empty. destruct frac as [|f frac'] eqn:Efrac.
  - exists (decimal_value ds), 0%nat.
    rewrite append_empty_r.
    split; [now apply Number_of_digits|].
    split; [now apply decimal_value_nonneg|]. split; [lia|].
    rewrite Hdv. unfold decimal_value at 2 in Hsplit. cbn [fold_left] in Hsplit.
    change (Z.of_nat 0) with 0. lia.
  - exists (decimal_value (ds ++ f :: frac')), (length (f :: frac')).
    assert (String.append (str ds) (String.append "." (str (f :: frac')))
            = str (ds ++ "."%char :: f :: frac')) as ->.
    { rewrite <- (str_chars (String.append _ _)). now rewrite !chars_append, !chars_str. }
    split; [now apply Number_of_digits_point|].
    split; [apply decimal_value_nonneg, Forall_app; now split|].
    split; [cbn [length] in Hfz |- *; lia|].
    rewrite decimal_value_app, Hdv.
    rewrite <- Hsplit, Hfz. rewrite Nat2Z.inj_add, Z.pow_add_r by lia. cbn [length]. lia.
Qed.

(** A decimal [n / 10^k] with at most 18 decimals reads as the binary64
    number nearest to it. *)
Lemma of_decimal_nearest n k :
  0 < n < 2 ^ 1000 -> (k <= 18)%nat ->
  exists m e,
    of_decimal false n k = S754_finite false m e /\
    2 ^ 52 <= Zpos m < 2 ^ 53 /\ -1074 <= e <= 971 /\
    Rounding.nearest_quotient n (10 ^ Z.of_nat k) m e.
Proof.
  intros Hn Hk. destruct n as [|a|a]; [lia | | lia]. unfold of_decimal.
  assert (0 < 10 ^ Z.of_nat k) as Hpos by (apply Z.pow_pos_nonneg; lia).
  assert (10 ^ Z.of_nat k <= 10 ^ 18) as Hle by (apply Z.pow_le_mono_r; lia).
  assert (10 ^ 18 < 2 ^ 1000) as Hbig by (apply Z.ltb_lt; vm_compute; reflexivity).
  destruct (SFdiv_nearest a (Z.to_pos (10 ^ Z.of_nat k))) as (m & e & E & Hm & He & Hnear).
  - lia.
  - rewrite Z2Pos.id by lia. lia.
  - exists m, e. rewrite Z2Pos.id in Hnear by lia. auto.
Qed.

End DecimalFacts.

(* ===================================================================== *)
(** * The joined identifier string                                        *)
(* ===================================================================== *)

Section IdsFacts.
Import Js View.

Lemma split_chars_free a : ","%char ∉ a -> split_chars "," a = [a].
Proof.
  induction a as [|c a IH]; intros Hfree; [reflexivity|].
  apply not_elem_of_cons in Hfree as [Hc Hfree]. cbn [split_chars].
  destruct (Ascii.eqb_spec c ","%char) as [->|_]; [done|]. now rewrite IH.
Qed.

Lemma split_chars_piece a rest :
  ","%char ∉ a -> split_chars "," (a ++ ","%char :: rest) = a :: split_chars "," rest.
Proof.
  induction a as [|c a IH]; intros Hfree; [reflexivity|].
  apply not_elem_of_cons in Hfree as [Hc Hfree]. cbn [split_chars app].
  destruct (Ascii.eqb_spec c ","%char) as [->|_]; [done|]. now rewrite IH.
Qed.

Lemma chars_join_cons x y l :
  chars (join "," (x :: y :: l)) = chars x ++ ","%char :: chars (join "," (y :: l)).
Proof. cbn [join]. now rewrite !chars_append. Qed.

(** Splitting a joined list of comma-free strings gives the list back. *)
Lemma split_join l :
  Forall (fun s => ","%char ∉ chars s) l -> l <> [] -> split "," (join "," l) = l.
Proof.
  intros Hl Hne. unfold split. induction Hl as [|x l Hx Hl IH]; [done|].
  destruct l as [|y l].
  - cbn [join]. rewrite split_chars_free by done. cbn. now rewrite str_chars.
  - rewrite chars_join_cons, split_chars_piece by done.
    cbn [map]. rewrite str_chars. f_equal. now apply IH.
Qed.

Lemma join_empty l : Forall plain l -> join "," l = EmptyString -> l = [].
Proof.
  intros Hl Hj. destruct l as [|x l]; [done|]. exfalso.
  apply Forall_cons in Hl as [[Hx _] _]. apply Hx.
  destruct l as [|y l]; cbn [join] in Hj.
  - now rewrite Hj.
  - apply (f_equal chars) in Hj. rewrite chars_append in Hj.
    now destruct (chars x).
Qed.

(** Two lists of plain identifiers that join to the same string are the
    same list: the string [ids] changes whenever the identifiers of the
    holdings do. *)
Lemma join_injective l1 l2 :
  Forall plain l1 -> Forall plain l2 -> join "," l1 = join "," l2 -> l1 = l2.
Proof.
  intros H1 H2 Hj.
  destruct l1 as [|x1 l1]; [symmetry; apply join_empty; [done | now rewrite <- Hj]|].
  destruct l2 as [|x2 l2]; [apply join_empty; [done | now rewrite Hj]|].
  rewrite <- (split_join (x1 :: l1)), <- (split_join (x2 :: l2)); try done.
  - now rewrite Hj.
  - eapply Forall_impl; [exact H2|]. now intros s [_ Hs].
  - eapply Forall_impl; [exact H1|]. now intros s [_ Hs].
Qed.

Lemma ids_injective (before after : list Holding) :
  Forall (fun h => plain (id h)) before -> Forall (fun h => plain (id h)) after ->
  map id before <> map id after -> ids before <> ids after.
Proof.
  intros Hb Ha Hne Heq. apply Hne. unfold ids in Heq.
  apply join_injective; [| |exact Heq]; now apply Forall_fmap.
Qed.

End IdsFacts.

(* ===================================================================== *)
(** * Properties of valuation and reconciliation                          *)
(* ===================================================================== *)

Section ViewFacts.
Import Js View.

Lemma totalUsd_snoc holdings h prices :
  totalUsd (holdings ++ [h]) prices = add (totalUsd holdings prices) (value prices h).
Proof. unfold totalUsd. now rewrite fold_left_app. Qed.

(** Zero times a finite number is a zero. *)
Lemma mul_zero_finite p : isFinite p = true -> is_zero (mul zero p) = true.
Proof. now destruct p. Qed.

Lemma updateAmount_row index x holdings h :
  holdings !! index = Some h ->
  updateAmount index x holdings
  = Some (<[index := with_amount h (if isFinite x then x else zero)]> holdings).
Proof. intros H. unfold updateAmount. now rewrite H. Qed.

Lemma reconcile_lookup amounts prev i h :
  prev !! i = Some h ->
  reconcile (Some amounts) prev !! i
  = Some (with_amount h (display_amount (default 0 (amounts !! i)))).
Proof. intros H. unfold reconcile. now rewrite list_lookup_imap, H. Qed.

(** The conversion of a stored amount, [Number(formatUnits(x, 18))], is
    the binary64 number nearest to [x / 10^18]. *)
Lemma display_amount_nearest x :
  0 < x < 2 ^ 128 ->
  exists m e,
    display_amount x = S754_finite false m e /\
    2 ^ 52 <= Zpos m < 2 ^ 53 /\ -1074 <= e <= 971 /\
    Rounding.nearest_quotient x (10 ^ 18) m e.
Proof.
  intros Hx. unfold display_amount.
  destruct (Number_formatUnits x 18) as (n & k & -> & Hn & Hk & Heq); [lia|].
  assert (0 < 10 ^ Z.of_nat k) as Hpos by (apply Z.pow_pos_nonneg; lia).
  assert (10 ^ 18 = 10 ^ Z.of_nat k * 10 ^ (18 - Z.of_nat k)) as Hsplit.
  { rewrite <- Z.pow_add_r by lia. f_equal. lia. }
  set (c := 10 ^ (18 - Z.of_nat k)) in *.
  assert (0 < c) as Hc by (apply Z.pow_pos_nonneg; lia).
  change (10 ^ Z.of_nat 18) with (10 ^ 18) in Heq.
  assert (x = n * c) as Hxn.
  { apply (Z.mul_cancel_r _ _ (10 ^ Z.of_nat k)); [lia|]. rewrite <- Heq, Hsplit. ring. }
  assert (0 < n) as Hn0 by nia.
  assert (n <= x) as Hle by nia.
  assert (2 ^ 128 < 2 ^ 1000) as Hbig by (apply Z.pow_lt_mono_r; lia).
  destruct (of_decimal_nearest n k) as (m & e & E & Hm & He & Hnear); [lia | exact Hk |].
  exists m, e. split; [exact E|]. split; [exact Hm|]. split; [exact He|].
  unfold Rounding.nearest_quotient in *. rewrite Hxn, Hsplit.
  apply (nearest_scaled _ _ _ c Hc) in Hnear.
  replace (n * c * 2 ^ Z.max (- e) 0) with (n * 2 ^ Z.max (- e) 0 * c) by ring.
  replace (10 ^ Z.of_nat k * c * 2 ^ Z.max e 0)
    with (10 ^ Z.of_nat k * 2 ^ Z.max e 0 * c) by ring.
  exact Hnear.
Qed.

(** C7.  When a load has produced amounts, every holding keeps its place,
    identifier, symbol and name, and its amount becomes the conversion of
    the stored amount at the same position, [Number(formatUnits(x, 18))].
    That conversion is zero for a stored zero and, for any other stored
    [uint128], the binary64 number nearest to [x / 10^18]: a mantissa [m]
    of 53 bits and an exponent [e] such that no multiple of [2^e] is closer
    to [x / 10^18] than [m * 2^e], [m] being even when two are equally
    close.  A holding past the end of the result gets zero.  A stored
    500000000000000000 becomes one half.  While the load has no data the
    holdings are left alone. *)
Theorem reconcile_positions (amounts : list Z) (prev : list Holding) :
  length (reconcile (Some amounts) prev) = length prev /\
  (forall i h x,
     prev !! i = Some h -> amounts !! i = Some x ->
     exists h', reconcile (Some amounts) prev !! i = Some h' /\
       amount h' = display_amount x /\
       id h' = id h /\ symbol h' = symbol h /\ name h' = name h) /\
  (forall i h,
     prev !! i = Some h -> amounts !! i = None ->
     reconcile (Some amounts) prev !! i = Some (with_amount h zero)) /\
  display_amount 0 = zero /\
  (forall x, 0 < x < 2 ^ 128 ->
     exists m e,
       display_amount x = S754_finite false m e /\
       2 ^ 52 <= Zpos m < 2 ^ 53 /\ -1074 <= e <= 971 /\
       Rounding.nearest_quotient x (10 ^ 18) m e) /\
  display_amount 500000000000000000 = half /\
  reconcile None prev = prev.
Proof.
  split; [unfold reconcile; apply length_imap|]. split.
  - intros i h x Hh Hx. eexists. split; [exact (reconcile_lookup _ _ _ _ Hh)|].
    rewrite Hx. done.
  - split.
    + intros i h Hh Hx. rewrite (reconcile_lookup _ _ _ _ Hh). now rewrite Hx.
    + split; [vm_compute; reflexivity|].
      split; [exact display_amount_nearest|].
      split; [vm_compute; reflexivity | reflexivity].
Qed.

Lemma reconcile_positions_witness :
  let h := {| id := "coingecko:bitcoin"; symbol := Some "BTC"%string;
              name := Some "Bitcoin"%string; amount := zero |} in
  (exists h', reconcile (Some [500000000000000000]) [h] !! 0%nat = Some h' /\
     amount h' = half /\ id h' = id h /\ symbol h' = symbol h /\ name h' = name h) /\
  exists m e,
    display_amount 1 = S754_finite false m e /\
    2 ^ 52 <= Zpos m < 2 ^ 53 /\ -1074 <= e <= 971 /\
    Rounding.nearest_quotient 1 (10 ^ 18) m e.
Proof.
  intros h. split.
  - destruct (proj1 (proj2 (reconcile_positions [500000000000000000] [h]))
                0%nat h 500000000000000000 eq_refl eq_refl) as (h' & Hh' & Ha & Hrest).
    exists h'. split; [exact Hh'|]. split; [|exact Hrest].
    rewrite Ha. exact (proj1 (proj2 (proj2 (proj2 (proj2 (proj2 (reconcile_positions [] []))))))).
  - apply (proj1 (proj2 (proj2 (proj2 (proj2 (reconcile_positions [] []))))) 1). lia.
Defined.

End ViewFacts.

(* ===================================================================== *)
(** * Properties of the price proxy                                       *)
(* ===================================================================== *)

Section PriceProxyFacts.
Import Js PriceProxy.

(** ** Which values [Number] converts *)

(** Induction on a JSON value, through the elements of its arrays. *)
Lemma json_array_ind (P : json -> Prop) :
  P JNull -> (forall b, P (JBool b)) -> (forall n, P (JNum n)) -> (forall s, P (JStr s)) ->
  (forall items, Forall P items -> P (JArr items)) ->
  (forall fields, P (JObj fields)) ->
  forall v, P v.
Proof.
  intros HNull HBool HNum HStr HArr HObj.
  refine (fix IH (v : json) : P v :=
            match v with
            | JNull => HNull
            | JBool b => HBool b
            | JNum n => HNum n
            | JStr s => HStr s
            | JArr items =>
                HArr items
                  ((fix go (l : list json) : Forall P l :=
                      match l with
                      | [] => @List.Forall_nil _ P
                      | x :: l' => @List.Forall_cons _ P x l' (IH x) (go l')
                      end) items)
            | JObj fields => HObj fields
            end).
Qed.

Lemma ToString_outcome rt v :
  if unconvertible v
  then ToString rt v = Rejected (ThrownError (TypeError_message rt))
  else exists s, ToString rt v = Resolved s.
Proof.
  induction v as [|[]| | |items IH|fields] using json_array_ind;
    try (cbn; eauto; fail).
  - cbn [unconvertible ToString].
    induction IH as [|x l Hx _ IHl]; [cbn; eauto|].
    cbn [existsb List.map].
    destruct (unconvertible x) eqn:Ex; cbn [orb].
    + assert (match x with JNull => Resolved EmptyString | _ => ToString rt x end
              = Rejected (ThrownError (TypeError_message rt))) as ->
        by (destruct x; try discriminate Ex; exact Hx).
      reflexivity.
    + assert (exists s, match x with JNull => Resolved EmptyString | _ => ToString rt x end
                        = Resolved s) as [s ->]
        by (destruct x; eauto).
      cbn [join_pieces]. destruct l as [|y l]; [cbn; eauto|].
      change (List.map ?f (y :: l)) with (f y :: List.map f l) in *.
      cbv beta in *. destruct (existsb unconvertible (y :: l)).
      * now rewrite IHl.
      * destruct IHl as [t ->]. eauto.
  - cbn [unconvertible ToString]. destruct (bool_decide _); eauto.
Qed.

Lemma Number_outcome rt v :
  if unconvertible v
  then Number rt v = Rejected (ThrownError (TypeError_message rt))
  else exists n, Number rt v = Resolved n.
Proof.
  pose proof (ToString_outcome rt v) as H.
  destruct v as [|[]| | |items|fields]; try (cbn; eauto; fail);
    unfold Number; destruct (unconvertible _);
    try (now rewrite H); destruct H as [s ->]; eauto.
Qed.

(** A record whose price cannot be converted gives no entry but the
    TypeError; any other record gives its entry. *)
Lemma quote_of_outcome rt rec :
  if unconvertible (or_zero (prop rec "price"))
  then quote_of rt rec = Rejected (ThrownError (TypeError_message rt))
  else exists n, Number rt (or_zero (prop rec "price")) = Resolved n /\
                 quote_of rt rec = Resolved {| symbol := prop rec "symbol"; price := n |}.
Proof.
  pose proof (Number_outcome rt (or_zero (prop rec "price"))) as H. unfold quote_of.
  destruct (unconvertible _); [now rewrite H|]. destruct H as [n ->]. eauto.
Qed.

(** ** The loop over the entries *)

Lemma fold_normalize_rejected rt l e :
  fold_left (normalize_step rt) l (Rejected e) = Rejected e.
Proof. induction l as [|x l IH]; [reflexivity | exact IH]. Qed.

Lemma fold_normalize_cons rt k rec l m :
  fold_left (normalize_step rt) ((k, rec) :: l) (Resolved m)
  = match quote_of rt rec with
    | Resolved q => fold_left (normalize_step rt) l (Resolved (assign k q m))
    | Rejected e => Rejected e
    end.
Proof.
  cbn [fold_left]. unfold normalize_step at 2. cbn [fst snd].
  destruct (quote_of rt rec); [reflexivity | apply fold_normalize_rejected].
Qed.

(** When the loop completes, every entry could be built. *)
Lemma fold_normalize_all rt l : forall m m',
  fold_left (normalize_step rt) l (Resolved m) = Resolved m' ->
  forall k rec, (k, rec) ∈ l -> exists q, quote_of rt rec = Resolved q.
Proof.
  induction l as [|[k0 v0] l IH]; intros m m' H k rec Hin; [inversion Hin|].
  rewrite fold_normalize_cons in H.
  destruct (quote_of rt v0) as [q0|e0] eqn:E0; [|discriminate H].
  apply elem_of_cons in Hin as [[= -> ->]|Hin]; eauto.
Qed.

(** When every entry can be built, the loop completes. *)
Lemma fold_normalize_total rt l :
  (forall k rec, (k, rec) ∈ l -> exists q, quote_of rt rec = Resolved q) ->
  forall m, exists m', fold_left (normalize_step rt) l (Resolved m) = Resolved m'.
Proof.
  induction l as [|[k0 v0] l IH]; intros Hall m; [now exists m|].
  rewrite fold_normalize_cons.
  destruct (Hall k0 v0) as [q0 ->]; [left|].
  apply IH. intros k rec Hin. apply (Hall k rec). now right.
Qed.

(** When the loop throws, it throws what building one of the entries
    threw. *)
Lemma fold_normalize_throws rt l : forall m e,
  fold_left (normalize_step rt) l (Resolved m) = Rejected e ->
  exists k rec, (k, rec) ∈ l /\ quote_of rt rec = Rejected e.
Proof.
  induction l as [|[k0 v0] l IH]; intros m e H; [discriminate H|].
  rewrite fold_normalize_cons in H.
  destruct (quote_of rt v0) as [q0|e0] eqn:E0.
  - destruct (IH _ _ H) as (k & rec & Hin & Hq). exists k, rec. split; [now right | exact Hq].
  - injection H as <-. exists k0, v0. split; [left | exact E0].
Qed.

(** Assigning the entries of a list with distinct keys to an object, one
    after the other. *)
Lemma fold_normalize_lookup rt (l : list (string * json)) :
  NoDup l.*1 ->
  forall m m',
    fold_left (normalize_step rt) l (Resolved m) = Resolved m' ->
    forall k,
      m' !! k
      = match (list_to_map l : gmap string json) !! k with
        | Some rec =>
            if decide (k = "__proto__"%string) then m !! k
            else match quote_of rt rec with
                 | Resolved q => Some q
                 | Rejected _ => None
                 end
        | None => m !! k
        end.
Proof.
  induction l as [|[k0 v0] l IH]; intros Hnd m m' H k; [now injection H as <-|].
  apply NoDup_cons in Hnd as [Hk0 Hnd]. rewrite fold_normalize_cons in H.
  destruct (quote_of rt v0) as [q0|e0] eqn:E0; [|discriminate H].
  rewrite (IH Hnd _ _ H k). cbn [list_to_map foldr]. cbn. unfold assign.
  destruct (decide (k0 = k)) as [->|Hne].
  - rewrite lookup_insert_eq.
    rewrite (not_elem_of_list_to_map_1 (M := gmap string) l k Hk0).
    destruct (String.eqb_spec k "__proto__") as [->|Hk].
    + now rewrite decide_True.
    + rewrite decide_False by done. now rewrite lookup_insert_eq, E0.
  - rewrite (lookup_insert_ne (list_to_map l) k0 k v0 Hne).
    destruct (String.eqb k0 "__proto__"); [done|].
    rewrite lookup_insert_ne by done. reflexivity.
Qed.

Lemma normalize_object rt (fields coins : gmap string json) :
  fields !! "coins"%string = Some (JObj coins) ->
  normalize rt (JObj fields)
  = fold_left (normalize_step rt) (map_to_list coins) (Resolved ∅).
Proof. intros Hc. unfold normalize. cbn [truthy prop]. now rewrite Hc. Qed.

Lemma normalize_no_coins rt json_ :
  prop json_ "coins" = None -> normalize rt json_ = Resolved ∅.
Proof. intros H. unfold normalize. rewrite H. now rewrite andb_false_r. Qed.

Lemma GET_ok rt idsParam res json_ prices :
  fetch rt (url_of (ids_of idsParam)) = Resolved res ->
  ok (up_status res) = true ->
  up_json res = Resolved json_ ->
  normalize rt json_ = Resolved prices ->
  GET rt idsParam = {| status := 200; cache_control := Some "no-store"%string;
                       body := PricesBody (serialize <$> prices) (Date_now rt) |}.
Proof. intros Hf Hok Hj Hn. unfold GET. cbv zeta. now rewrite Hf, Hok, Hj, Hn. Qed.

Lemma GET_throws rt idsParam res json_ e :
  fetch rt (url_of (ids_of idsParam)) = Resolved res ->
  ok (up_status res) = true ->
  up_json res = Resolved json_ ->
  normalize rt json_ = Rejected e ->
  GET rt idsParam = internal_error e.
Proof. intros Hf Hok Hj Hn. unfold GET. cbv zeta. now rewrite Hf, Hok, Hj, Hn. Qed.

(** C4, as amended.  When the upstream answers with success and a body
    that parses, the handler builds its price mapping from the upstream
    body alone; the identifiers requested enter only the upstream URL.
    With an object for [coins], two cases.  If the price of one of its
    records cannot be converted to a number (it is an object with a
    [toString] property of its own, or an array that holds one), the
    conversion throws and the answer is 500 with the TypeError's message.
    Otherwise the answer is 200, with [no-store], and the mapping has
    exactly one entry per key of [coins] other than [__proto__] (so exactly
    two, keyed [a] and [b], when those are its keys); an entry carries the
    upstream record's symbol and its price converted to a number and
    serialised: the number itself when it is finite, [null] when it is
    not, zero when the record has no price.  The conversion leaves a
    number as it is, reads a string as the engine does, and gives one for
    [true] and zero for [false].  With no [coins], or a [coins] that holds
    no record, the mapping is empty. *)
Theorem GET_prices rt idsParam res json_ :
  fetch rt (url_of (ids_of idsParam)) = Resolved res ->
  ok (up_status res) = true ->
  up_json res = Resolved json_ ->
  (prop json_ "coins" = None \/
   (exists coins, prop json_ "coins" = Some coins /\ entries coins = []) ->
   GET rt idsParam = {| status := 200; cache_control := Some "no-store"%string;
                        body := PricesBody ∅ (Date_now rt) |}) /\
  forall coins : gmap string json,
    prop json_ "coins" = Some (JObj coins) ->
    ((exists key rec, coins !! key = Some rec /\
                      unconvertible (or_zero (prop rec "price")) = true) ->
     GET rt idsParam = {| status := 500; cache_control := None;
                          body := ErrorBody (TypeError_message rt) |}) /\
    ((forall key rec, coins !! key = Some rec ->
                      unconvertible (or_zero (prop rec "price")) = false) ->
     exists prices,
       GET rt idsParam = {| status := 200; cache_control := Some "no-store"%string;
                            body := PricesBody prices (Date_now rt) |} /\
       dom prices = dom coins ∖ {[ "__proto__"%string ]} /\
       (forall (a b : string) ra rb,
          a <> b -> a <> "__proto__"%string -> b <> "__proto__"%string ->
          coins = {[ a := ra; b := rb ]} ->
          dom prices = {[ a; b ]} /\ size prices = 2%nat) /\
       forall key rec, key <> "__proto__"%string -> coins !! key = Some rec ->
         exists q n, prices !! key = Some q /\
           View.quote_symbol q = stringify <$> prop rec "symbol" /\
           (prop rec "symbol" = None -> View.quote_symbol q = None) /\
           (forall s, prop rec "symbol" = Some (JStr s) ->
                      View.quote_symbol q = Some (JStr s)) /\
           Number rt (or_zero (prop rec "price")) = Resolved n /\
           View.price q = match n with
                          | S754_zero _ => Some (S754_zero false)
                          | S754_finite _ _ _ => Some n
                          | S754_infinity _ | S754_nan => None
                          end /\
           (forall x, prop rec "price" = Some (JNum x) -> n = x) /\
           (forall s, prop rec "price" = Some (JStr s) -> n = StringToNumber rt s) /\
           (forall b, prop rec "price" = Some (JBool b) ->
                      n = if b then of_Z 1 else S754_zero false) /\
           (forall fields, prop rec "price" = Some (JObj fields) ->
                           n = StringToNumber rt "[object Object]") /\
           (prop rec "price" = None \/ prop rec "price" = Some JNull ->
            n = S754_zero false /\ View.price q = Some (S754_zero false))).
Proof.
  intros Hf Hok Hj. split.
  { intros Hnone.
    assert (normalize rt json_ = Resolved ∅) as Hn.
    { destruct Hnone as [Hnone | (coins & Hc & He)]; [now apply normalize_no_coins|].
      unfold normalize. rewrite Hc, He. now destruct (truthy json_ && truthy coins). }
    rewrite (GET_ok rt idsParam res json_ ∅ Hf Hok Hj Hn). now rewrite fmap_empty. }
  intros coins Hc. destruct json_ as [| | | | |fields]; try discriminate.
  cbn [prop] in Hc. pose proof (normalize_object rt fields coins Hc) as Hnorm.
  split.
  - intros (key & rec & Hrec & Hbad).
    pose proof (quote_of_outcome rt rec) as Hq. rewrite Hbad in Hq.
    destruct (fold_left (normalize_step rt) (map_to_list coins) (Resolved ∅))
      as [prices|e] eqn:En.
    + destruct (fold_normalize_all rt _ _ _ En key rec) as [q Hq'];
        [now apply elem_of_map_to_list | congruence].
    + rewrite (GET_throws rt idsParam res _ e Hf Hok Hj Hnorm).
      destruct (fold_normalize_throws rt _ _ _ En) as (k' & rec' & _ & Hq').
      pose proof (quote_of_outcome rt rec') as Hq''.
      destruct (unconvertible (or_zero (prop rec' "price"))).
      * rewrite Hq'' in Hq'. now injection Hq' as <-.
      * destruct Hq'' as (n & _ & Hq''). congruence.
  - intros Hgood.
    assert (forall k rec, (k, rec) ∈ map_to_list coins ->
              exists q, quote_of rt rec = Resolved q) as Hall.
    { intros k rec Hin. apply elem_of_map_to_list in Hin.
      pose proof (quote_of_outcome rt rec) as Hq. rewrite (Hgood k rec Hin) in Hq.
      destruct Hq as (n & _ & Hq). eauto. }
    destruct (fold_normalize_total rt _ Hall ∅) as [prices Hfold].
    rewrite <- Hnorm in Hfold.
    exists (serialize <$> prices).
    split; [exact (GET_ok rt idsParam res _ prices Hf Hok Hj Hfold)|].
    rewrite Hnorm in Hfold.
    pose proof (fold_normalize_lookup rt _ (NoDup_fst_map_to_list coins) _ _ Hfold) as Hlook.
    assert (forall k, prices !! k
              = if decide (k = "__proto__"%string) then None
                else match coins !! k with
                     | Some rec => match quote_of rt rec with
                                   | Resolved q => Some q
                                   | Rejected _ => None
                                   end
                     | None => None
                     end) as Hk.
    { intros k. rewrite Hlook, list_to_map_to_list, lookup_empty.
      destruct (coins !! k); destruct (decide (k = "__proto__"%string)); reflexivity. }
    assert (dom (serialize <$> prices) = dom coins ∖ {[ "__proto__"%string ]}) as Hdom.
    { rewrite dom_fmap_L. apply set_eq. intros k.
      rewrite elem_of_difference, !elem_of_dom, elem_of_singleton, Hk.
      destruct (decide (k = "__proto__"%string)) as [->|Hne].
      - split; [intros [? [=]] | tauto].
      - destruct (coins !! k) as [rec|] eqn:Ek.
        + destruct (Hall k rec) as [q ->]; [now apply elem_of_map_to_list|].
          split; eauto.
        + split; [intros [? [=]] | intros [[? [=]] _]]. }
    split; [exact Hdom|]. split.
    + intros a b ra rb Hab Ha Hb ->. rewrite Hdom.
      assert (dom ({[ a := ra; b := rb ]} : gmap string json) ∖ {[ "__proto__"%string ]}
              = ({[ a; b ]} : gset string)) as Hab'.
      { rewrite dom_insert_L, dom_singleton_L. apply set_eq. intros k.
        rewrite elem_of_difference, !elem_of_union, !elem_of_singleton.
        split; [tauto | intros [->| ->]; auto]. }
      split; [exact Hab'|].
      rewrite <- size_dom, Hdom, Hab'. rewrite size_union by set_solver.
      now rewrite !size_singleton.
    + intros key rec Hkey Hrec.
      pose proof (quote_of_outcome rt rec) as Hq. rewrite (Hgood key rec Hrec) in Hq.
      destruct Hq as (n & Hn & Hq).
      exists (serialize {| symbol := prop rec "symbol"; price := n |}), n.
      split; [rewrite lookup_fmap, Hk, decide_False, Hrec, Hq by done; reflexivity|].
      split; [reflexivity|].
      split; [intros Hs; cbn; now rewrite Hs|].
      split; [intros s Hs; cbn; now rewrite Hs|].
      split; [exact Hn|]. split; [reflexivity|].
      split; [intros x Hx; rewrite Hx in Hn; cbn in Hn; now injection Hn as <-|].
      split; [intros s Hs; rewrite Hs in Hn; cbn in Hn; now injection Hn as <-|].
      split; [intros b Hb; rewrite Hb in Hn; destruct b; cbn in Hn; now injection Hn as <-|].
      split.
      { intros own Hx. pose proof (Hgood key rec Hrec) as Hconv.
        rewrite Hx in Hn, Hconv. cbn [or_zero unconvertible] in Hconv.
        cbn [or_zero Number ToString] in Hn. rewrite Hconv in Hn.
        now injection Hn as <-. }
      intros [Hx|Hx]; rewrite Hx in Hn; cbn in Hn; injection Hn as <-; split; reflexivity.
Qed.

Lemma GET_prices_witness :
  let upstream_body body_ :=
    {| fetch := fun _ => Resolved {| up_status := 200; up_json := Resolved body_ |};
       Date_now := 1700000000000;
       StringToNumber := fun _ => NaN; NumberToString := fun _ => EmptyString;
       TypeError_message := "Cannot convert object to primitive value" |} in
  let record_a := JObj {[ "symbol"%string := JStr "A"; "price"%string := JNum (of_Z 3) ]} in
  let record_b := JObj {[ "symbol"%string := JStr "B" ]} in
  let coins : gmap string json := {[ "a"%string := record_a; "b"%string := record_b ]} in
  let odd : gmap string json :=
    {[ "a"%string := JObj {[ "price"%string := JObj {[ "toString"%string := JNum (of_Z 1) ]} ]} ]} in
  (exists prices,
     body (GET (upstream_body (JObj {[ "coins"%string := JObj coins ]})) (Some "a,b"%string))
     = PricesBody prices 1700000000000 /\
     dom prices = {[ "a"%string; "b"%string ]} /\ size prices = 2%nat /\
     (exists q, prices !! "a"%string = Some q /\ View.price q = Some (of_Z 3)) /\
     (exists q, prices !! "b"%string = Some q /\ View.price q = Some zero)) /\
  GET (upstream_body (JObj {[ "coins"%string := JObj odd ]})) (Some "a,b"%string)
  = {| status := 500; cache_control := None;
       body := ErrorBody "Cannot convert object to primitive value" |}.
Proof.
  intros upstream_body record_a record_b coins odd. split.
  - pose proof (proj2 (GET_prices (upstream_body (JObj {[ "coins"%string := JObj coins ]}))
                         (Some "a,b"%string) _ _ eq_refl eq_refl eq_refl)) as Hobj.
    destruct (Hobj coins eq_refl) as [_ Hgood].
    destruct Hgood as (prices & Hget & _ & Htwo & Hrec).
    { intros key rec Hin. unfold coins in Hin.
      apply lookup_insert_Some in Hin as [[_ <-]|[_ Hin]]; [reflexivity|].
      apply lookup_singleton_Some in Hin as [_ <-]. reflexivity. }
    exists prices. split; [now rewrite Hget|].
    destruct (Htwo "a"%string "b"%string record_a record_b) as [Hdom Hsize];
      [discriminate | discriminate | discriminate | reflexivity |].
    split; [exact Hdom|]. split; [exact Hsize|]. split.
    + destruct (Hrec "a"%string record_a)
        as (q & n & Hq & _ & _ & _ & _ & Hp & Hnum & _); [discriminate | reflexivity |].
      exists q. split; [exact Hq|]. rewrite Hp, (Hnum (of_Z 3) eq_refl). reflexivity.
    + destruct (Hrec "b"%string record_b)
        as (q & n & Hq & _ & _ & _ & _ & _ & _ & _ & _ & _ & Hnone);
        [discriminate | reflexivity |].
      exists q. split; [exact Hq|]. apply Hnone. now left.
  - pose proof (proj2 (GET_prices (upstream_body (JObj {[ "coins"%string := JObj odd ]}))
                         (Some "a,b"%string) _ _ eq_refl eq_refl eq_refl)) as Hobj.
    apply (proj1 (Hobj odd eq_refl)).
    eexists "a"%string, _. split; reflexivity.
Defined.

(** C4 as stated fails: an identifier the upstream leaves out of its
    answer gets no entry at all. *)
Lemma GET_prices_absent_identifier :
  ~ (forall rt (a b : string) res json_,
       fetch rt (url_of (ids_of (Some (String.append a (String.append "," b))))) = Resolved res ->
       ok (up_status res) = true ->
       up_json res = Resolved json_ ->
       exists prices ts,
         body (GET rt (Some (String.append a (String.append "," b)))) = PricesBody prices ts /\
         dom prices = {[ a; b ]}).
Proof.
  intros H.
  pose (coins := {[ "a"%string := JObj {[ "price"%string := JNum (of_Z 3) ]} ]}
                 : gmap string json).
  pose (rt := {| fetch := fun _ => Resolved {| up_status := 200;
                   up_json := Resolved (JObj {[ "coins"%string := JObj coins ]}) |};
                 Date_now := 0;
                 StringToNumber := fun _ => NaN; NumberToString := fun _ => EmptyString;
                 TypeError_message := EmptyString |}).
  destruct (H rt "a"%string "b"%string _ _ eq_refl eq_refl eq_refl)
    as (prices & ts & Hbody & Hdom).
  assert ("b"%string ∈ dom prices) as Hb by (rewrite Hdom; set_solver).
  apply elem_of_dom in Hb as [q Hq].
  injection Hbody as <- _. vm_compute in Hq. discriminate Hq.
Qed.

(** C5.  When the upstream answers with a status outside 200-299 the
    handler answers 502 with an error field that names the upstream status;
    when [fetch] throws, or the body of a successful answer fails to parse,
    it answers 500 with an error field holding the message of what was
    thrown; 502 and 500 are not success statuses, and the handler answers
    200 in no other case than a successful upstream answer that parses. *)
Theorem GET_failures rt idsParam :
  let url := url_of (ids_of idsParam) in
  (forall res, fetch rt url = Resolved res -> ok (up_status res) = false ->
     GET rt idsParam
     = {| status := 502; cache_control := None;
          body := ErrorBody (String.append "Upstream error: "
                               (toString 10 (up_status res))) |}) /\
  (forall err, fetch rt url = Rejected err ->
     GET rt idsParam
     = {| status := 500; cache_control := None; body := ErrorBody (message_of err) |}) /\
  (forall res err, fetch rt url = Resolved res -> ok (up_status res) = true ->
     up_json res = Rejected err ->
     GET rt idsParam
     = {| status := 500; cache_control := None; body := ErrorBody (message_of err) |}) /\
  ok 502 = false /\ ok 500 = false /\
  (status (GET rt idsParam) = 200 ->
   exists res json_, fetch rt url = Resolved res /\ ok (up_status res) = true /\
                     up_json res = Resolved json_).
Proof.
  intros url. unfold GET. cbv zeta. fold url.
  split; [intros res Hf Hok; now rewrite Hf, Hok|].
  split; [intros err Hf; now rewrite Hf|].
  split; [intros res err Hf Hok Hj; now rewrite Hf, Hok, Hj|].
  split; [reflexivity|]. split; [reflexivity|].
  destruct (fetch rt url) as [res|err]; [|discriminate].
  destruct (ok (up_status res)) eqn:Hok; [|discriminate].
  destruct (up_json res) as [json_|err] eqn:Hj; [|discriminate].
  eauto.
Qed.

Lemma GET_failures_witness :
  let engine fetch_ :=
    {| fetch := fetch_; Date_now := 0;
       StringToNumber := fun _ => NaN; NumberToString := fun _ => EmptyString;
       TypeError_message := EmptyString |} in
  let upstream_503 :=
    engine (fun _ => Resolved {| up_status := 503; up_json := Resolved JNull |}) in
  let unreachable := engine (fun _ => Rejected (ThrownError "fetch failed")) in
  let garbled :=
    engine (fun _ => Resolved {| up_status := 200;
                                 up_json := Rejected (ThrownError "Unexpected token <") |}) in
  GET upstream_503 None
  = {| status := 502; cache_control := None; body := ErrorBody "Upstream error: 503" |} /\
  GET unreachable (Some "a,b"%string)
  = {| status := 500; cache_control := None; body := ErrorBody "fetch failed" |} /\
  GET garbled (Some "a,b"%string)
  = {| status := 500; cache_control := None; body := ErrorBody "Unexpected token <" |}.
Proof.
  intros engine upstream_503 unreachable garbled. split; [|split].
  - exact (proj1 (GET_failures upstream_503 None) _ eq_refl eq_refl).
  - exact (proj1 (proj2 (GET_failures unreachable (Some "a,b"%string))) _ eq_refl).
  - exact (proj1 (proj2 (proj2 (GET_failures garbled (Some "a,b"%string))))
             _ _ eq_refl eq_refl eq_refl).
Defined.

End PriceProxyFacts.

(* ===================================================================== *)
(** * Valuation, with the prices the proxy serves                         *)
(* ===================================================================== *)

Section ValuationFacts.
Import Js View.

(** A price the proxy has serialised is a finite number when the view
    looks it up: [null] reads as zero. *)
Lemma served_price_finite (prices : gmap string PriceProxy.quote) key :
  isFinite (price_of (PriceProxy.serialize <$> prices) key) = true.
Proof.
  unfold price_of. rewrite lookup_fmap.
  destruct (prices !! key) as [q|]; [|reflexivity]. cbn.
  now destruct (PriceProxy.price q).
Qed.

Lemma GET_prices_finite rt idsParam prices ts key :
  PriceProxy.body (PriceProxy.GET rt idsParam) = PriceProxy.PricesBody prices ts ->
  isFinite (price_of prices key) = true.
Proof.
  unfold PriceProxy.GET. cbv zeta.
  destruct (PriceProxy.fetch rt _) as [res|err]; [|discriminate].
  destruct (ok (PriceProxy.up_status res)); cbn [negb]; [|discriminate].
  destruct (PriceProxy.up_json res) as [j|err]; [|discriminate].
  destruct (PriceProxy.normalize rt j) as [built|err]; [|discriminate].
  cbn [PriceProxy.body]. intros [= <- _]. apply served_price_finite.
Qed.

(** Adding the same value to two totals that show the same keeps them
    showing the same. *)
Lemma add_same_number a b v : same_number a b -> same_number (add a v) (add b v).
Proof.
  intros [->|[Ha Hb]]; [now left|].
  destruct a as [sa| | |]; try discriminate Ha.
  destruct b as [sb| | |]; try discriminate Hb.
  destruct v as [sv|sv| |sv mv ev]; [right | left | left | left]; try reflexivity.
  destruct sa, sb, sv; split; reflexivity.
Qed.

(** Adding a zero to a total leaves it showing the same. *)
Lemma add_zero_same sum z : is_zero z = true -> same_number (add sum z) sum.
Proof.
  intros Hz. destruct z as [sz| | |]; try discriminate Hz.
  destruct sum as [ss|ss| |ss ms es]; [|left; reflexivity..].
  destruct ss, sz; [left | right | left | left]; try reflexivity. now split.
Qed.

Lemma fold_same_number (prices : PriceMap) l : forall a b,
  same_number a b ->
  same_number
    (fold_left (fun sum h => let p := price_of prices (id h) in add sum (mul (amount h) p)) l a)
    (fold_left (fun sum h => let p := price_of prices (id h) in add sum (mul (amount h) p)) l b).
Proof.
  induction l as [|h l IH]; intros a b Hab; [exact Hab|].
  cbn [fold_left]. apply IH. now apply add_same_number.
Qed.

(** A row with a zero amount and a finite price adds nothing to the
    total. *)
Lemma totalUsd_zero_row (prices : PriceMap) before h after :
  amount h = zero -> isFinite (price_of prices (id h)) = true ->
  same_number (totalUsd (before ++ h :: after) prices) (totalUsd (before ++ after) prices).
Proof.
  intros Ha Hp. unfold totalUsd. rewrite !fold_left_app. cbn [fold_left].
  apply fold_same_number. cbv zeta. rewrite Ha.
  apply add_zero_same. now apply mul_zero_finite.
Qed.

(** C6.  The total is the sum, taken in list order from zero, of amount
    times price over the holdings, where the price is the one quoted under
    the holding's identifier and zero when there is no quote or the quote
    holds no price.  An amount that is not finite, entered through
    [updateAmount] on a row of the list, is stored as zero in that row and
    leaves every other row as it was; the row then adds a zero to the
    total, which shows the same as the total of the list without the row.
    This holds for every price that is a number in the usual sense, a
    finite one, and the prices the proxy serves are all such: a price that
    is not finite leaves the proxy as [null], which the view reads as
    zero. *)
Theorem valuation (holdings : list Holding) (prices : PriceMap) :
  totalUsd [] prices = zero /\
  (forall h, totalUsd (holdings ++ [h]) prices
             = add (totalUsd holdings prices) (mul (amount h) (price_of prices (id h)))) /\
  (forall key, prices !! key = None -> price_of prices key = zero) /\
  (forall key q, prices !! key = Some q -> price_of prices key = default zero (price q)) /\
  (forall index x h,
     holdings !! index = Some h -> isFinite x = false ->
     exists holdings',
       updateAmount index x holdings = Some holdings' /\
       length holdings' = length holdings /\
       holdings' !! index = Some (with_amount h zero) /\
       (forall j, j <> index -> holdings' !! j = holdings !! j) /\
       (isFinite (price_of prices (id h)) = true ->
        is_zero (value prices (with_amount h zero)) = true /\
        same_number (totalUsd holdings' prices)
                    (totalUsd (take index holdings ++ drop (S index) holdings) prices))) /\
  (forall rt idsParam ts,
     PriceProxy.body (PriceProxy.GET rt idsParam) = PriceProxy.PricesBody prices ts ->
     forall key, isFinite (price_of prices key) = true).
Proof.
  split; [reflexivity|]. split; [intros h; apply totalUsd_snoc|].
  split; [intros key H; unfold price_of; now rewrite H|].
  split; [intros key q H; unfold price_of; now rewrite H|].
  split; [|intros rt idsParam ts H key; exact (GET_prices_finite rt idsParam prices ts key H)].
  intros index x h Hh Hx. eexists. split; [apply updateAmount_row; exact Hh|].
  rewrite Hx. split; [apply length_insert|].
  split; [apply list_lookup_insert_eq; eauto using lookup_lt_Some|].
  split; [intros j Hj; now apply list_lookup_insert_ne|].
  intros Hp. split; [unfold value; cbn; now apply mul_zero_finite|].
  rewrite insert_take_drop by eauto using lookup_lt_Some.
  now apply totalUsd_zero_row.
Qed.

Lemma valuation_witness :
  let h := {| id := "x"; symbol := None; name := None; amount := of_Z 2 |} in
  let prices : PriceMap :=
    {[ "x"%string := {| quote_symbol := None; price := Some (of_Z 3) |} ]} in
  totalUsd [h] prices = of_Z 6 /\
  totalUsd (removeRow 0 [h]) prices = zero /\
  exists holdings',
    updateAmount 0 NaN [h] = Some holdings' /\
    holdings' !! 0%nat = Some (with_amount h zero) /\
    is_zero (value prices (with_amount h zero)) = true /\
    same_number (totalUsd holdings' prices) (totalUsd [] prices) /\
    totalUsd holdings' prices = zero.
Proof.
  intros h prices. split; [vm_compute; reflexivity|]. split; [vm_compute; reflexivity|].
  destruct (proj1 (proj2 (proj2 (proj2 (proj2 (valuation [h] prices)))))
              0%nat NaN h eq_refl eq_refl)
    as (holdings' & Hupd & _ & Hrow & _ & Hzero).
  exists holdings'. split; [exact Hupd|]. split; [exact Hrow|].
  destruct Hzero as [Hvalue Hsame]; [vm_compute; reflexivity|].
  split; [exact Hvalue|]. split; [exact Hsame|].
  injection Hupd as <-. vm_compute. reflexivity.
Defined.

End ValuationFacts.

(* ===================================================================== *)
(** * The registry over a history of transactions                         *)
(* ===================================================================== *)

Section LedgerFacts.
Import Registry Ledger.

Lemma apply_tx_set w s id a :
  apply_tx w (TxSet s id a)
  = World (<[(s, id) := a]> (slots w)) (logs w ++ [AssetUpdated s id a]).
Proof. reflexivity. Qed.

Lemma apply_tx_setMany_ok w s ids amts :
  length ids = length amts ->
  apply_tx w (TxSetMany s ids amts)
  = World (written s ids amts (slots w))
          (logs w ++ updates s ids amts ++ [AssetsBatchUpdated s (length ids)]).
Proof. intros H. unfold apply_tx, transact. cbn [body_of]. now rewrite setMany_ok. Qed.

Lemma apply_tx_setMany_mismatch w s ids amts :
  length ids <> length amts -> apply_tx w (TxSetMany s ids amts) = w.
Proof. intros H. unfold apply_tx, transact. cbn [body_of]. now rewrite setMany_mismatch. Qed.

(** One transaction, seen from one slot. *)
Lemma amountOf_apply_tx w t owner id :
  amountOf (apply_tx w t) owner id = default (amountOf w owner id) (writes t owner id).
Proof.
  destruct t as [s x a | s ids amts]; cbn [writes].
  - rewrite apply_tx_set. unfold amountOf. cbn [slots].
    case_bool_decide as Hd.
    + destruct Hd as [-> ->]. now rewrite lookup_insert_eq.
    + rewrite lookup_insert_ne; [done|]. intros [= -> ->]. tauto.
  - destruct (Nat.eqb_spec (length ids) (length amts)) as [Hlen|Hlen].
    + rewrite apply_tx_setMany_ok by done. unfold amountOf. cbn [slots].
      rewrite lookup_written by done.
      case_bool_decide as Hd; cbn [andb].
      * subst s. rewrite decide_True by done. now destruct (last_written id ids amts).
      * now rewrite decide_False by congruence.
    + rewrite apply_tx_setMany_mismatch by done. now rewrite andb_false_r.
Qed.

Lemma run_snoc history t w : run (history ++ [t]) w = apply_tx (run history w) t.
Proof. unfold run. now rewrite fold_left_app. Qed.

Lemma last_write_snoc history t owner id :
  last_write (history ++ [t]) owner id
  = match writes t owner id with
    | Some a => Some a
    | None => last_write history owner id
    end.
Proof. unfold last_write. now rewrite fold_left_app. Qed.

(** A pair that was never written has no last write. *)
Lemma never_written_last_write history owner id :
  never_written history owner id -> last_write history owner id = None.
Proof.
  induction history as [|t history IH] using rev_ind; intros Hnw; [reflexivity|].
  rewrite last_write_snoc.
  assert (never_written history owner id) as Hpre.
  { intros k t' Hk Hok. apply (Hnw k t').
    - now apply lookup_app_l_Some.
    - rewrite take_app_le by (apply lookup_lt_Some in Hk; lia). exact Hok. }
  rewrite (IH Hpre).
  assert (writes t owner id = None) as ->; [|reflexivity].
  specialize (Hnw (length history) t (list_lookup_middle _ _ _ _ eq_refl)).
  rewrite take_app_length in Hnw.
  destruct t as [s x a | s ids amts]; cbn [writes].
  - case_bool_decide as Hd; [|reflexivity]. exfalso. now apply Hnw.
  - case_bool_decide as Hs; [|reflexivity]. cbn [andb].
    destruct (Nat.eqb_spec (length ids) (length amts)) as [Hlen|Hlen]; [|reflexivity].
    apply last_written_None. intros Hin. apply Hnw; [|now split].
    unfold transact. cbn [body_of]. now rewrite setMany_ok.
Qed.

(** C3.  A batch read never fails and never changes the world, whoever
    the owner is and whoever asks; it returns one amount per requested
    identifier, in request order, each the amount held in the owner's slot
    for that identifier, zero for a slot that holds nothing.  In a world
    reached from deployment by a history of transactions, that amount is
    the one written last to the slot by a transaction that went through,
    and zero for a pair never written: a pair that no transaction of the
    owner names, or that only reverted transactions name. *)
Theorem getMany_aligned owner (ids : list bytes32) w :
  exists result,
    getMany owner ids w = Done result w /\
    call (getMany owner ids) w = inr result /\
    length result = length ids /\
    (forall i id, ids !! i = Some id ->
       result !! i = Some (default 0 (slots w !! (owner, id)))) /\
    forall history, w = run history deployed ->
      forall i id, ids !! i = Some id ->
        result !! i = Some (default 0 (last_write history owner id)) /\
        (never_written history owner id -> result !! i = Some 0).
Proof.
  exists (map (amountOf w owner) ids). unfold call. rewrite getMany_ok.
  split; [reflexivity|]. split; [reflexivity|]. split; [now rewrite length_map|].
  split; [intros i id Hi; now rewrite list_lookup_fmap, Hi|].
  intros history -> i id Hi. rewrite list_lookup_fmap, Hi. cbn [fmap option_fmap option_map].
  assert (amountOf (run history deployed) owner id
          = default 0 (last_write history owner id)) as Hlast.
  { induction history as [|t history IH] using rev_ind; [reflexivity|].
    rewrite run_snoc, last_write_snoc, amountOf_apply_tx, IH.
    now destruct (writes t owner id). }
  rewrite Hlast. split; [reflexivity|].
  intros Hnever. now rewrite never_written_last_write.
Qed.

Lemma getMany_aligned_witness :
  let history := [TxSet 1 11 500; TxSetMany 2 [12; 13] [7; 8]; TxSetMany 1 [13] [9; 9]] in
  exists result,
    call (getMany 1 [11; 13; 12]) (run history deployed) = inr result /\
    length result = 3%nat /\
    result !! 0%nat = Some 500 /\ result !! 1%nat = Some 0.
Proof.
  intros history.
  destruct (getMany_aligned 1 [11; 13; 12] (run history deployed))
    as (result & _ & Hcall & Hlen & _ & Hhistory).
  exists result. split; [exact Hcall|]. split; [exact Hlen|]. split.
  - exact (proj1 (Hhistory history eq_refl 0%nat 11 eq_refl)).
  - apply (proj2 (Hhistory history eq_refl 1%nat 13 eq_refl)).
    intros k t Hk Hok Hm. unfold history in Hk, Hok.
    destruct k as [|[|[|k]]]; cbn in Hk; [| | |discriminate Hk];
      injection Hk as <-; cbn in Hm.
    + lia.
    + lia.
    + vm_compute in Hok. discriminate Hok.
Defined.

(** X1.  Last write wins, across transactions: after any history, a slot holds
    the amount of the last transaction that wrote it, and what it held
    before when none did. *)
Theorem last_write_wins history w owner id :
  amountOf (run history w) owner id
  = default (amountOf w owner id) (last_write history owner id).
Proof.
  induction history as [|t history IH] using rev_ind; [reflexivity|].
  rewrite run_snoc, last_write_snoc, amountOf_apply_tx, IH.
  now destruct (writes t owner id).
Qed.

Lemma replay_app log1 log2 owner id :
  replay (log1 ++ log2) owner id
  = fold_left (replay_step owner id) log2 (replay log1 owner id).
Proof. unfold replay. now rewrite fold_left_app. Qed.

Lemma replay_updates owner id s ids : forall amts held,
  length ids = length amts ->
  fold_left (replay_step owner id) (updates s ids amts) held
  = if bool_decide (s = owner) then default held (last_written id ids amts) else held.
Proof.
  induction ids as [|x ids IH]; intros [|a amts] held Hlen; try discriminate.
  - cbn. now case_bool_decide.
  - cbn [updates fold_left last_written replay_step]. rewrite IH by (simpl in Hlen; lia).
    case_bool_decide as Hs.
    + subst s. destruct (last_written id ids amts); [done|].
      destruct (decide (x = id)) as [->|Hx].
      * now rewrite bool_decide_eq_true_2.
      * rewrite bool_decide_eq_false_2; [done | tauto].
    + rewrite bool_decide_eq_false_2; [done | tauto].
Qed.

Lemma replay_apply_tx w t owner id :
  replay (logs (apply_tx w t)) owner id
  = default (replay (logs w) owner id) (writes t owner id).
Proof.
  destruct t as [s x a | s ids amts]; cbn [writes].
  - rewrite apply_tx_set. cbn [logs]. rewrite replay_app. cbn.
    now case_bool_decide.
  - destruct (Nat.eqb_spec (length ids) (length amts)) as [Hlen|Hlen].
    + rewrite apply_tx_setMany_ok by done. cbn [logs].
      rewrite app_assoc, replay_app. cbn [fold_left replay_step].
      rewrite replay_app, replay_updates by done.
      case_bool_decide; cbn [andb]; [now destruct (last_written id ids amts) | done].
    + rewrite apply_tx_setMany_mismatch by done. now rewrite andb_false_r.
Qed.

(** X2.  The events tell the whole story: in every world reached from
    deployment, each slot holds exactly what replaying the [AssetUpdated]
    events of the log gives for it. *)
Theorem storage_is_replay_of_events history owner id :
  amountOf (run history deployed) owner id
  = replay (logs (run history deployed)) owner id.
Proof.
  induction history as [|t history IH] using rev_ind; [reflexivity|].
  rewrite run_snoc, amountOf_apply_tx, replay_apply_tx. now rewrite IH.
Qed.

Lemma run_singles s ids : forall amts w,
  run (singles s ids amts) w
  = World (written s ids amts (slots w)) (logs w ++ updates s ids amts).
Proof.
  induction ids as [|x ids IH]; intros [|a amts] w; cbn [singles written updates run fold_left];
    try (rewrite app_nil_r; now destruct w).
  fold (run (singles s ids amts) (apply_tx w (TxSet s x a))).
  rewrite IH, apply_tx_set. cbn [slots logs]. now rewrite <- app_assoc.
Qed.

(** X3.  A batch is the sequence of its single writes: [setMany] on arrays of
    equal length leaves the storage, and the [AssetUpdated] events, that
    calling [set] for each pair in turn leaves, and adds one
    [AssetsBatchUpdated] event carrying the number of pairs. *)
Theorem setMany_is_sets s (ids : list bytes32) (amts : list uint128) w :
  length ids = length amts ->
  let w1 := run (singles s ids amts) w in
  transact (setMany s ids amts) w
  = (Success, World (slots w1) (logs w1 ++ [AssetsBatchUpdated s (length ids)])).
Proof.
  intros Hlen w1. unfold w1, transact. rewrite setMany_ok by done.
  rewrite run_singles. cbn [slots logs]. now rewrite <- app_assoc.
Qed.

Lemma setMany_is_sets_witness :
  transact (setMany 1 [11; 12; 11] [5; 6; 7]) deployed
  = (Success,
     World (slots (run [TxSet 1 11 5; TxSet 1 12 6; TxSet 1 11 7] deployed))
           (logs (run [TxSet 1 11 5; TxSet 1 12 6; TxSet 1 11 7] deployed)
              ++ [AssetsBatchUpdated 1 3])).
Proof. exact (setMany_is_sets 1 [11; 12; 11] [5; 6; 7] deployed eq_refl). Defined.

(** X4.  Owners do not interfere: two transactions of different senders leave
    the same amounts in whichever order they are mined. *)
Theorem different_senders_commute t1 t2 w owner id :
  sender_of t1 <> sender_of t2 ->
  amountOf (apply_tx (apply_tx w t1) t2) owner id
  = amountOf (apply_tx (apply_tx w t2) t1) owner id.
Proof.
  intros Hne. rewrite !amountOf_apply_tx.
  assert (forall t, sender_of t <> owner -> writes t owner id = None) as Hother.
  { intros [s x a | s ids amts] Hs; cbn in *.
    - rewrite bool_decide_eq_false_2; [done | tauto].
    - now rewrite bool_decide_eq_false_2. }
  destruct (decide (sender_of t1 = owner)) as [H1|H1].
  - rewrite (Hother t2) by congruence. reflexivity.
  - rewrite (Hother t1) by done. reflexivity.
Qed.

Lemma different_senders_commute_witness :
  amountOf (apply_tx (apply_tx deployed (TxSet 1 11 5)) (TxSetMany 2 [11; 12] [8; 9])) 2 11
  = amountOf (apply_tx (apply_tx deployed (TxSetMany 2 [11; 12] [8; 9])) (TxSet 1 11 5)) 2 11.
Proof.
  apply (different_senders_commute (TxSet 1 11 5) (TxSetMany 2 [11; 12] [8; 9])).
  cbn. lia.
Defined.

End LedgerFacts.

(* ===================================================================== *)
(** * More on the price proxy                                             *)
(* ===================================================================== *)

Section ProxyMoreFacts.
Import Js PriceProxy.

(** X5.  Whatever happens upstream, the handler gives one of three answers:
    200 with prices and [Cache-Control: no-store], or 502 or 500 with an
    error message and no cache directive.  An upstream status such as 404
    or 429 is never passed on. *)
Theorem GET_three_answers rt idsParam :
  (exists prices, GET rt idsParam
     = {| status := 200; cache_control := Some "no-store"%string;
          body := PricesBody prices (Date_now rt) |}) \/
  (exists message, GET rt idsParam
     = {| status := 502; cache_control := None; body := ErrorBody message |}) \/
  (exists message, GET rt idsParam
     = {| status := 500; cache_control := None; body := ErrorBody message |}).
Proof.
  unfold GET. cbv zeta. destruct (fetch rt _) as [res|err].
  - destruct (ok (up_status res)); cbn [negb].
    + destruct (up_json res) as [j|err]; [|right; right; unfold internal_error; eauto].
      destruct (normalize rt j) as [prices|err];
        [left | right; right; unfold internal_error]; eauto.
    + right. left. eauto.
  - right. right. unfold internal_error. eauto.
Qed.

(** X6.  A request without [ids], or with an empty [ids], is the request for
    the five default identifiers: it asks the upstream for the same URL and
    gives the same answer. *)
Theorem GET_default_ids rt :
  let defaults := "coingecko:bitcoin,coingecko:ethereum,coingecko:solana,coingecko:base-ecosystem-token,coingecko:chainlink"%string in
  url_of (ids_of None)
  = "https://coins.llama.fi/prices/current/coingecko%3Abitcoin%2Ccoingecko%3Aethereum%2Ccoingecko%3Asolana%2Ccoingecko%3Abase-ecosystem-token%2Ccoingecko%3Achainlink?searchWidth=8h"%string /\
  GET rt (Some ""%string) = GET rt None /\
  GET rt (Some defaults) = GET rt None.
Proof.
  intros defaults.
  assert (ids_of (Some ""%string) = ids_of None) as H1 by reflexivity.
  assert (ids_of (Some defaults) = ids_of None) as H2 by (vm_compute; reflexivity).
  split; [vm_compute; reflexivity|]. unfold GET. now rewrite H1, H2.
Qed.

Lemma encoded_char_safe c :
  forallb (fun c' => unreserved c' || Ascii.eqb c' "%")
    (if unreserved c then [c]
     else ["%"%char; upper_hex (N_of_ascii c / 16); upper_hex (N_of_ascii c mod 16)])
  = true.
Proof. destruct c as [[] [] [] [] [] [] [] []]; vm_compute; reflexivity. Qed.

(** Escaping one character and reading it back. *)
Lemma percent_decode_char c rest :
  percent_decode
    ((if unreserved c then [c]
      else ["%"%char; upper_hex (N_of_ascii c / 16); upper_hex (N_of_ascii c mod 16)])
       ++ rest)
  = c :: percent_decode rest.
Proof. destruct c as [[] [] [] [] [] [] [] []]; reflexivity. Qed.

Lemma percent_decode_encode s :
  percent_decode (chars (encodeURIComponent s)) = chars s.
Proof.
  unfold encodeURIComponent. rewrite chars_str.
  induction (chars s) as [|c l IH]; [reflexivity|].
  cbn [flat_map]. now rewrite percent_decode_char, IH.
Qed.

(** X7.  The identifiers cannot reshape the upstream URL, and all of them
    are in it: between the fixed path and the fixed query stands the
    escaped writing of the identifiers joined with commas, which reads back
    as exactly that string and is made of letters, digits,
    [- _ . ! ~ * ' ( )] and [%] only, so it holds no slash, question mark,
    hash, ampersand, equals sign, comma or space. *)
Theorem upstream_url_shape (ids : list string) :
  exists encoded,
    url_of ids = String.append "https://coins.llama.fi/prices/current/"
                   (String.append (str encoded) "?searchWidth=8h") /\
    percent_decode encoded = chars (join "," ids) /\
    Forall (fun c => unreserved c = true \/ c = "%"%char) encoded /\
    forall c, c ∈ encoded ->
      c ∉ ["/"%char; "?"%char; "#"%char; "&"%char; "="%char; ","%char; " "%char].
Proof.
  exists (chars (encodeURIComponent (join "," ids))).
  assert (Forall (fun c => unreserved c = true \/ c = "%"%char)
            (chars (encodeURIComponent (join "," ids)))) as Hsafe.
  { unfold encodeURIComponent. rewrite chars_str.
    induction (chars (join "," ids)) as [|c l IH]; [constructor|].
    cbn [flat_map]. apply Forall_app. split; [|exact IH].
    pose proof (encoded_char_safe c) as Hc. rewrite forallb_forall in Hc.
    apply Forall_forall. intros c' Hc'. apply list_elem_of_In, Hc in Hc'.
    apply orb_true_iff in Hc' as [Hu|He]; [now left | right; now apply Ascii.eqb_eq]. }
  split; [unfold url_of; now rewrite str_chars|].
  split; [apply percent_decode_encode|]. split; [exact Hsafe|].
  intros c Hc Hbad. rewrite Forall_forall in Hsafe. specialize (Hsafe c Hc).
  rewrite !elem_of_cons, elem_of_nil in Hbad.
  destruct Hbad as [-> | [-> | [-> | [-> | [-> | [-> | [-> | []]]]]]]];
    destruct Hsafe as [H|H]; discriminate H.
Qed.

Lemma upstream_url_shape_example :
  url_of ["coingecko:bitcoin"; "base:0xAb/c?d"]%string
  = "https://coins.llama.fi/prices/current/coingecko%3Abitcoin%2Cbase%3A0xAb%2Fc%3Fd?searchWidth=8h"%string.
Proof. vm_compute. reflexivity. Qed.

(** Assigning entries adds keys only from the list assigned. *)
Lemma fold_normalize_origin rt (l : list (string * json)) :
  forall (m m' : gmap string quote) k q,
    fold_left (normalize_step rt) l (Resolved m) = Resolved m' ->
    m' !! k = Some q ->
    m !! k = Some q \/
    (k <> "__proto__"%string /\ exists rec, (k, rec) ∈ l /\ quote_of rt rec = Resolved q).
Proof.
  induction l as [|[k0 v0] l IH]; intros m m' k q Hfold H;
    [injection Hfold as <-; now left|].
  rewrite fold_normalize_cons in Hfold.
  destruct (quote_of rt v0) as [q0|e0] eqn:E0; [|discriminate Hfold].
  destruct (IH _ _ k q Hfold H) as [Hm | (Hk & rec & Hin & Hq)].
  - unfold assign in Hm. destruct (String.eqb_spec k0 "__proto__") as [->|Hk0]; [now left|].
    destruct (decide (k0 = k)) as [->|Hne].
    + rewrite lookup_insert_eq in Hm. injection Hm as <-.
      right. split; [done|]. exists v0. split; [left | exact E0].
    + rewrite lookup_insert_ne in Hm by done. now left.
  - right. split; [done|]. exists rec. split; [now right | exact Hq].
Qed.

(** X8.  The proxy invents nothing: every entry of the price mapping it
    returns is computed from a record the upstream body holds under the
    same key in [coins], and no entry is keyed [__proto__].  This holds of
    the mapping the handler builds and of the one in its answer, whose
    entries are the built ones serialised. *)
Theorem normalize_from_upstream rt :
  (forall json_ prices key q,
     normalize rt json_ = Resolved prices ->
     prices !! key = Some q ->
     key <> "__proto__"%string /\
     exists coins rec,
       prop json_ "coins" = Some coins /\ (key, rec) ∈ entries coins /\
       quote_of rt rec = Resolved q) /\
  (forall idsParam served ts key entry,
     body (GET rt idsParam) = PricesBody served ts ->
     served !! key = Some entry ->
     key <> "__proto__"%string /\
     exists res json_ coins rec q,
       fetch rt (url_of (ids_of idsParam)) = Resolved res /\
       up_json res = Resolved json_ /\
       prop json_ "coins" = Some coins /\ (key, rec) ∈ entries coins /\
       quote_of rt rec = Resolved q /\ entry = serialize q).
Proof.
  assert (forall json_ prices key q,
            normalize rt json_ = Resolved prices ->
            prices !! key = Some q ->
            key <> "__proto__"%string /\
            exists coins rec,
              prop json_ "coins" = Some coins /\ (key, rec) ∈ entries coins /\
              quote_of rt rec = Resolved q) as Hbuilt.
  { intros json_ prices key q. unfold normalize. intros Hn H.
    destruct (prop json_ "coins") as [coins|];
      [|rewrite andb_false_r in Hn; injection Hn as <-; discriminate H].
    destruct (truthy json_ && truthy coins); [|injection Hn as <-; discriminate H].
    destruct (fold_normalize_origin rt _ _ _ _ _ Hn H) as [H' | (Hk & rec & Hin & Hq)];
      [discriminate H'|].
    split; [done|]. eauto. }
  split; [exact Hbuilt|].
  intros idsParam served ts key entry. unfold GET. cbv zeta.
  destruct (fetch rt _) as [res|err] eqn:Hf; [|discriminate].
  destruct (ok (up_status res)); cbn [negb]; [|discriminate].
  destruct (up_json res) as [json_|err] eqn:Hj; [|discriminate].
  destruct (normalize rt json_) as [prices|err] eqn:Hn; [|discriminate].
  cbn [body]. intros [= <- _] Hentry. rewrite lookup_fmap in Hentry.
  destruct (prices !! key) as [q|] eqn:Hq; [|discriminate Hentry].
  injection Hentry as <-.
  destruct (Hbuilt json_ prices key q Hn Hq) as (Hkey & coins & rec & Hc & Hin & Hrec).
  split; [exact Hkey|]. exists res, json_, coins, rec, q.
  split; [reflexivity|]. split; [exact Hj|]. auto.
Qed.

Lemma normalize_from_upstream_witness :
  let record := JObj {[ "price"%string := JNum (of_Z 3) ]} in
  let body := JObj {[ "coins"%string := JObj {[ "a"%string := record ]} ]} in
  let rt := {| fetch := fun _ => Rejected ThrownOther; Date_now := 0;
               StringToNumber := fun _ => NaN; NumberToString := fun _ => EmptyString;
               TypeError_message := EmptyString |} in
  exists coins rec,
    prop body "coins" = Some coins /\ ("a"%string, rec) ∈ entries coins /\
    quote_of rt rec = Resolved {| symbol := None; price := of_Z 3 |}.
Proof.
  intros record body rt.
  exact (proj2 (proj1 (normalize_from_upstream rt) body _ "a"
                  {| symbol := None; price := of_Z 3 |} eq_refl eq_refl)).
Defined.

End ProxyMoreFacts.

(* ===================================================================== *)
(** * More on the holdings                                                *)
(* ===================================================================== *)

Section HoldingsFacts.
Import Js View Ui.

Lemma filter_index_from index : forall l k,
  (k <= index)%nat ->
  filter_index (fun i => negb (Nat.eqb i index)) k l
  = take (index - k) l ++ drop (S (index - k)) l.
Proof.
  induction l as [|h l IH]; intros k Hk; [now rewrite take_nil, drop_nil|].
  cbn [filter_index]. destruct (Nat.eqb_spec k index) as [->|Hne]; cbn [negb].
  - rewrite Nat.sub_diag. cbn [take drop app]. clear IH Hk.
    assert (forall l' k', (index < k')%nat ->
              filter_index (fun i => negb (Nat.eqb i index)) k' l' = l') as Hrest.
    { induction l' as [|h' l' IH']; intros k' Hk'; [reflexivity|].
      cbn [filter_index]. rewrite (proj2 (Nat.eqb_neq k' index)) by lia.
      cbn [negb]. now rewrite IH' by lia. }
    apply Hrest. lia.
  - rewrite IH by lia. replace (index - k)%nat with (S (index - S k)) by lia.
    reflexivity.
Qed.

(** X9.  [removeRow] takes out the row at the index and moves the later rows
    up by one; an index past the end changes nothing. *)
Theorem removeRow_shifts index (prev : list Holding) :
  removeRow index prev = take index prev ++ drop (S index) prev /\
  (forall j, (j < index)%nat -> removeRow index prev !! j = prev !! j) /\
  (forall j, (index <= j)%nat -> removeRow index prev !! j = prev !! S j) /\
  ((index < length prev)%nat -> S (length (removeRow index prev)) = length prev) /\
  ((length prev <= index)%nat -> removeRow index prev = prev).
Proof.
  assert (removeRow index prev = take index prev ++ drop (S index) prev) as Heq.
  { unfold removeRow. rewrite filter_index_from by lia. now rewrite Nat.sub_0_r. }
  split; [exact Heq|]. rewrite Heq. split; [|split; [|split]].
  - intros j Hj. destruct (decide (j < length prev)%nat) as [Hlt|Hge].
    + rewrite lookup_app_l by (rewrite length_take; lia). now apply lookup_take_lt.
    + rewrite (lookup_ge_None_2 prev j) by lia. apply lookup_ge_None_2.
      rewrite length_app, length_take, length_drop. lia.
  - intros j Hj. destruct (decide (index < length prev)%nat) as [Hlt|Hge].
    + rewrite lookup_app_r by (rewrite length_take; lia).
      rewrite length_take, lookup_drop. f_equal. lia.
    + rewrite (lookup_ge_None_2 prev (S j)) by lia. apply lookup_ge_None_2.
      rewrite length_app, length_take, length_drop. lia.
  - intros Hlt. rewrite length_app, length_take, length_drop. lia.
  - intros Hge. rewrite take_ge by lia. rewrite drop_ge by lia. apply app_nil_r.
Qed.

Lemma removeRow_shifts_witness :
  let a := asset "coingecko:bitcoin" "BTC" "Bitcoin" in
  let b := asset "coingecko:ethereum" "ETH" "Ethereum" in
  let c := asset "coingecko:solana" "SOL" "Solana" in
  removeRow 1 [a; b; c] !! 1%nat = Some c /\ removeRow 3 [a; b; c] = [a; b; c].
Proof.
  intros a b c. split.
  - rewrite (proj1 (proj2 (proj2 (removeRow_shifts 1 [a; b; c]))) 1%nat); [reflexivity | lia].
  - apply (proj2 (proj2 (proj2 (proj2 (removeRow_shifts 3 [a; b; c]))))). simpl. lia.
Defined.

Lemma map_id_updateAmount index x (hs hs' : list Holding) :
  updateAmount index x hs = Some hs' -> map id hs' = map id hs.
Proof.
  unfold updateAmount. destruct (hs !! index) as [h|] eqn:Hh; [|discriminate].
  intros [= <-]. rewrite list_fmap_insert. cbn [with_amount id].
  apply list_insert_id. now rewrite list_lookup_fmap, Hh.
Qed.

Lemma map_id_reconcile chainAmounts (hs : list Holding) :
  map id (reconcile chainAmounts hs) = map id hs.
Proof.
  destruct chainAmounts as [amounts|]; [|reflexivity]. unfold reconcile.
  apply list_eq. intros i. rewrite !list_lookup_fmap, list_lookup_imap.
  now destruct (hs !! i).
Qed.

Lemma Forall_filter_index (P : Holding -> Prop) keep : forall l k,
  Forall P l -> Forall P (filter_index keep k l).
Proof.
  induction l as [|h l IH]; intros k Hl; [constructor|].
  apply Forall_cons in Hl as [Hh Hl]. cbn [filter_index].
  destruct (keep k); [constructor|]; auto.
Qed.

Lemma plainb_plain s : plainb s = true -> plain s.
Proof.
  unfold plainb, plain. destruct (chars s) as [|c l] eqn:E; [discriminate|].
  intros H. split; [discriminate|]. intros Hin.
  apply negb_true_iff in H. apply not_true_iff_false in H. apply H.
  apply existsb_exists. exists ","%char. split; [|reflexivity].
  now apply list_elem_of_In.
Qed.

(** Every identifier on offer is plain and is left alone by [trim]. *)
Lemma known_ids_plain :
  Forall (fun s => plain s /\ PriceProxy.trim s = s) known_ids.
Proof.
  assert (forallb (fun s => plainb s && trimmedb s) known_ids = true) as H
    by (vm_compute; reflexivity).
  rewrite forallb_forall in H. apply Forall_forall. intros s Hs.
  apply list_elem_of_In in Hs. apply H in Hs. apply andb_true_iff in Hs as [Hp Ht].
  split; [now apply plainb_plain | now apply String.eqb_eq].
Qed.

Lemma Forall_id (P : string -> Prop) (l : list Holding) :
  Forall (fun h => P (id h)) l <-> Forall P (map id l).
Proof. symmetry. apply Forall_fmap. Qed.

Lemma reachable_known hs :
  reachable hs -> Forall (fun h => id h ∈ known_ids) hs.
Proof.
  induction 1 as [| hs o _ IH Ho | hs index x hs' _ IH Hupd | hs index _ IH | hs amounts _ IH].
  - unfold initial, known_ids. repeat constructor; cbn; set_solver.
  - unfold addAsset. apply Forall_app. split; [exact IH|].
    apply Forall_cons. split; [|constructor].
    unfold known_ids. now apply list_elem_of_fmap_2.
  - apply (Forall_id (fun s => s ∈ known_ids)).
    apply (Forall_id (fun s => s ∈ known_ids)) in IH.
    now rewrite (map_id_updateAmount _ _ _ _ Hupd).
  - now apply Forall_filter_index.
  - apply (Forall_id (fun s => s ∈ known_ids)).
    apply (Forall_id (fun s => s ∈ known_ids)) in IH. now rewrite map_id_reconcile.
Qed.

(** X10.  Whatever the user does, every holding carries one of the fourteen
    identifiers of the picker: none is empty, none holds a comma, none has
    white space around it, and two lists of holdings with different
    identifier sequences have different [ids] strings. *)
Theorem reachable_ids_plain hs :
  reachable hs ->
  Forall (fun h => id h ∈ known_ids /\ plain (id h) /\ PriceProxy.trim (id h) = id h) hs /\
  forall hs', reachable hs' -> map id hs <> map id hs' -> ids hs <> ids hs'.
Proof.
  assert (forall l, reachable l ->
            Forall (fun h => id h ∈ known_ids /\ plain (id h)
                             /\ PriceProxy.trim (id h) = id h) l) as Hall.
  { intros l Hl. eapply Forall_impl; [exact (reachable_known l Hl)|].
    intros h Hh. split; [exact Hh|].
    pose proof known_ids_plain as Hk. rewrite Forall_forall in Hk. exact (Hk _ Hh). }
  intros Hr. split; [now apply Hall|].
  intros hs' Hr' Hne. apply ids_injective; [| |exact Hne].
  - eapply Forall_impl; [exact (Hall hs Hr)|]. now intros h (_ & Hp & _).
  - eapply Forall_impl; [exact (Hall hs' Hr')|]. now intros h (_ & Hp & _).
Qed.

Lemma reachable_ids_plain_witness :
  let hs := removeRow 0 (addAsset (asset "coingecko:solana" "SOL" "Solana") initial) in
  Forall (fun h => id h ∈ known_ids /\ plain (id h) /\ PriceProxy.trim (id h) = id h) hs.
Proof.
  intros hs. refine (proj1 (reachable_ids_plain hs _)).
  apply reach_remove, reach_pick; [apply reach_initial|].
  unfold options. rewrite !elem_of_cons. right. right. left. reflexivity.
Defined.

End HoldingsFacts.

(* ===================================================================== *)
(** * The view, the proxy and the polling effect together                 *)
(* ===================================================================== *)

Section ViewProxyFacts.
Import Js View Ui.

Lemma join_not_empty l : Forall plain l -> l <> [] -> join "," l <> EmptyString.
Proof. intros Hl Hne Hj. apply Hne. now apply join_empty. Qed.

(** X11.  The proxy recovers the identifiers of the view: for a list of
    holdings the user can get to, not empty, the [ids] string the view
    sends is split by the handler into exactly the holdings' identifiers,
    in order; for no holdings the view's string is empty, which the handler
    would take for the default list. *)
Theorem proxy_reads_view_ids hs :
  reachable hs ->
  (hs <> [] -> PriceProxy.ids_of (Some (ids hs)) = map id hs) /\
  (hs = [] -> PriceProxy.ids_of (Some (ids hs)) = PriceProxy.DEFAULT_IDS).
Proof.
  intros Hr. split; [|intros ->; reflexivity].
  intros Hne.
  assert (Forall (fun s => plain s /\ PriceProxy.trim s = s) (map id hs)) as Hall.
  { apply (Forall_id (fun s => plain s /\ PriceProxy.trim s = s)).
    eapply Forall_impl; [exact (reachable_known hs Hr)|].
    intros h Hh. pose proof known_ids_plain as Hk. rewrite Forall_forall in Hk.
    exact (Hk _ Hh). }
  assert (Forall plain (map id hs)) as Hplain
    by (eapply Forall_impl; [exact Hall|]; now intros s [Hp _]).
  assert (map id hs <> []) as Hne' by (now destruct hs).
  unfold PriceProxy.ids_of, ids.
  destruct (String.eqb_spec (join "," (map id hs)) "") as [He|_];
    [now apply join_not_empty in He|].
  rewrite split_join; [| |exact Hne'].
  - apply list_eq. intros i. rewrite list_lookup_fmap.
    destruct (map id hs !! i) as [x|] eqn:Hx; [|reflexivity]. cbn.
    rewrite Forall_lookup in Hall. now rewrite (proj2 (Hall i x Hx)).
  - eapply Forall_impl; [exact Hplain|]. now intros x [_ Hx].
Qed.

Lemma proxy_reads_view_ids_witness :
  PriceProxy.ids_of (Some (ids initial)) = ["coingecko:bitcoin"; "coingecko:ethereum"]%string.
Proof.
  exact (proj1 (proxy_reads_view_ids initial reach_initial) ltac:(discriminate)).
Defined.

(** X12.  Editing an amount and taking in amounts from the chain leave the
    identifiers alone: [ids] and the derived asset identifiers stay what
    they were, so the next render neither restarts the polling effect nor
    cancels a poll in flight. *)
Theorem amounts_do_not_restart_polling (s : Poll.state) (hs hs' : list Holding) :
  Poll.current_ids s = ids hs ->
  (exists index x, updateAmount index x hs = Some hs')
  \/ (exists chainAmounts, hs' = reconcile chainAmounts hs) ->
  ids hs' = ids hs /\
  assetIdsBytes32 hs' = assetIdsBytes32 hs /\
  Poll.step s (Poll.Render (ids hs')) = s.
Proof.
  intros Hcur Hedit.
  assert (map id hs' = map id hs) as Hids.
  { destruct Hedit as [(index & x & Hupd) | (ca & ->)];
      eauto using map_id_updateAmount, map_id_reconcile. }
  assert (ids hs' = ids hs) as Hjoin by (unfold ids; now rewrite Hids).
  split; [exact Hjoin|]. split.
  - unfold assetIdsBytes32.
    rewrite <- (map_map id AssetId.toAssetId hs'), <- (map_map id AssetId.toAssetId hs).
    now rewrite Hids.
  - rewrite Hjoin, <- Hcur. cbn [Poll.step]. unfold Poll.current_ids.
    destruct (Poll.instances s !! Poll.current s) as [i|]; [|reflexivity].
    now rewrite String.eqb_refl, andb_false_r.
Qed.

Lemma amounts_do_not_restart_polling_witness :
  let s := Poll.mount (ids initial) in
  Poll.step s (Poll.Render (ids (reconcile (Some [5; 7]) initial))) = s.
Proof.
  intros s.
  refine (proj2 (proj2 (amounts_do_not_restart_polling s initial _ eq_refl _))).
  right. exists (Some [5; 7]). reflexivity.
Defined.

(** X13.  Amounts read from the chain overwrite, they do not merge: the result
    does not depend on the amounts the holdings had, so a local edit made
    before the read comes back is lost, and taking in the same amounts
    twice changes nothing more. *)
Theorem reconcile_forgets_amounts amounts (prev prev' : list Holding) :
  map (fun h => with_amount h zero) prev = map (fun h => with_amount h zero) prev' ->
  reconcile (Some amounts) prev = reconcile (Some amounts) prev' /\
  reconcile (Some amounts) (reconcile (Some amounts) prev) = reconcile (Some amounts) prev /\
  forall index x edited,
    updateAmount index x prev = Some edited ->
    reconcile (Some amounts) edited = reconcile (Some amounts) prev.
Proof.
  assert (forall l l' : list Holding,
            map (fun h => with_amount h zero) l = map (fun h => with_amount h zero) l' ->
            reconcile (Some amounts) l = reconcile (Some amounts) l') as Hgen.
  { intros l l' Hsame. unfold reconcile. apply list_eq. intros i.
    rewrite !list_lookup_imap.
    apply (f_equal (fun m => m !! i)) in Hsame. rewrite !list_lookup_fmap in Hsame.
    destruct (l !! i) as [h|], (l' !! i) as [h'|]; try discriminate; [|reflexivity].
    cbn in *. injection Hsame as Hi Hs Hn. unfold with_amount. now rewrite Hi, Hs, Hn. }
  intros Hsame. split; [now apply Hgen|]. split.
  - apply Hgen. unfold reconcile. apply list_eq. intros i.
    rewrite !list_lookup_fmap, list_lookup_imap. now destruct (prev !! i).
  - intros index x edited Hupd. apply Hgen.
    unfold updateAmount in Hupd. destruct (prev !! index) as [h|] eqn:Hh; [|discriminate].
    injection Hupd as <-. rewrite list_fmap_insert. cbn [with_amount id symbol name].
    apply list_insert_id. now rewrite list_lookup_fmap, Hh.
Qed.

Lemma reconcile_forgets_amounts_witness :
  let edited := [with_amount (asset "coingecko:bitcoin" "BTC" "Bitcoin") (of_Z 9)] in
  let plain_row := [asset "coingecko:bitcoin" "BTC" "Bitcoin"] in
  reconcile (Some [500000000000000000]) edited
  = reconcile (Some [500000000000000000]) plain_row.
Proof.
  intros edited plain_row.
  exact (proj1 (reconcile_forgets_amounts [500000000000000000] edited plain_row eq_refl)).
Defined.

Lemma add_zero_zero p :
  isFinite p = true -> add zero (mul zero p) = zero.
Proof. destruct p as [[]| | |[]]; intros H; try discriminate H; reflexivity. Qed.

(** X14.  A portfolio whose amounts are all zero is worth exactly zero, whatever
    finite prices are quoted; in particular the initial holdings are. *)
Theorem totalUsd_of_zero_amounts (hs : list Holding) (prices : PriceMap) :
  Forall (fun h => amount h = zero) hs ->
  Forall (fun h => isFinite (price_of prices (id h)) = true) hs ->
  totalUsd hs prices = zero.
Proof.
  intros Hz Hp. unfold totalUsd.
  induction hs as [|h hs IH] using rev_ind; [reflexivity|].
  apply Forall_app in Hz as [Hz Hh]. apply Forall_app in Hp as [Hp Hph].
  apply Forall_cons in Hh as [Hh _]. apply Forall_cons in Hph as [Hph _].
  rewrite fold_left_app. cbn [fold_left]. rewrite IH by done.
  rewrite Hh. now apply add_zero_zero.
Qed.

Lemma totalUsd_of_zero_amounts_witness :
  let prices : PriceMap :=
    {[ "coingecko:bitcoin"%string :=
         {| quote_symbol := Some (JStr "BTC"); price := Some (of_Z 60000) |} ]} in
  totalUsd initial prices = zero.
Proof.
  intros prices. apply totalUsd_of_zero_amounts.
  - repeat constructor.
  - repeat constructor.
Defined.

End ViewProxyFacts.

(* ===================================================================== *)
(** * More on the asset identifier                                        *)
(* ===================================================================== *)

Section AssetIdMoreFacts.
Import Js AssetId Chain.

Lemma TextEncoder_encode_append a b :
  TextEncoder_encode (String.append a b) = TextEncoder_encode a ++ TextEncoder_encode b.
Proof. unfold TextEncoder_encode. now rewrite chars_append, map_app. Qed.

Lemma ToInt32_mod x y : x mod 2 ^ 32 = y mod 2 ^ 32 -> ToInt32 x = ToInt32 y.
Proof. intros H. unfold ToInt32. now rewrite H. Qed.

(** One turn of the loop sees the hash only through its low 32 bits. *)
Lemma step_mod x y byte : x mod 2 ^ 32 = y mod 2 ^ 32 -> step x byte = step y byte.
Proof.
  intros H. unfold step, xor, shl. rewrite (ToInt32_mod x y H). do 2 f_equal.
  apply ToInt32_mod. rewrite (Z.add_mod _ x), (Z.add_mod _ y) by lia. now rewrite H.
Qed.

Lemma fold_step_mod enc : forall x y,
  x mod 2 ^ 32 = y mod 2 ^ 32 ->
  fold_left step enc x mod 2 ^ 32 = fold_left step enc y mod 2 ^ 32.
Proof.
  induction enc as [|b enc IH]; intros x y H; [exact H|].
  cbn [fold_left]. apply IH. now rewrite (step_mod x y b H).
Qed.

(** The identifier in closed form. *)
Lemma toAssetId_closed id :
  toAssetId id
  = str ("0"%char :: "x"%char :: replicate 56 "0"%char
           ++ fixed_width 16 8 (ToUint32 (djb2 (TextEncoder_encode id)))).
Proof.
  set (hash := ToUint32 (djb2 (TextEncoder_encode id))).
  assert (ushr (djb2 (TextEncoder_encode id)) 0 = hash) as Hh.
  { unfold ushr, hash. now rewrite Z.mod_0_l, Z.shiftr_0_r by lia. }
  assert (0 <= hash < 2 ^ 32) as Hr by (apply Z.mod_pos_bound; lia).
  unfold toAssetId. cbv zeta. rewrite Hh. unfold toString.
  destruct (Z.ltb_spec hash 0) as [|_]; [lia|].
  destruct (digits_fixed 16 hash 8) as [Hlen Hfix]; [lia | cbn; lia | lia |].
  unfold padStart at 2. rewrite chars_str, Hfix.
  unfold padStart. rewrite chars_str, length_fixed_width. reflexivity.
Qed.

Lemma hex_digit_char v : 0 <= v < 16 -> hex_digit_value (digit_char v) = v.
Proof.
  intros Hv.
  assert (v = 0 \/ v = 1 \/ v = 2 \/ v = 3 \/ v = 4 \/ v = 5 \/ v = 6 \/ v = 7 \/
          v = 8 \/ v = 9 \/ v = 10 \/ v = 11 \/ v = 12 \/ v = 13 \/ v = 14 \/ v = 15)
    as Hcases by lia.
  repeat (destruct Hcases as [-> | Hcases]; [reflexivity|]). now subst v.
Qed.

Lemma hex_value_from l : forall acc,
  fold_left (fun acc c => 16 * acc + hex_digit_value c) l acc
  = acc * 16 ^ Z.of_nat (length l) + hex_value l.
Proof.
  unfold hex_value. induction l as [|c l IH]; intros acc; [cbn; lia|].
  cbn [fold_left length]. rewrite IH, (IH (16 * 0 + hex_digit_value c)).
  rewrite Nat2Z.inj_succ, Z.pow_succ_r by lia. lia.
Qed.

Lemma hex_value_app a b :
  hex_value (a ++ b) = hex_value a * 16 ^ Z.of_nat (length b) + hex_value b.
Proof. unfold hex_value at 1. rewrite fold_left_app. apply hex_value_from. Qed.

Lemma hex_value_zeros k : hex_value (replicate k "0"%char) = 0.
Proof.
  induction k as [|k IH]; [reflexivity|].
  change (replicate (S k) "0"%char) with (["0"%char] ++ replicate k "0"%char).
  rewrite hex_value_app, IH. reflexivity.
Qed.

Lemma hex_value_fixed_width width : forall n,
  0 <= n -> hex_value (fixed_width 16 width n) = n mod 16 ^ Z.of_nat width.
Proof.
  induction width as [|width IH]; intros n Hn; [cbn; now rewrite Z.mod_1_r|].
  cbn [fixed_width].
  assert (n mod 16 ^ Z.of_nat (S width)
          = (n / 16) mod 16 ^ Z.of_nat width * 16 + n mod 16) as ->.
  { rewrite Nat2Z.inj_succ, Z.pow_succ_r by lia.
    rewrite Z.rem_mul_r by (try apply Z.pow_nonzero; lia). lia. }
  rewrite hex_value_app, IH by (apply Z.div_pos; lia).
  cbn [length]. unfold hex_value at 1. cbn [fold_left].
  rewrite hex_digit_char by (apply Z.mod_pos_bound; lia).
  change (16 ^ Z.of_nat 1) with 16. lia.
Qed.

(** Read back as a number, the identifier is the 32-bit hash. *)
Lemma bytes32_of_toAssetId id :
  bytes32_of_hex (toAssetId id) = ToUint32 (djb2 (TextEncoder_encode id)).
Proof.
  unfold bytes32_of_hex. rewrite toAssetId_closed, chars_str. cbn [drop]. rewrite drop_0.
  rewrite hex_value_app, hex_value_zeros, hex_value_fixed_width
    by (apply Z.mod_pos_bound; lia).
  cbn [Z.mul Z.add]. apply Z.mod_small. unfold ToUint32.
  change (16 ^ Z.of_nat 8) with (2 ^ 32). apply Z.mod_pos_bound. lia.
Qed.

(** X15.  The contract key of an identifier is a number below [2^32]: of the 256
    bits of the [bytes32] only the low 32 are ever used, and the key is the
    hash itself. *)
Theorem asset_key_is_hash id :
  bytes32_of_hex (toAssetId id) = ToUint32 (djb2 (TextEncoder_encode id)) /\
  0 <= bytes32_of_hex (toAssetId id) < 2 ^ 32.
Proof.
  split; [apply bytes32_of_toAssetId|].
  rewrite bytes32_of_toAssetId. unfold ToUint32. apply Z.mod_pos_bound. lia.
Qed.

(** X16.  [toAssetId] is not injective: two different identifiers can get the
    same asset identifier, and two identifiers that do keep doing so with
    any text added after both. *)
Theorem toAssetId_collides :
  (exists a b : string, a <> b /\ toAssetId a = toAssetId b) /\
  forall a b suffix : string,
    toAssetId a = toAssetId b ->
    toAssetId (String.append a suffix) = toAssetId (String.append b suffix).
Proof.
  split.
  - exists "coingecko:a-"%string, "coingecko:co"%string.
    split; [discriminate | vm_compute; reflexivity].
  - intros a b suffix Hab.
    assert (forall s, ToUint32 (djb2 (TextEncoder_encode s)) = bytes32_of_hex (toAssetId s))
      as Hkey by (intros s; now rewrite bytes32_of_toAssetId).
    assert (djb2 (TextEncoder_encode a) mod 2 ^ 32 = djb2 (TextEncoder_encode b) mod 2 ^ 32)
      as Hmod.
    { change (ToUint32 (djb2 (TextEncoder_encode a)) = ToUint32 (djb2 (TextEncoder_encode b))).
      now rewrite !Hkey, Hab. }
    rewrite !toAssetId_closed, !TextEncoder_encode_append.
    unfold djb2. rewrite !fold_left_app. unfold ToUint32.
    now rewrite (fold_step_mod _ _ _ Hmod).
Qed.

Lemma toAssetId_collides_witness :
  toAssetId "coingecko:a-token" = toAssetId "coingecko:cotoken".
Proof.
  apply (proj2 toAssetId_collides "coingecko:a-" "coingecko:co" "token").
  vm_compute. reflexivity.
Defined.

(** ** The hash, in arithmetic *)

Lemma ToUint32_ToInt32 x : ToUint32 (ToInt32 x) = x mod 2 ^ 32.
Proof.
  unfold ToUint32, ToInt32. pose proof (Z.mod_pos_bound x (2 ^ 32) ltac:(lia)) as Hm.
  destruct (x mod 2 ^ 32 <? 2 ^ 31).
  - now rewrite Z.mod_mod by lia.
  - rewrite <- (Z.mod_mod x (2 ^ 32)) at 2 by lia.
    replace (x mod 2 ^ 32 - 2 ^ 32) with (x mod 2 ^ 32 + (-1) * 2 ^ 32) by lia.
    now rewrite Z.mod_add by lia.
Qed.

Lemma lxor_mod_pow2 a b n :
  0 <= n -> Z.lxor a b mod 2 ^ n = Z.lxor (a mod 2 ^ n) (b mod 2 ^ n).
Proof.
  intros Hn. apply Z.bits_inj'. intros i Hi.
  rewrite Z.lxor_spec, !Z.testbit_mod_pow2, Z.lxor_spec by lia.
  now destruct (i <? n).
Qed.

(** One turn of the loop, seen on the unsigned 32-bit value of the hash. *)
Lemma ToUint32_step x byte :
  0 <= byte < 2 ^ 32 ->
  ToUint32 (step x byte) = Z.lxor (33 * ToUint32 x mod 2 ^ 32) byte.
Proof.
  intros Hb. unfold step, xor. rewrite ToUint32_ToInt32, lxor_mod_pow2 by lia.
  fold (ToUint32 (ToInt32 (shl x 5 + x))). fold (ToUint32 (ToInt32 byte)).
  rewrite !ToUint32_ToInt32, (Z.mod_small byte) by lia. f_equal.
  unfold shl. rewrite Z.add_mod by lia.
  fold (ToUint32 (ToInt32 (Z.shiftl (ToInt32 x) (5 mod 32)))).
  rewrite ToUint32_ToInt32. change (5 mod 32) with 5.
  rewrite Z.shiftl_mul_pow2 by lia. change (2 ^ 5) with 32.
  rewrite (Z.mul_mod (ToInt32 x)) by lia.
  fold (ToUint32 (ToInt32 x)). rewrite ToUint32_ToInt32. fold (ToUint32 x).
  unfold ToUint32. rewrite <- Z.mul_mod, <- Z.add_mod by lia.
  rewrite Z.mul_mod_idemp_r by lia. f_equal. lia.
Qed.

Lemma ToUint32_fold_step enc :
  Forall (fun byte => 0 <= byte < 2 ^ 32) enc ->
  forall x,
    ToUint32 (fold_left step enc x)
    = fold_left (fun h byte => Z.lxor (33 * h mod 2 ^ 32) byte) enc (ToUint32 x).
Proof.
  induction 1 as [|byte enc Hb _ IH]; intros x; [reflexivity|].
  cbn [fold_left]. now rewrite IH, ToUint32_step.
Qed.

Lemma TextEncoder_encode_bytes id :
  Forall (fun byte => 0 <= byte < 2 ^ 32) (TextEncoder_encode id).
Proof.
  unfold TextEncoder_encode. apply Forall_forall. intros byte Hin.
  apply list_elem_of_In, in_map_iff in Hin as (c & <- & _).
  pose proof (N_ascii_bounded c). lia.
Qed.

(** [toAssetId] computes the hash described in words. *)
Lemma djb2_is_djb2_xor_32 id :
  ToUint32 (djb2 (TextEncoder_encode id)) = djb2_xor_32 (TextEncoder_encode id).
Proof.
  unfold djb2, djb2_xor_32.
  now rewrite (ToUint32_fold_step _ (TextEncoder_encode_bytes id)).
Qed.

(** ** The hexadecimal writing, read by the library's parser *)

Lemma ascii_to_digit_char v :
  0 <= v < 16 ->
  ascii_to_digit (digit_char v) = Some (Z.to_N v) /\ digit_char v ∈ lower_hex_digits.
Proof.
  intros Hv.
  assert (v = 0 \/ v = 1 \/ v = 2 \/ v = 3 \/ v = 4 \/ v = 5 \/ v = 6 \/ v = 7 \/
          v = 8 \/ v = 9 \/ v = 10 \/ v = 11 \/ v = 12 \/ v = 13 \/ v = 14 \/ v = 15)
    as Hcases by lia.
  unfold lower_hex_digits.
  repeat (destruct Hcases as [-> | Hcases];
          [split; [reflexivity | cbn; rewrite !elem_of_cons; tauto]|]).
  subst v. split; [reflexivity | cbn; rewrite !elem_of_cons; tauto].
Qed.

Lemma fixed_width_hex_digits width : forall n,
  Forall (fun c => exists v, 0 <= v < 16 /\ c = digit_char v) (fixed_width 16 width n).
Proof.
  induction width as [|width IH]; intros n; [constructor|].
  cbn [fixed_width]. apply Forall_app. split; [apply IH|].
  apply Forall_cons. split; [|constructor].
  exists (n mod 16). split; [apply Z.mod_pos_bound; lia | reflexivity].
Qed.

Lemma Raw_to_N_digits l :
  Forall (fun c => exists v, 0 <= v < 16 /\ c = digit_char v) l ->
  forall acc,
    Z.of_N (HexString.Raw.to_N (str l) acc)
    = Z.of_N acc * 16 ^ Z.of_nat (length l) + hex_value l.
Proof.
  induction 1 as [|c l (v & Hv & ->) _ IH]; intros acc; [cbn; lia|].
  change (str (digit_char v :: l)) with (String (digit_char v) (str l)).
  cbn [HexString.Raw.to_N]. rewrite IH, (proj1 (ascii_to_digit_char v Hv)).
  change (digit_char v :: l) with ([digit_char v] ++ l). rewrite hex_value_app.
  change (hex_value [digit_char v]) with (16 * 0 + hex_digit_value (digit_char v)).
  rewrite hex_digit_char by done.
  cbn [length app]. rewrite Nat2Z.inj_succ, Z.pow_succ_r by lia. lia.
Qed.

(** C8.  [toAssetId] is a function of the bytes of the identifier alone,
    so every call on a string gives the same value.  The value is ["0x"]
    followed by 64 hexadecimal digits in lower case (32 bytes): 56 zeros,
    then 8 digits; read as a number it is the xor variant of the 32-bit
    djb2 hash of the bytes, which starts from 5381 and for each byte in
    turn replaces the hash [h] by [(33 * h mod 2^32) xor byte]. *)
Theorem toAssetId_shape (id : string) :
  let bytes := map (fun c => Z.of_N (N_of_ascii c)) (list_ascii_of_string id) in
  let hash := djb2_xor_32 bytes in
  0 <= hash < 2 ^ 32 /\
  String.length (toAssetId id) = 66%nat /\
  (exists digits,
     toAssetId id
     = String.append "0x" (string_of_list_ascii (replicate 56 "0"%char ++ digits)) /\
     length digits = 8%nat /\
     Forall (fun c => c ∈ lower_hex_digits) digits) /\
  HexString.to_Z (toAssetId id) = hash.
Proof.
  intros bytes hash.
  assert (hash = ToUint32 (djb2 (TextEncoder_encode id))) as Hhash
    by (symmetry; apply djb2_is_djb2_xor_32).
  assert (0 <= hash < 2 ^ 32) as Hr
    by (rewrite Hhash; unfold ToUint32; apply Z.mod_pos_bound; lia).
  rewrite toAssetId_closed, <- Hhash.
  pose proof (fixed_width_hex_digits 8 hash) as Hdigits.
  split; [exact Hr|]. split.
  { rewrite length_str. cbn [length].
    rewrite length_app, length_replicate, length_fixed_width. reflexivity. }
  split.
  { exists (fixed_width 16 8 hash). split; [reflexivity|].
    split; [apply length_fixed_width|].
    eapply Forall_impl; [exact Hdigits|].
    intros c (v & Hv & ->). exact (proj2 (ascii_to_digit_char v Hv)). }
  assert (Forall (fun c => exists v, 0 <= v < 16 /\ c = digit_char v)
            (replicate 56 "0"%char ++ fixed_width 16 8 hash)) as Hall.
  { apply Forall_app. split; [|exact Hdigits].
    apply Forall_replicate. exists 0. split; [lia | reflexivity]. }
  pose proof (Raw_to_N_digits _ Hall 0%N) as Hraw.
  rewrite hex_value_app, hex_value_zeros, hex_value_fixed_width in Hraw by lia.
  change (16 ^ Z.of_nat 8) with (2 ^ 32) in Hraw.
  rewrite Z.mod_small in Hraw by lia. change (Z.of_N 0) with 0 in Hraw.
  rewrite !Z.mul_0_l, !Z.add_0_l in Hraw.
  change (HexString.to_Z
            (str ("0"%char :: "x"%char :: replicate 56 "0"%char ++ fixed_width 16 8 hash)))
    with (match HexString.Raw.to_N
                  (str (replicate 56 "0"%char ++ fixed_width 16 8 hash)) 0 with
          | N0 => 0
          | Npos p => Zpos p
          end).
  etransitivity; [|exact Hraw]. now destruct (HexString.Raw.to_N _ _).
Qed.

End AssetIdMoreFacts.

(* ===================================================================== *)
(** * Saving to and loading from the registry                             *)
(* ===================================================================== *)

Section ChainFacts.
Import Js View Registry Ledger Chain.

Lemma assetIds_lookup (hs : list Holding) i h :
  hs !! i = Some h -> assetIds hs !! i = Some (key h).
Proof.
  intros H. unfold assetIds, assetIdsBytes32, key. now rewrite !list_lookup_fmap, H.
Qed.

Lemma length_assetIds (hs : list Holding) : length (assetIds hs) = length hs.
Proof. unfold assetIds, assetIdsBytes32. now rewrite !length_map. Qed.

Lemma chainAmounts_connected owner w (hs : list Holding) :
  chainAmounts (Some owner) w hs = Some (map (amountOf w owner) (assetIds hs)).
Proof. unfold chainAmounts, call. now rewrite getMany_ok. Qed.

Lemma load_connected owner w (hs : list Holding) :
  load (Some owner) w hs
  = map (fun h => with_amount h (display_amount (amountOf w owner (key h)))) hs.
Proof.
  unfold load. rewrite chainAmounts_connected. unfold reconcile.
  apply list_eq. intros i. rewrite list_lookup_imap.
  rewrite (list_lookup_fmap (fun h => with_amount h _) hs i).
  destruct (hs !! i) as [h|] eqn:Hh; [|reflexivity]. cbn.
  now rewrite list_lookup_fmap, (assetIds_lookup hs i h Hh).
Qed.

Lemma amountOf_other_senders history owner id : forall w,
  Forall (fun t => sender_of t <> owner) history ->
  amountOf (run history w) owner id = amountOf w owner id.
Proof.
  induction history as [|t history IH]; intros w Hall; [reflexivity|].
  apply Forall_cons in Hall as [Ht Hall]. cbn [run fold_left].
  fold (run history (apply_tx w t)). rewrite IH by done.
  rewrite amountOf_apply_tx.
  destruct t as [s x a | s ids amts]; cbn in *.
  - rewrite bool_decide_eq_false_2; [done | tauto].
  - now rewrite bool_decide_eq_false_2.
Qed.

(** X17.  Loading from the chain.  Without a connected wallet the holdings are
    left alone.  With one, every holding takes the conversion of what the
    contract holds for the owner under the holding's key, so holdings with
    the same identifier end up with the same amount; and when the owner has
    never sent a transaction, every amount becomes zero, whatever had been
    entered. *)
Theorem load_from_chain owner w (hs : list Holding) :
  load None w hs = hs /\
  load (Some owner) w hs
  = map (fun h => with_amount h (display_amount (amountOf w owner (key h)))) hs /\
  (forall i j h h', load (Some owner) w hs !! i = Some h ->
                    load (Some owner) w hs !! j = Some h' ->
                    id h = id h' -> amount h = amount h') /\
  forall history,
    w = run history deployed ->
    Forall (fun t => sender_of t <> owner) history ->
    load (Some owner) w hs = map (fun h => with_amount h zero) hs.
Proof.
  split; [reflexivity|]. split; [apply load_connected|]. split.
  - rewrite load_connected. intros i j h h' Hi Hj Hid.
    rewrite list_lookup_fmap in Hi, Hj.
    destruct (hs !! i) as [g|]; [|discriminate]. destruct (hs !! j) as [g'|]; [|discriminate].
    cbn in Hi, Hj. injection Hi as <-. injection Hj as <-. cbn in *.
    unfold key. now rewrite Hid.
  - intros history -> Hall. rewrite load_connected. apply map_ext. intros h.
    rewrite amountOf_other_senders by done. reflexivity.
Qed.

Lemma load_from_chain_witness :
  let edited := [with_amount (Ui.asset "coingecko:bitcoin" "BTC" "Bitcoin") (of_Z 3)] in
  load (Some 1) (run [TxSet 2 7 100] deployed) edited
  = [Ui.asset "coingecko:bitcoin" "BTC" "Bitcoin"].
Proof.
  intros edited.
  refine (proj2 (proj2 (proj2 (load_from_chain 1 (run [TxSet 2 7 100] deployed) edited)))
            [TxSet 2 7 100] eq_refl _).
  repeat constructor. cbn. lia.
Defined.

Lemma last_written_is_Some id ids : forall (amts : list uint128) i,
  length ids = length amts -> ids !! i = Some id ->
  is_Some (last_written id ids amts).
Proof.
  induction ids as [|x ids IH]; intros [|a amts] i Hlen Hi; try discriminate.
  cbn [last_written]. destruct i as [|i]; simpl in Hi.
  - injection Hi as ->. destruct (last_written id ids amts); [eauto|].
    rewrite decide_True by done. eauto.
  - destruct (IH amts i) as [v Hv]; [simpl in Hlen; lia | exact Hi |].
    rewrite Hv. eauto.
Qed.

(** X18.  Saving and loading again.  Whatever [saveOnChain] sends is a batch
    with one amount per holding, so the contract's length check never
    rejects it.  Once it is mined, a reload gives every holding the
    conversion of the amount saved last under its key: its own amount when
    the keys of the holdings are pairwise distinct, the amount of a later
    holding when two holdings share a key. *)
Theorem save_then_load to_units sender (hs : list Holding) t w :
  saveOnChain to_units sender hs = Some t ->
  exists amounts,
    t = TxSetMany sender (assetIds hs) amounts /\
    length amounts = length hs /\
    Forall (fun a => 0 <= a < 2 ^ 128) amounts /\
    fst (transact (body_of t) w) = Success /\
    (forall i h, hs !! i = Some h ->
       exists a, last_written (key h) (assetIds hs) amounts = Some a /\
         load (Some sender) (apply_tx w t) hs !! i = Some (with_amount h (display_amount a))) /\
    (NoDup (assetIds hs) ->
     forall i h, hs !! i = Some h ->
       exists a, to_units (amount_or_zero (amount h)) = Some a /\
         load (Some sender) (apply_tx w t) hs !! i = Some (with_amount h (display_amount a))).
Proof.
  unfold saveOnChain. intros Hsave.
  destruct (mapM _ hs) as [amounts|] eqn:Hm; [|discriminate].
  destruct (forallb is_uint128 amounts) eqn:Hrange; [|discriminate].
  injection Hsave as <-. exists amounts.
  apply mapM_Some in Hm.
  assert (length amounts = length hs) as Hlen by (symmetry; eapply Forall2_length; eauto).
  assert (length (assetIds hs) = length amounts) as Hlen'
    by (rewrite length_assetIds; lia).
  assert (forall i h, hs !! i = Some h ->
            exists a, last_written (key h) (assetIds hs) amounts = Some a /\
              load (Some sender) (apply_tx w (TxSetMany sender (assetIds hs) amounts)) hs !! i
              = Some (with_amount h (display_amount a))) as Hlast.
  { intros i h Hh.
    destruct (last_written_is_Some (key h) (assetIds hs) amounts i Hlen'
                (assetIds_lookup hs i h Hh)) as [a Ha].
    exists a. split; [exact Ha|].
    rewrite load_connected, list_lookup_fmap, Hh. cbn. do 3 f_equal.
    rewrite amountOf_apply_tx. cbn [writes].
    rewrite bool_decide_eq_true_2 by done.
    match goal with
    | |- context [Nat.eqb ?n ?m] => destruct (Nat.eqb_spec n m) as [_|Hne]
    end; [|exfalso; apply Hne; exact Hlen'].
    cbn [andb]. rewrite Ha. reflexivity. }
  split; [reflexivity|]. split; [exact Hlen|]. split; [|split; [|split]].
  - apply Forall_forall. intros a Ha. rewrite forallb_forall in Hrange.
    apply list_elem_of_In, Hrange in Ha. unfold is_uint128 in Ha.
    apply andb_true_iff in Ha as [H1 H2]. apply Z.leb_le in H1. apply Z.ltb_lt in H2. lia.
  - unfold transact. cbn [body_of]. now rewrite setMany_ok.
  - exact Hlast.
  - intros Hnd i h Hh. destruct (Hlast i h Hh) as (a & Ha & Hload).
    destruct (Forall2_lookup_l _ _ _ _ _ Hm Hh) as (a' & Ha' & Hunits).
    rewrite (last_written_NoDup (assetIds hs) amounts i (key h) a' Hnd Hlen'
               (assetIds_lookup hs i h Hh) Ha') in Ha.
    injection Ha as <-. eauto.
Qed.

Lemma save_then_load_witness :
  let to_units := fun x : number =>
    match x with
    | S754_zero _ => Some 0
    | _ => Some 1500000000000000000
    end in
  let row := with_amount (Ui.asset "coingecko:bitcoin" "BTC" "Bitcoin") (of_decimal false 15 1) in
  load (Some 1) (apply_tx deployed (TxSetMany 1 (assetIds [row]) [1500000000000000000])) [row]
    !! 0%nat
  = Some row.
Proof.
  intros to_units row.
  assert (saveOnChain to_units 1 [row]
          = Some (TxSetMany 1 (assetIds [row]) [1500000000000000000])) as Hsave
    by (vm_compute; reflexivity).
  destruct (save_then_load to_units 1 [row] _ deployed Hsave)
    as (amounts & _ & _ & _ & _ & _ & Hown).
  destruct (Hown ltac:(repeat constructor; apply not_elem_of_nil) 0%nat row eq_refl)
    as (a & Ha & Hload).
  refine (eq_trans Hload _). vm_compute in Ha. injection Ha as <-.
  vm_compute. reflexivity.
Defined.

End ChainFacts.

(* ===================================================================== *)
(** * More on the polling effect                                          *)
(* ===================================================================== *)

Section TimersFacts.
Import Js View Poll Timers.

Lemma ignored_same s s' e : instances s' = instances s -> ignored s' e = ignored s e.
Proof. unfold ignored. now intros ->. Qed.

Lemma shown_set_phase p ph s : shown (set_phase p ph s) = shown s.
Proof. unfold shown. now destruct (view_set_phase p ph s) as (-> & -> & ->). Qed.

(** The [catch] and [finally] blocks of a call whose run is live. *)
Lemma catch_live p e err s :
  ignored s e = false ->
  shown (fetchPrices_catch p e err s) = (prices s, false, Some (message_of err)).
Proof.
  intros H. unfold fetchPrices_catch. cbv zeta. rewrite shown_set_phase.
  unfold unless_ignored at 2. rewrite H.
  unfold unless_ignored. rewrite (ignored_same s _ e) by reflexivity. now rewrite H.
Qed.

(** X19.  A failed poll keeps the prices.  Whether [fetch] throws, the proxy
    answers with a status outside 200-299, or the body does not parse, the
    price mapping stays what it was; and when the poll belongs to the run
    that is still current, the error message is shown and loading ends. *)
Theorem failed_poll_keeps_prices s p e :
  ignored s e = false ->
  (polls s !! p = Some {| started_by := e; at_phase := AwaitFetch |} ->
   (forall err, shown (step s (FetchSettles p (Rejected err)))
                = (prices s, false, Some (message_of err))) /\
   (forall status, ok status = false ->
      shown (step s (FetchSettles p (Resolved status)))
      = (prices s, false,
         Some (String.append "Price API error: " (toString 10 status))))) /\
  (polls s !! p = Some {| started_by := e; at_phase := AwaitJson |} ->
   forall err, shown (step s (JsonSettles p (Rejected err)))
               = (prices s, false, Some (message_of err))).
Proof.
  intros Hlive. split.
  - intros Hp. split.
    + intros err. cbn [step]. rewrite Hp. now apply catch_live.
    + intros status Hok. cbn [step]. rewrite Hp, Hok.
      now rewrite (catch_live p e _ s Hlive).
  - intros Hp err. cbn [step]. rewrite Hp. now apply catch_live.
Qed.

Lemma failed_poll_keeps_prices_witness :
  shown (step (mount "coingecko:bitcoin") (FetchSettles 0 (Resolved 502)))
  = (∅, false, Some "Price API error: 502"%string).
Proof.
  exact (proj2 (proj1 (failed_poll_keeps_prices (mount "coingecko:bitcoin") 0 0 eq_refl)
                  eq_refl) 502 eq_refl).
Defined.

(** X20.  A poll of the current run whose answer parses replaces the price
    mapping as a whole by the one received, the empty one when the body
    has none: nothing of the old mapping is kept; loading ends, and the
    error shown is left as it is.  The one body that is not taken in is
    [null]: reading [data.prices] throws, the prices stay what they were
    and the TypeError's message is shown. *)
Theorem successful_poll_replaces_prices s p e :
  ignored s e = false ->
  polls s !! p = Some {| started_by := e; at_phase := AwaitJson |} ->
  (forall data_prices,
     shown (step s (JsonSettles p (Resolved (Data data_prices))))
     = (default ∅ data_prices, false, error s)) /\
  (forall type_error,
     shown (step s (JsonSettles p (Resolved (Null type_error))))
     = (prices s, false, Some type_error)).
Proof.
  intros Hlive Hp. split.
  - intros data_prices. cbn [step]. rewrite Hp. unfold fetchPrices_apply. cbv zeta.
    rewrite shown_set_phase. unfold unless_ignored at 2. rewrite Hlive.
    unfold unless_ignored. rewrite (ignored_same s _ e) by reflexivity. now rewrite Hlive.
  - intros type_error. cbn [step]. rewrite Hp. cbn [fetchPrices_apply].
    rewrite Hlive. now rewrite (catch_live p e _ s Hlive).
Qed.

Lemma successful_poll_replaces_prices_witness :
  let old : PriceMap := {[ "a"%string := {| quote_symbol := None; price := Some (of_Z 1) |} ]} in
  let new : PriceMap := {[ "b"%string := {| quote_symbol := None; price := None |} ]} in
  let s := run (mount "a,b") [FetchSettles 0 (Resolved 200);
                              JsonSettles 0 (Resolved (Data (Some old)));
                              Tick 0; FetchSettles 1 (Resolved 200)] in
  prices s = old /\
  shown (step s (JsonSettles 1 (Resolved (Data (Some new))))) = (new, false, None) /\
  shown (step s (JsonSettles 1 (Resolved (Data None)))) = (∅, false, None) /\
  shown (step s (JsonSettles 1 (Resolved (Null "data is null"))))
  = (old, false, Some "data is null"%string).
Proof.
  intros old new s. split; [vm_compute; reflexivity|].
  destruct (successful_poll_replaces_prices s 1 0 eq_refl eq_refl) as [Hdata Hnull].
  split; [exact (Hdata (Some new))|]. split; [exact (Hdata None)|].
  exact (Hnull "data is null"%string).
Defined.

(** ** Timers *)

Lemma ticking_same s s' e : instances s' = instances s -> ticking s' e -> ticking s e.
Proof. unfold ticking. now intros ->. Qed.

Lemma has_ids_same s s' e : instances s' = instances s -> has_ids s e -> has_ids s' e.
Proof. unfold has_ids. now intros ->. Qed.

Lemma tidy_same s s' extra :
  instances s' = instances s -> mounted s' = mounted s ->
  starters s' = starters s ++ extra -> Forall (has_ids s) extra ->
  tidy s -> tidy s'.
Proof.
  intros Hi Hm Hs Hx [H1 H2]. split.
  - intros e He. rewrite Hm, Hi. apply H1. now apply (ticking_same s s').
  - rewrite Hs. apply Forall_app. split; (eapply Forall_impl; [eassumption|]);
      intros e; now apply has_ids_same.
Qed.

Lemma has_ids_cleanup s e : has_ids s e -> has_ids (cleanup s) e.
Proof.
  intros (i & Hi & Hne). unfold has_ids, cleanup.
  destruct (instances s !! current s) as [c|] eqn:Hc; [|eauto]. cbn [instances set_instances].
  destruct (decide (current s = e)) as [<-|Hd].
  - rewrite Hc in Hi. injection Hi as <-.
    eexists. split; [apply list_lookup_insert_eq; eauto using lookup_lt_Some | exact Hne].
  - exists i. now rewrite list_lookup_insert_ne.
Qed.

Lemma has_ids_run_effect ids s e : has_ids s e -> has_ids (run_effect ids s) e.
Proof.
  intros (i & Hi & Hne). exists i. rewrite instances_run_effect.
  split; [now apply lookup_app_l_Some | exact Hne].
Qed.

(** After [cleanup] no interval ticks, provided only the current one did. *)
Lemma cleanup_stops s :
  (forall e, ticking s e -> S e = length (instances s)) ->
  forall e, ~ ticking (cleanup s) e.
Proof.
  intros Honly e (i & Hi & Hlive). unfold cleanup in Hi.
  destruct (instances s !! current s) as [c|] eqn:Hc.
  - cbn [instances set_instances] in Hi. destruct (decide (current s = e)) as [<-|Hd].
    + rewrite list_lookup_insert_eq in Hi by eauto using lookup_lt_Some.
      injection Hi as <-. discriminate Hlive.
    + rewrite list_lookup_insert_ne in Hi by done.
      assert (S e = length (instances s)) as He by (apply Honly; exists i; auto).
      unfold current in Hd. lia.
  - assert (S e = length (instances s)) as He by (apply Honly; exists i; auto).
    apply lookup_ge_None in Hc. unfold current in Hc. lia.
Qed.

Lemma tidy_rerun ids s : tidy s -> mounted s = true -> tidy (run_effect ids (cleanup s)).
Proof.
  intros [H1 H2] Hm.
  assert (forall e, ~ ticking (cleanup s) e) as Hstop
    by (apply cleanup_stops; intros e He; now apply H1).
  split.
  - intros e (i & Hi & Hlive). rewrite mounted_run_effect, mounted_cleanup.
    split; [exact Hm|]. rewrite instances_run_effect in Hi |- *.
    rewrite length_app. cbn [length].
    destruct (decide (e < length (instances (cleanup s)))%nat) as [Hlt|Hge].
    + rewrite lookup_app_l in Hi by done. exfalso. apply (Hstop e). exists i. auto.
    + apply lookup_lt_Some in Hi. rewrite length_app in Hi. cbn in Hi. lia.
  - destruct (starters_run_effect ids (cleanup s)) as [-> | Hs].
    + rewrite starters_cleanup. eapply Forall_impl; [exact H2|].
      intros e He. now apply has_ids_run_effect, has_ids_cleanup.
    + rewrite Hs, starters_cleanup. apply Forall_app. split.
      * eapply Forall_impl; [exact H2|].
        intros e He. now apply has_ids_run_effect, has_ids_cleanup.
      * apply Forall_cons. split; [|constructor].
        assert ((0 <? String.length ids)%nat = true) as Hids.
        { unfold run_effect in Hs. destruct (0 <? String.length ids)%nat; [reflexivity|].
          unfold starters in Hs. cbn in Hs. rewrite <- (app_nil_r (map _ _)) in Hs at 1.
          apply app_inv_head in Hs. discriminate Hs. }
        eexists. rewrite instances_run_effect.
        split; [apply list_lookup_middle; reflexivity | exact Hids].
Qed.

Lemma tidy_step s ev : tidy s -> tidy (step s ev).
Proof.
  intros Ht. destruct ev as [ids | | e' | p r | p r]; cbn [step].
  - destruct (instances s !! current s); [|done].
    destruct (mounted s) eqn:Hm; [|done]. cbn.
    destruct (negb (String.eqb (captured_ids i) ids)); [|done].
    now apply tidy_rerun.
  - destruct (mounted s) eqn:Hm; [|done]. destruct Ht as [H1 H2].
    assert (forall e, ~ ticking (cleanup s) e) as Hstop
      by (apply cleanup_stops; intros e He; now apply H1).
    split.
    + intros e He. exfalso. apply (Hstop e). exact He.
    + change (Forall (has_ids (set_mounted false (cleanup s))) (starters (cleanup s))).
      rewrite starters_cleanup. eapply Forall_impl; [exact H2|].
      intros e He. apply (has_ids_same (cleanup s)); [reflexivity|].
      now apply has_ids_cleanup.
  - destruct (instances s !! e') as [i|] eqn:He'; [|done].
    destruct (interval_live i) eqn:Hlive; [|done].
    destruct (0 <? String.length (captured_ids i))%nat eqn:Hids; [|done]. cbn.
    apply (tidy_same s _ [e']); auto using starters_start.
    apply Forall_cons. split; [|constructor]. exists i. auto.
  - destruct (polls s !! p) as [[e0 [| |]]|]; try done.
    destruct r as [status|err]; [destruct (ok status)|].
    + apply (tidy_same s _ []); auto using instances_set_phase, mounted_set_phase.
      now rewrite starters_set_phase, app_nil_r.
    + apply (tidy_same s _ []); auto using instances_catch, mounted_catch.
      now rewrite starters_catch, app_nil_r.
    + apply (tidy_same s _ []); auto using instances_catch, mounted_catch.
      now rewrite starters_catch, app_nil_r.
  - destruct (polls s !! p) as [[e0 [| |]]|]; try done.
    destruct r as [d|err].
    + apply (tidy_same s _ []); auto using instances_apply, mounted_apply.
      now rewrite starters_apply, app_nil_r.
    + apply (tidy_same s _ []); auto using instances_catch, mounted_catch.
      now rewrite starters_catch, app_nil_r.
Qed.

Lemma tidy_mount ids : tidy (mount ids).
Proof.
  unfold mount. set (s0 := {| prices := ∅; loading := false; error := None;
                              mounted := true; instances := []; polls := [] |}).
  split.
  - intros e (i & Hi & _). rewrite mounted_run_effect. split; [reflexivity|].
    rewrite instances_run_effect in Hi |- *. cbn in *.
    destruct e as [|e]; [reflexivity | discriminate Hi].
  - destruct (starters_run_effect ids s0) as [-> | Hs]; [constructor|].
    rewrite Hs. cbn. apply Forall_cons. split; [|constructor].
    assert ((0 <? String.length ids)%nat = true) as Hids.
    { unfold run_effect in Hs. destruct (0 <? String.length ids)%nat; [reflexivity|].
      discriminate Hs. }
    eexists. rewrite instances_run_effect. split; [reflexivity | exact Hids].
Qed.

Lemma tidy_run evs : forall s, tidy s -> tidy (run s evs).
Proof.
  induction evs as [|ev evs IH]; intros s H; [done|].
  cbn. apply IH. now apply tidy_step.
Qed.

(** X21.  There is never more than one timer: whatever has happened since the
    component was mounted, an interval that still ticks belongs to the
    current effect run of a mounted component, so two ticking intervals are
    the same one. *)
Theorem one_interval ids0 evs e1 e2 :
  let s := run (mount ids0) evs in
  ticking s e1 -> ticking s e2 ->
  e1 = e2 /\ e1 = current s /\ mounted s = true.
Proof.
  intros s H1 H2. destruct (tidy_run evs _ (tidy_mount ids0)) as [Hint _].
  destruct (Hint e1 H1) as [Hm He1]. destruct (Hint e2 H2) as [_ He2].
  fold s in He1, He2. unfold current. split; [lia|]. split; [lia | exact Hm].
Qed.

Lemma one_interval_witness :
  let s := run (mount "a") [Render "b"; Render "c"] in
  2%nat = current s /\ mounted s = true.
Proof.
  intros s.
  refine (proj2 (one_interval "a" [Render "b"; Render "c"] 2 2 _ _));
    (eexists; split; [vm_compute; reflexivity | reflexivity]).
Defined.

(** ** When nothing can happen any more *)

Lemma length_starters s : length (starters s) = length (polls s).
Proof. unfold starters. apply length_map. Qed.

(** The settling of a call belonging to a dead run, or of no call. *)
Lemma settle_quiet s p :
  (forall e, starters s !! p = Some e -> dead s e) ->
  forall ev, (exists rf, ev = FetchSettles p rf) \/ (exists rj, ev = JsonSettles p rj) ->
    shown (step s ev) = shown s /\ starters (step s ev) = starters s /\
    instances (step s ev) = instances s /\ mounted (step s ev) = mounted s.
Proof.
  intros Hdead ev Hev.
  destruct (polls s !! p) as [[e ph]|] eqn:Hp.
  - assert (starters s !! p = Some e) as Hs
      by (unfold starters; now rewrite list_lookup_fmap, Hp).
    specialize (Hdead e Hs).
    destruct Hev as [[rf ->] | [rj ->]].
    + split; [exact (proj1 (settle_dead s p e Hs Hdead rf (Rejected ThrownOther)))|].
      cbn [step]. rewrite Hp. destruct ph; try done.
      destruct rf as [status|err]; [destruct (ok status)|];
        auto using starters_set_phase, starters_catch, instances_set_phase,
          instances_catch, mounted_set_phase, mounted_catch.
    + split; [exact (proj2 (settle_dead s p e Hs Hdead (Rejected ThrownOther) rj))|].
      cbn [step]. rewrite Hp. destruct ph; try done.
      destruct rj as [d|err];
        auto using starters_apply, starters_catch, instances_apply,
          instances_catch, mounted_apply, mounted_catch.
  - destruct Hev as [[rf ->] | [rj ->]]; cbn [step]; now rewrite Hp.
Qed.

Lemma unmounted_step s ev :
  wf s -> tidy s -> mounted s = false ->
  shown (step s ev) = shown s /\ starters (step s ev) = starters s /\
  mounted (step s ev) = false.
Proof.
  intros Hwf Ht Hm.
  assert (forall p e, starters s !! p = Some e -> dead s e) as Hdead.
  { intros p e He. apply (wf_unmounted s Hwf Hm).
    pose proof (wf_polls s Hwf) as Hp. rewrite Forall_lookup in Hp. eauto. }
  destruct ev as [ids | | e' | p r | p r].
  - cbn [step]. rewrite Hm. cbn. now destruct (instances s !! current s).
  - cbn [step]. now rewrite Hm.
  - cbn [step]. destruct (instances s !! e') as [i|] eqn:He'; [|done].
    destruct (interval_live i) eqn:Hlive; [|done].
    destruct (tidy_interval s Ht e') as [Hm' _]; [exists i; auto|]. congruence.
  - destruct (settle_quiet s p (Hdead p) (FetchSettles p r)) as (H1 & H2 & _ & H4);
      [left; eauto|].
    split; [exact H1|]. split; [exact H2 | congruence].
  - destruct (settle_quiet s p (Hdead p) (JsonSettles p r)) as (H1 & H2 & _ & H4);
      [right; eauto|].
    split; [exact H1|]. split; [exact H2 | congruence].
Qed.

(** X22.  After the component is unmounted nothing happens any more: whatever
    events follow (late answers, ticks, renders), nothing shown changes and
    no request is started. *)
Theorem nothing_after_unmount ids0 evs1 evs2 :
  let s := run (mount ids0) evs1 in
  mounted s = false ->
  shown (run s evs2) = shown s /\ length (polls (run s evs2)) = length (polls s).
Proof.
  intros s Hm.
  assert (wf s) as Hwf by apply wf_run, wf_mount.
  assert (tidy s) as Ht by apply tidy_run, tidy_mount.
  rewrite <- !length_starters. clearbody s. revert s Hm Hwf Ht.
  induction evs2 as [|ev evs2 IH]; intros s Hm Hwf Ht; [done|].
  change (run s (ev :: evs2)) with (run (step s ev) evs2).
  destruct (unmounted_step s ev Hwf Ht Hm) as (H1 & H2 & H3).
  destruct (IH (step s ev) H3 (wf_step s ev Hwf) (tidy_step s ev Ht)) as [IH1 IH2].
  split; congruence.
Qed.

Lemma nothing_after_unmount_witness :
  let s := run (mount "a") [Unmount] in
  shown (run s [FetchSettles 0 (Resolved 200); JsonSettles 0 (Resolved (Data None)); Tick 0;
                Render "b"]) = shown s.
Proof.
  intros s. exact (proj1 (nothing_after_unmount "a" [Unmount] _ eq_refl)).
Defined.

Lemma current_ids_cleanup s : current_ids (cleanup s) = current_ids s.
Proof.
  unfold current_ids, current. rewrite length_instances_cleanup.
  fold (current s). unfold cleanup.
  destruct (instances s !! current s) as [i|] eqn:Hi; [|now rewrite Hi].
  cbn [instances set_instances].
  now rewrite list_lookup_insert_eq by eauto using lookup_lt_Some.
Qed.

Lemma shown_cleanup s : shown (set_mounted false (cleanup s)) = shown s.
Proof. unfold cleanup. now destruct (instances s !! current s). Qed.

Lemma current_ids_same s s' :
  instances s' = instances s -> current_ids s' = current_ids s.
Proof. unfold current_ids, current. now intros ->. Qed.

Lemma no_holdings_step s ev :
  wf s -> tidy s -> current_ids s = EmptyString -> no_holdings_event ev ->
  shown (step s ev) = shown s /\ starters (step s ev) = starters s /\
  current_ids (step s ev) = EmptyString.
Proof.
  intros Hwf Ht Hcur Hev.
  assert (forall i, instances s !! current s = Some i -> captured_ids i = EmptyString)
    as Hempty by (intros i Hi; unfold current_ids in Hcur; now rewrite Hi in Hcur).
  assert (forall p e, starters s !! p = Some e -> dead s e) as Hdead.
  { intros p e He. pose proof (wf_polls s Hwf) as Hp. rewrite Forall_lookup in Hp.
    pose proof (tidy_polls s Ht) as Hi. rewrite Forall_lookup in Hi.
    specialize (Hp p e He). destruct (Hi p e He) as (i & Hinst & Hne).
    apply (wf_older s Hwf). destruct (decide (S e < length (instances s))%nat); [done|].
    exfalso. assert (e = current s) as -> by (unfold current; lia).
    rewrite (Hempty i Hinst) in Hne. discriminate Hne. }
  destruct ev as [ids | | e' | p r | p r].
  - cbn in Hev. subst ids. cbn [step].
    destruct (instances s !! current s) as [i|] eqn:Hi; [|done].
    rewrite (Hempty i eq_refl). now rewrite andb_false_r.
  - cbn [step]. destruct (mounted s); [|done].
    split; [apply shown_cleanup|]. split.
    + change (starters (cleanup s) = starters s). apply starters_cleanup.
    + rewrite (current_ids_same (cleanup s)) by reflexivity.
      now rewrite current_ids_cleanup.
  - cbn [step]. destruct (instances s !! e') as [i|] eqn:He'; [|done].
    destruct (interval_live i) eqn:Hlive; [|done].
    destruct (tidy_interval s Ht e') as [_ Hlast]; [exists i; auto|].
    assert (e' = current s) as -> by (unfold current; lia).
    rewrite (Hempty i He'). done.
  - destruct (settle_quiet s p (Hdead p) (FetchSettles p r)) as (H1 & H2 & H3 & _);
      [left; eauto|].
    split; [exact H1|]. split; [exact H2|]. now rewrite (current_ids_same s _ H3).
  - destruct (settle_quiet s p (Hdead p) (JsonSettles p r)) as (H1 & H2 & H3 & _);
      [right; eauto|].
    split; [exact H1|]. split; [exact H2|]. now rewrite (current_ids_same s _ H3).
Qed.

(** X23.  With no holdings nothing happens: once the effect runs for an empty
    [ids], no request is started and nothing shown changes until a render
    brings holdings back, whatever answers and ticks arrive.  A loading
    indicator that was on when the last holding went away stays on. *)
Theorem nothing_without_holdings ids0 evs1 evs2 :
  let s := run (mount ids0) evs1 in
  current_ids s = EmptyString ->
  Forall no_holdings_event evs2 ->
  shown (run s evs2) = shown s /\ length (polls (run s evs2)) = length (polls s).
Proof.
  intros s Hcur Hevs.
  assert (wf s) as Hwf by apply wf_run, wf_mount.
  assert (tidy s) as Ht by apply tidy_run, tidy_mount.
  rewrite <- !length_starters. clearbody s. revert s Hcur Hwf Ht.
  induction Hevs as [|ev evs2 Hev _ IH]; intros s Hcur Hwf Ht; [done|].
  change (run s (ev :: evs2)) with (run (step s ev) evs2).
  destruct (no_holdings_step s ev Hwf Ht Hcur Hev) as (H1 & H2 & H3).
  destruct (IH (step s ev) H3 (wf_step s ev Hwf) (tidy_step s ev Ht)) as [IH1 IH2].
  split; congruence.
Qed.

Lemma nothing_without_holdings_witness :
  let s := run (mount "coingecko:bitcoin") [Render ""] in
  loading s = true /\
  shown (run s [FetchSettles 0 (Resolved 200); JsonSettles 0 (Resolved (Data None)); Tick 1;
                Tick 0; Render ""]) = shown s.
Proof.
  intros s. split; [reflexivity|].
  refine (proj1 (nothing_without_holdings "coingecko:bitcoin" [Render ""] _ eq_refl _)).
  repeat constructor.
Defined.

End TimersFacts.
